(** * BizGenius: the business-plan prompt builder and section parser

    A shallow embedding of [BusinessPlanGenerator]: the prompt template
    ([createBusinessPlanPrompt]), the parser of generated text into titled
    sections ([parseBusinessPlanSections]), the content normaliser
    ([formatSectionContent]) and the flat-text export
    ([formatBusinessPlanForExport]), with the properties the specification
    states about them. *)

From Stdlib Require Import List NArith Bool Arith Lia Ascii String.
Import ListNotations.

(** ** ECMAScript strings

    A string is its sequence of UTF-16 code units.  [lit] reads a Basic
    Latin literal; the bullet U+2022 is written by its code. *)

Definition char := N.
Definition str := list char.

Definition lit (s : string) : str := List.map N_of_ascii (list_ascii_of_string s).

Definition LF : char := 10%N.
Definition SP : char := 32%N.
Definition STAR : char := 42%N.
Definition HASH : char := 35%N.
Definition DASH : char := 45%N.
Definition DOT : char := 46%N.
Definition EQUALS : char := 61%N.
Definition BULLET : char := 8226%N.

Definition isLF (c : char) : bool := N.eqb c LF.
Definition isStar (c : char) : bool := N.eqb c STAR.
Definition isHash (c : char) : bool := N.eqb c HASH.

(** LineTerminator: LF, CR, LS, PS. *)
Definition isLineTerminator (c : char) : bool :=
  N.eqb c 10 || N.eqb c 13 || N.eqb c 8232 || N.eqb c 8233.

(** The class [\s], which is also what [trim] strips: WhiteSpace and
    LineTerminator. *)
Definition isWhiteSpace (c : char) : bool :=
  (N.leb 9 c && N.leb c 13) || N.eqb c 32 || N.eqb c 160 || N.eqb c 5760
  || (N.leb 8192 c && N.leb c 8202) || N.eqb c 8232 || N.eqb c 8233
  || N.eqb c 8239 || N.eqb c 8287 || N.eqb c 12288 || N.eqb c 65279.

(** The class [\d]. *)
Definition isDigit (c : char) : bool := N.leb 48 c && N.leb c 57.

(** The class [[-•]]. *)
Definition isMarker (c : char) : bool := N.eqb c DASH || N.eqb c BULLET.

(** ** [toLowerCase]

    [String.prototype.toLowerCase] reads the string as code points (a lead
    surrogate followed by a trail surrogate is one code point, any other
    unit is one by itself), maps each code point by the lower-case mapping of
    the Unicode Character Database and writes the result back as UTF-16.
    The mapping is that of [UnicodeData.txt] and of the locale-insensitive
    part of [SpecialCasing.txt], here in version 14.0: U+0130 gives two code
    points, and U+03A3 gives the final sigma where its context asks for it.
    The tables are given as ranges. *)

Local Open Scope N_scope.

(** The simple lower-case mappings: each entry [(first, last, step, target)]
    maps the code points [first], [first + step], ... up to [last] to
    [target], [target + step], ... *)
Definition lowerTable : list (N * N * N * N) :=
  [
    (0x41, 0x5A, 1, 0x61); (0xC0, 0xD6, 1, 0xE0); (0xD8, 0xDE, 1, 0xF8);
    (0x100, 0x12E, 2, 0x101); (0x132, 0x136, 2, 0x133); (0x139, 0x147, 2, 0x13A);
    (0x14A, 0x176, 2, 0x14B); (0x178, 0x178, 1, 0xFF); (0x179, 0x17D, 2, 0x17A);
    (0x181, 0x181, 1, 0x253); (0x182, 0x184, 2, 0x183); (0x186, 0x186, 1, 0x254);
    (0x187, 0x187, 1, 0x188); (0x189, 0x18A, 1, 0x256); (0x18B, 0x18B, 1, 0x18C);
    (0x18E, 0x18E, 1, 0x1DD); (0x18F, 0x18F, 1, 0x259); (0x190, 0x190, 1, 0x25B);
    (0x191, 0x191, 1, 0x192); (0x193, 0x193, 1, 0x260); (0x194, 0x194, 1, 0x263);
    (0x196, 0x196, 1, 0x269); (0x197, 0x197, 1, 0x268); (0x198, 0x198, 1, 0x199);
    (0x19C, 0x19C, 1, 0x26F); (0x19D, 0x19D, 1, 0x272); (0x19F, 0x19F, 1, 0x275);
    (0x1A0, 0x1A4, 2, 0x1A1); (0x1A6, 0x1A6, 1, 0x280); (0x1A7, 0x1A7, 1, 0x1A8);
    (0x1A9, 0x1A9, 1, 0x283); (0x1AC, 0x1AC, 1, 0x1AD); (0x1AE, 0x1AE, 1, 0x288);
    (0x1AF, 0x1AF, 1, 0x1B0); (0x1B1, 0x1B2, 1, 0x28A); (0x1B3, 0x1B5, 2, 0x1B4);
    (0x1B7, 0x1B7, 1, 0x292); (0x1B8, 0x1B8, 1, 0x1B9); (0x1BC, 0x1BC, 1, 0x1BD);
    (0x1C4, 0x1C4, 1, 0x1C6); (0x1C5, 0x1C5, 1, 0x1C6); (0x1C7, 0x1C7, 1, 0x1C9);
    (0x1C8, 0x1C8, 1, 0x1C9); (0x1CA, 0x1CA, 1, 0x1CC); (0x1CB, 0x1DB, 2, 0x1CC);
    (0x1DE, 0x1EE, 2, 0x1DF); (0x1F1, 0x1F1, 1, 0x1F3); (0x1F2, 0x1F4, 2, 0x1F3);
    (0x1F6, 0x1F6, 1, 0x195); (0x1F7, 0x1F7, 1, 0x1BF); (0x1F8, 0x21E, 2, 0x1F9);
    (0x220, 0x220, 1, 0x19E); (0x222, 0x232, 2, 0x223); (0x23A, 0x23A, 1, 0x2C65);
    (0x23B, 0x23B, 1, 0x23C); (0x23D, 0x23D, 1, 0x19A); (0x23E, 0x23E, 1, 0x2C66);
    (0x241, 0x241, 1, 0x242); (0x243, 0x243, 1, 0x180); (0x244, 0x244, 1, 0x289);
    (0x245, 0x245, 1, 0x28C); (0x246, 0x24E, 2, 0x247); (0x370, 0x372, 2, 0x371);
    (0x376, 0x376, 1, 0x377); (0x37F, 0x37F, 1, 0x3F3); (0x386, 0x386, 1, 0x3AC);
    (0x388, 0x38A, 1, 0x3AD); (0x38C, 0x38C, 1, 0x3CC); (0x38E, 0x38F, 1, 0x3CD);
    (0x391, 0x3A1, 1, 0x3B1); (0x3A4, 0x3AB, 1, 0x3C4); (0x3CF, 0x3CF, 1, 0x3D7);
    (0x3D8, 0x3EE, 2, 0x3D9); (0x3F4, 0x3F4, 1, 0x3B8); (0x3F7, 0x3F7, 1, 0x3F8);
    (0x3F9, 0x3F9, 1, 0x3F2); (0x3FA, 0x3FA, 1, 0x3FB); (0x3FD, 0x3FF, 1, 0x37B);
    (0x400, 0x40F, 1, 0x450); (0x410, 0x42F, 1, 0x430); (0x460, 0x480, 2, 0x461);
    (0x48A, 0x4BE, 2, 0x48B); (0x4C0, 0x4C0, 1, 0x4CF); (0x4C1, 0x4CD, 2, 0x4C2);
    (0x4D0, 0x52E, 2, 0x4D1); (0x531, 0x556, 1, 0x561); (0x10A0, 0x10C5, 1, 0x2D00);
    (0x10C7, 0x10C7, 1, 0x2D27); (0x10CD, 0x10CD, 1, 0x2D2D); (0x13A0, 0x13EF, 1, 0xAB70);
    (0x13F0, 0x13F5, 1, 0x13F8); (0x1C90, 0x1CBA, 1, 0x10D0); (0x1CBD, 0x1CBF, 1, 0x10FD);
    (0x1E00, 0x1E94, 2, 0x1E01); (0x1E9E, 0x1E9E, 1, 0xDF); (0x1EA0, 0x1EFE, 2, 0x1EA1);
    (0x1F08, 0x1F0F, 1, 0x1F00); (0x1F18, 0x1F1D, 1, 0x1F10); (0x1F28, 0x1F2F, 1, 0x1F20);
    (0x1F38, 0x1F3F, 1, 0x1F30); (0x1F48, 0x1F4D, 1, 0x1F40); (0x1F59, 0x1F5F, 2, 0x1F51);
    (0x1F68, 0x1F6F, 1, 0x1F60); (0x1F88, 0x1F8F, 1, 0x1F80); (0x1F98, 0x1F9F, 1, 0x1F90);
    (0x1FA8, 0x1FAF, 1, 0x1FA0); (0x1FB8, 0x1FB9, 1, 0x1FB0); (0x1FBA, 0x1FBB, 1, 0x1F70);
    (0x1FBC, 0x1FBC, 1, 0x1FB3); (0x1FC8, 0x1FCB, 1, 0x1F72); (0x1FCC, 0x1FCC, 1, 0x1FC3);
    (0x1FD8, 0x1FD9, 1, 0x1FD0); (0x1FDA, 0x1FDB, 1, 0x1F76); (0x1FE8, 0x1FE9, 1, 0x1FE0);
    (0x1FEA, 0x1FEB, 1, 0x1F7A); (0x1FEC, 0x1FEC, 1, 0x1FE5); (0x1FF8, 0x1FF9, 1, 0x1F78);
    (0x1FFA, 0x1FFB, 1, 0x1F7C); (0x1FFC, 0x1FFC, 1, 0x1FF3); (0x2126, 0x2126, 1, 0x3C9);
    (0x212A, 0x212A, 1, 0x6B); (0x212B, 0x212B, 1, 0xE5); (0x2132, 0x2132, 1, 0x214E);
    (0x2160, 0x216F, 1, 0x2170); (0x2183, 0x2183, 1, 0x2184); (0x24B6, 0x24CF, 1, 0x24D0);
    (0x2C00, 0x2C2F, 1, 0x2C30); (0x2C60, 0x2C60, 1, 0x2C61); (0x2C62, 0x2C62, 1, 0x26B);
    (0x2C63, 0x2C63, 1, 0x1D7D); (0x2C64, 0x2C64, 1, 0x27D); (0x2C67, 0x2C6B, 2, 0x2C68);
    (0x2C6D, 0x2C6D, 1, 0x251); (0x2C6E, 0x2C6E, 1, 0x271); (0x2C6F, 0x2C6F, 1, 0x250);
    (0x2C70, 0x2C70, 1, 0x252); (0x2C72, 0x2C72, 1, 0x2C73); (0x2C75, 0x2C75, 1, 0x2C76);
    (0x2C7E, 0x2C7F, 1, 0x23F); (0x2C80, 0x2CE2, 2, 0x2C81); (0x2CEB, 0x2CED, 2, 0x2CEC);
    (0x2CF2, 0x2CF2, 1, 0x2CF3); (0xA640, 0xA66C, 2, 0xA641); (0xA680, 0xA69A, 2, 0xA681);
    (0xA722, 0xA72E, 2, 0xA723); (0xA732, 0xA76E, 2, 0xA733); (0xA779, 0xA77B, 2, 0xA77A);
    (0xA77D, 0xA77D, 1, 0x1D79); (0xA77E, 0xA786, 2, 0xA77F); (0xA78B, 0xA78B, 1, 0xA78C);
    (0xA78D, 0xA78D, 1, 0x265); (0xA790, 0xA792, 2, 0xA791); (0xA796, 0xA7A8, 2, 0xA797);
    (0xA7AA, 0xA7AA, 1, 0x266); (0xA7AB, 0xA7AB, 1, 0x25C); (0xA7AC, 0xA7AC, 1, 0x261);
    (0xA7AD, 0xA7AD, 1, 0x26C); (0xA7AE, 0xA7AE, 1, 0x26A); (0xA7B0, 0xA7B0, 1, 0x29E);
    (0xA7B1, 0xA7B1, 1, 0x287); (0xA7B2, 0xA7B2, 1, 0x29D); (0xA7B3, 0xA7B3, 1, 0xAB53);
    (0xA7B4, 0xA7C2, 2, 0xA7B5); (0xA7C4, 0xA7C4, 1, 0xA794); (0xA7C5, 0xA7C5, 1, 0x282);
    (0xA7C6, 0xA7C6, 1, 0x1D8E); (0xA7C7, 0xA7C9, 2, 0xA7C8); (0xA7D0, 0xA7D0, 1, 0xA7D1);
    (0xA7D6, 0xA7D8, 2, 0xA7D7); (0xA7F5, 0xA7F5, 1, 0xA7F6); (0xFF21, 0xFF3A, 1, 0xFF41);
    (0x10400, 0x10427, 1, 0x10428); (0x104B0, 0x104D3, 1, 0x104D8); (0x10570, 0x1057A, 1, 0x10597);
    (0x1057C, 0x1058A, 1, 0x105A3); (0x1058C, 0x10592, 1, 0x105B3); (0x10594, 0x10595, 1, 0x105BB);
    (0x10C80, 0x10CB2, 1, 0x10CC0); (0x118A0, 0x118BF, 1, 0x118C0); (0x16E40, 0x16E5F, 1, 0x16E60);
    (0x1E900, 0x1E921, 1, 0x1E922)
  ].

(** The property Cased, as ranges. *)
Definition casedTable : list (N * N) :=
  [
    (0x41, 0x5A); (0x61, 0x7A); (0xAA, 0xAA); (0xB5, 0xB5); (0xBA, 0xBA);
    (0xC0, 0xD6); (0xD8, 0xF6); (0xF8, 0x1BA); (0x1BC, 0x1BF); (0x1C4, 0x293);
    (0x295, 0x2B8); (0x2C0, 0x2C1); (0x2E0, 0x2E4); (0x345, 0x345); (0x370, 0x373);
    (0x376, 0x377); (0x37A, 0x37D); (0x37F, 0x37F); (0x386, 0x386); (0x388, 0x38A);
    (0x38C, 0x38C); (0x38E, 0x3A1); (0x3A3, 0x3F5); (0x3F7, 0x481); (0x48A, 0x52F);
    (0x531, 0x556); (0x560, 0x588); (0x10A0, 0x10C5); (0x10C7, 0x10C7); (0x10CD, 0x10CD);
    (0x10D0, 0x10FA); (0x10FD, 0x10FF); (0x13A0, 0x13F5); (0x13F8, 0x13FD); (0x1C80, 0x1C88);
    (0x1C90, 0x1CBA); (0x1CBD, 0x1CBF); (0x1D00, 0x1DBF); (0x1E00, 0x1F15); (0x1F18, 0x1F1D);
    (0x1F20, 0x1F45); (0x1F48, 0x1F4D); (0x1F50, 0x1F57); (0x1F59, 0x1F59); (0x1F5B, 0x1F5B);
    (0x1F5D, 0x1F5D); (0x1F5F, 0x1F7D); (0x1F80, 0x1FB4); (0x1FB6, 0x1FBC); (0x1FBE, 0x1FBE);
    (0x1FC2, 0x1FC4); (0x1FC6, 0x1FCC); (0x1FD0, 0x1FD3); (0x1FD6, 0x1FDB); (0x1FE0, 0x1FEC);
    (0x1FF2, 0x1FF4); (0x1FF6, 0x1FFC); (0x2071, 0x2071); (0x207F, 0x207F); (0x2090, 0x209C);
    (0x2102, 0x2102); (0x2107, 0x2107); (0x210A, 0x2113); (0x2115, 0x2115); (0x2119, 0x211D);
    (0x2124, 0x2124); (0x2126, 0x2126); (0x2128, 0x2128); (0x212A, 0x212D); (0x212F, 0x2134);
    (0x2139, 0x2139); (0x213C, 0x213F); (0x2145, 0x2149); (0x214E, 0x214E); (0x2160, 0x217F);
    (0x2183, 0x2184); (0x24B6, 0x24E9); (0x2C00, 0x2CE4); (0x2CEB, 0x2CEE); (0x2CF2, 0x2CF3);
    (0x2D00, 0x2D25); (0x2D27, 0x2D27); (0x2D2D, 0x2D2D); (0xA640, 0xA66D); (0xA680, 0xA69D);
    (0xA722, 0xA787); (0xA78B, 0xA78E); (0xA790, 0xA7CA); (0xA7D0, 0xA7D1); (0xA7D3, 0xA7D3);
    (0xA7D5, 0xA7D9); (0xA7F5, 0xA7F6); (0xA7F8, 0xA7FA); (0xAB30, 0xAB5A); (0xAB5C, 0xAB68);
    (0xAB70, 0xABBF); (0xFB00, 0xFB06); (0xFB13, 0xFB17); (0xFF21, 0xFF3A); (0xFF41, 0xFF5A);
    (0x10400, 0x1044F); (0x104B0, 0x104D3); (0x104D8, 0x104FB); (0x10570, 0x1057A); (0x1057C, 0x1058A);
    (0x1058C, 0x10592); (0x10594, 0x10595); (0x10597, 0x105A1); (0x105A3, 0x105B1); (0x105B3, 0x105B9);
    (0x105BB, 0x105BC); (0x10780, 0x10780); (0x10783, 0x10785); (0x10787, 0x107B0); (0x107B2, 0x107BA);
    (0x10C80, 0x10CB2); (0x10CC0, 0x10CF2); (0x118A0, 0x118DF); (0x16E40, 0x16E7F); (0x1D400, 0x1D454);
    (0x1D456, 0x1D49C); (0x1D49E, 0x1D49F); (0x1D4A2, 0x1D4A2); (0x1D4A5, 0x1D4A6); (0x1D4A9, 0x1D4AC);
    (0x1D4AE, 0x1D4B9); (0x1D4BB, 0x1D4BB); (0x1D4BD, 0x1D4C3); (0x1D4C5, 0x1D505); (0x1D507, 0x1D50A);
    (0x1D50D, 0x1D514); (0x1D516, 0x1D51C); (0x1D51E, 0x1D539); (0x1D53B, 0x1D53E); (0x1D540, 0x1D544);
    (0x1D546, 0x1D546); (0x1D54A, 0x1D550); (0x1D552, 0x1D6A5); (0x1D6A8, 0x1D6C0); (0x1D6C2, 0x1D6DA);
    (0x1D6DC, 0x1D6FA); (0x1D6FC, 0x1D714); (0x1D716, 0x1D734); (0x1D736, 0x1D74E); (0x1D750, 0x1D76E);
    (0x1D770, 0x1D788); (0x1D78A, 0x1D7A8); (0x1D7AA, 0x1D7C2); (0x1D7C4, 0x1D7CB); (0x1DF00, 0x1DF09);
    (0x1DF0B, 0x1DF1E); (0x1E900, 0x1E943); (0x1F130, 0x1F149); (0x1F150, 0x1F169); (0x1F170, 0x1F189)
  ].

(** The property Case_Ignorable, as ranges. *)
Definition caseIgnorableTable : list (N * N) :=
  [
    (0x27, 0x27); (0x2E, 0x2E); (0x3A, 0x3A); (0x5E, 0x5E); (0x60, 0x60);
    (0xA8, 0xA8); (0xAD, 0xAD); (0xAF, 0xAF); (0xB4, 0xB4); (0xB7, 0xB8);
    (0x2B0, 0x36F); (0x374, 0x375); (0x37A, 0x37A); (0x384, 0x385); (0x387, 0x387);
    (0x483, 0x489); (0x559, 0x559); (0x55F, 0x55F); (0x591, 0x5BD); (0x5BF, 0x5BF);
    (0x5C1, 0x5C2); (0x5C4, 0x5C5); (0x5C7, 0x5C7); (0x5F4, 0x5F4); (0x600, 0x605);
    (0x610, 0x61A); (0x61C, 0x61C); (0x640, 0x640); (0x64B, 0x65F); (0x670, 0x670);
    (0x6D6, 0x6DD); (0x6DF, 0x6E8); (0x6EA, 0x6ED); (0x70F, 0x70F); (0x711, 0x711);
    (0x730, 0x74A); (0x7A6, 0x7B0); (0x7EB, 0x7F5); (0x7FA, 0x7FA); (0x7FD, 0x7FD);
    (0x816, 0x82D); (0x859, 0x85B); (0x888, 0x888); (0x890, 0x891); (0x898, 0x89F);
    (0x8C9, 0x902); (0x93A, 0x93A); (0x93C, 0x93C); (0x941, 0x948); (0x94D, 0x94D);
    (0x951, 0x957); (0x962, 0x963); (0x971, 0x971); (0x981, 0x981); (0x9BC, 0x9BC);
    (0x9C1, 0x9C4); (0x9CD, 0x9CD); (0x9E2, 0x9E3); (0x9FE, 0x9FE); (0xA01, 0xA02);
    (0xA3C, 0xA3C); (0xA41, 0xA42); (0xA47, 0xA48); (0xA4B, 0xA4D); (0xA51, 0xA51);
    (0xA70, 0xA71); (0xA75, 0xA75); (0xA81, 0xA82); (0xABC, 0xABC); (0xAC1, 0xAC5);
    (0xAC7, 0xAC8); (0xACD, 0xACD); (0xAE2, 0xAE3); (0xAFA, 0xAFF); (0xB01, 0xB01);
    (0xB3C, 0xB3C); (0xB3F, 0xB3F); (0xB41, 0xB44); (0xB4D, 0xB4D); (0xB55, 0xB56);
    (0xB62, 0xB63); (0xB82, 0xB82); (0xBC0, 0xBC0); (0xBCD, 0xBCD); (0xC00, 0xC00);
    (0xC04, 0xC04); (0xC3C, 0xC3C); (0xC3E, 0xC40); (0xC46, 0xC48); (0xC4A, 0xC4D);
    (0xC55, 0xC56); (0xC62, 0xC63); (0xC81, 0xC81); (0xCBC, 0xCBC); (0xCBF, 0xCBF);
    (0xCC6, 0xCC6); (0xCCC, 0xCCD); (0xCE2, 0xCE3); (0xD00, 0xD01); (0xD3B, 0xD3C);
    (0xD41, 0xD44); (0xD4D, 0xD4D); (0xD62, 0xD63); (0xD81, 0xD81); (0xDCA, 0xDCA);
    (0xDD2, 0xDD4); (0xDD6, 0xDD6); (0xE31, 0xE31); (0xE34, 0xE3A); (0xE46, 0xE4E);
    (0xEB1, 0xEB1); (0xEB4, 0xEBC); (0xEC6, 0xEC6); (0xEC8, 0xECD); (0xF18, 0xF19);
    (0xF35, 0xF35); (0xF37, 0xF37); (0xF39, 0xF39); (0xF71, 0xF7E); (0xF80, 0xF84);
    (0xF86, 0xF87); (0xF8D, 0xF97); (0xF99, 0xFBC); (0xFC6, 0xFC6); (0x102D, 0x1030);
    (0x1032, 0x1037); (0x1039, 0x103A); (0x103D, 0x103E); (0x1058, 0x1059); (0x105E, 0x1060);
    (0x1071, 0x1074); (0x1082, 0x1082); (0x1085, 0x1086); (0x108D, 0x108D); (0x109D, 0x109D);
    (0x10FC, 0x10FC); (0x135D, 0x135F); (0x1712, 0x1714); (0x1732, 0x1733); (0x1752, 0x1753);
    (0x1772, 0x1773); (0x17B4, 0x17B5); (0x17B7, 0x17BD); (0x17C6, 0x17C6); (0x17C9, 0x17D3);
    (0x17D7, 0x17D7); (0x17DD, 0x17DD); (0x180B, 0x180F); (0x1843, 0x1843); (0x1885, 0x1886);
    (0x18A9, 0x18A9); (0x1920, 0x1922); (0x1927, 0x1928); (0x1932, 0x1932); (0x1939, 0x193B);
    (0x1A17, 0x1A18); (0x1A1B, 0x1A1B); (0x1A56, 0x1A56); (0x1A58, 0x1A5E); (0x1A60, 0x1A60);
    (0x1A62, 0x1A62); (0x1A65, 0x1A6C); (0x1A73, 0x1A7C); (0x1A7F, 0x1A7F); (0x1AA7, 0x1AA7);
    (0x1AB0, 0x1ACE); (0x1B00, 0x1B03); (0x1B34, 0x1B34); (0x1B36, 0x1B3A); (0x1B3C, 0x1B3C);
    (0x1B42, 0x1B42); (0x1B6B, 0x1B73); (0x1B80, 0x1B81); (0x1BA2, 0x1BA5); (0x1BA8, 0x1BA9);
    (0x1BAB, 0x1BAD); (0x1BE6, 0x1BE6); (0x1BE8, 0x1BE9); (0x1BED, 0x1BED); (0x1BEF, 0x1BF1);
    (0x1C2C, 0x1C33); (0x1C36, 0x1C37); (0x1C78, 0x1C7D); (0x1CD0, 0x1CD2); (0x1CD4, 0x1CE0);
    (0x1CE2, 0x1CE8); (0x1CED, 0x1CED); (0x1CF4, 0x1CF4); (0x1CF8, 0x1CF9); (0x1D2C, 0x1D6A);
    (0x1D78, 0x1D78); (0x1D9B, 0x1DFF); (0x1FBD, 0x1FBD); (0x1FBF, 0x1FC1); (0x1FCD, 0x1FCF);
    (0x1FDD, 0x1FDF); (0x1FED, 0x1FEF); (0x1FFD, 0x1FFE); (0x200B, 0x200F); (0x2018, 0x2019);
    (0x2024, 0x2024); (0x2027, 0x2027); (0x202A, 0x202E); (0x2060, 0x2064); (0x2066, 0x206F);
    (0x2071, 0x2071); (0x207F, 0x207F); (0x2090, 0x209C); (0x20D0, 0x20F0); (0x2C7C, 0x2C7D);
    (0x2CEF, 0x2CF1); (0x2D6F, 0x2D6F); (0x2D7F, 0x2D7F); (0x2DE0, 0x2DFF); (0x2E2F, 0x2E2F);
    (0x3005, 0x3005); (0x302A, 0x302D); (0x3031, 0x3035); (0x303B, 0x303B); (0x3099, 0x309E);
    (0x30FC, 0x30FE); (0xA015, 0xA015); (0xA4F8, 0xA4FD); (0xA60C, 0xA60C); (0xA66F, 0xA672);
    (0xA674, 0xA67D); (0xA67F, 0xA67F); (0xA69C, 0xA69F); (0xA6F0, 0xA6F1); (0xA700, 0xA721);
    (0xA770, 0xA770); (0xA788, 0xA78A); (0xA7F2, 0xA7F4); (0xA7F8, 0xA7F9); (0xA802, 0xA802);
    (0xA806, 0xA806); (0xA80B, 0xA80B); (0xA825, 0xA826); (0xA82C, 0xA82C); (0xA8C4, 0xA8C5);
    (0xA8E0, 0xA8F1); (0xA8FF, 0xA8FF); (0xA926, 0xA92D); (0xA947, 0xA951); (0xA980, 0xA982);
    (0xA9B3, 0xA9B3); (0xA9B6, 0xA9B9); (0xA9BC, 0xA9BD); (0xA9CF, 0xA9CF); (0xA9E5, 0xA9E6);
    (0xAA29, 0xAA2E); (0xAA31, 0xAA32); (0xAA35, 0xAA36); (0xAA43, 0xAA43); (0xAA4C, 0xAA4C);
    (0xAA70, 0xAA70); (0xAA7C, 0xAA7C); (0xAAB0, 0xAAB0); (0xAAB2, 0xAAB4); (0xAAB7, 0xAAB8);
    (0xAABE, 0xAABF); (0xAAC1, 0xAAC1); (0xAADD, 0xAADD); (0xAAEC, 0xAAED); (0xAAF3, 0xAAF4);
    (0xAAF6, 0xAAF6); (0xAB5B, 0xAB5F); (0xAB69, 0xAB6B); (0xABE5, 0xABE5); (0xABE8, 0xABE8);
    (0xABED, 0xABED); (0xFB1E, 0xFB1E); (0xFBB2, 0xFBC2); (0xFE00, 0xFE0F); (0xFE13, 0xFE13);
    (0xFE20, 0xFE2F); (0xFE52, 0xFE52); (0xFE55, 0xFE55); (0xFEFF, 0xFEFF); (0xFF07, 0xFF07);
    (0xFF0E, 0xFF0E); (0xFF1A, 0xFF1A); (0xFF3E, 0xFF3E); (0xFF40, 0xFF40); (0xFF70, 0xFF70);
    (0xFF9E, 0xFF9F); (0xFFE3, 0xFFE3); (0xFFF9, 0xFFFB); (0x101FD, 0x101FD); (0x102E0, 0x102E0);
    (0x10376, 0x1037A); (0x10780, 0x10785); (0x10787, 0x107B0); (0x107B2, 0x107BA); (0x10A01, 0x10A03);
    (0x10A05, 0x10A06); (0x10A0C, 0x10A0F); (0x10A38, 0x10A3A); (0x10A3F, 0x10A3F); (0x10AE5, 0x10AE6);
    (0x10D24, 0x10D27); (0x10EAB, 0x10EAC); (0x10F46, 0x10F50); (0x10F82, 0x10F85); (0x11001, 0x11001);
    (0x11038, 0x11046); (0x11070, 0x11070); (0x11073, 0x11074); (0x1107F, 0x11081); (0x110B3, 0x110B6);
    (0x110B9, 0x110BA); (0x110BD, 0x110BD); (0x110C2, 0x110C2); (0x110CD, 0x110CD); (0x11100, 0x11102);
    (0x11127, 0x1112B); (0x1112D, 0x11134); (0x11173, 0x11173); (0x11180, 0x11181); (0x111B6, 0x111BE);
    (0x111C9, 0x111CC); (0x111CF, 0x111CF); (0x1122F, 0x11231); (0x11234, 0x11234); (0x11236, 0x11237);
    (0x1123E, 0x1123E); (0x112DF, 0x112DF); (0x112E3, 0x112EA); (0x11300, 0x11301); (0x1133B, 0x1133C);
    (0x11340, 0x11340); (0x11366, 0x1136C); (0x11370, 0x11374); (0x11438, 0x1143F); (0x11442, 0x11444);
    (0x11446, 0x11446); (0x1145E, 0x1145E); (0x114B3, 0x114B8); (0x114BA, 0x114BA); (0x114BF, 0x114C0);
    (0x114C2, 0x114C3); (0x115B2, 0x115B5); (0x115BC, 0x115BD); (0x115BF, 0x115C0); (0x115DC, 0x115DD);
    (0x11633, 0x1163A); (0x1163D, 0x1163D); (0x1163F, 0x11640); (0x116AB, 0x116AB); (0x116AD, 0x116AD);
    (0x116B0, 0x116B5); (0x116B7, 0x116B7); (0x1171D, 0x1171F); (0x11722, 0x11725); (0x11727, 0x1172B);
    (0x1182F, 0x11837); (0x11839, 0x1183A); (0x1193B, 0x1193C); (0x1193E, 0x1193E); (0x11943, 0x11943);
    (0x119D4, 0x119D7); (0x119DA, 0x119DB); (0x119E0, 0x119E0); (0x11A01, 0x11A0A); (0x11A33, 0x11A38);
    (0x11A3B, 0x11A3E); (0x11A47, 0x11A47); (0x11A51, 0x11A56); (0x11A59, 0x11A5B); (0x11A8A, 0x11A96);
    (0x11A98, 0x11A99); (0x11C30, 0x11C36); (0x11C38, 0x11C3D); (0x11C3F, 0x11C3F); (0x11C92, 0x11CA7);
    (0x11CAA, 0x11CB0); (0x11CB2, 0x11CB3); (0x11CB5, 0x11CB6); (0x11D31, 0x11D36); (0x11D3A, 0x11D3A);
    (0x11D3C, 0x11D3D); (0x11D3F, 0x11D45); (0x11D47, 0x11D47); (0x11D90, 0x11D91); (0x11D95, 0x11D95);
    (0x11D97, 0x11D97); (0x11EF3, 0x11EF4); (0x13430, 0x13438); (0x16AF0, 0x16AF4); (0x16B30, 0x16B36);
    (0x16B40, 0x16B43); (0x16F4F, 0x16F4F); (0x16F8F, 0x16F9F); (0x16FE0, 0x16FE1); (0x16FE3, 0x16FE4);
    (0x1AFF0, 0x1AFF3); (0x1AFF5, 0x1AFFB); (0x1AFFD, 0x1AFFE); (0x1BC9D, 0x1BC9E); (0x1BCA0, 0x1BCA3);
    (0x1CF00, 0x1CF2D); (0x1CF30, 0x1CF46); (0x1D167, 0x1D169); (0x1D173, 0x1D182); (0x1D185, 0x1D18B);
    (0x1D1AA, 0x1D1AD); (0x1D242, 0x1D244); (0x1DA00, 0x1DA36); (0x1DA3B, 0x1DA6C); (0x1DA75, 0x1DA75);
    (0x1DA84, 0x1DA84); (0x1DA9B, 0x1DA9F); (0x1DAA1, 0x1DAAF); (0x1E000, 0x1E006); (0x1E008, 0x1E018);
    (0x1E01B, 0x1E021); (0x1E023, 0x1E024); (0x1E026, 0x1E02A); (0x1E130, 0x1E13D); (0x1E2AE, 0x1E2AE);
    (0x1E2EC, 0x1E2EF); (0x1E8D0, 0x1E8D6); (0x1E944, 0x1E94B); (0x1F3FB, 0x1F3FF); (0xE0001, 0xE0001);
    (0xE0020, 0xE007F); (0xE0100, 0xE01EF)
  ].

Local Close Scope N_scope.

Definition isLeadSurrogate (c : char) : bool := N.leb 0xD800 c && N.leb c 0xDBFF.
Definition isTrailSurrogate (c : char) : bool := N.leb 0xDC00 c && N.leb c 0xDFFF.

(** The code points of a string: a surrogate pair is one code point, and a
    surrogate that is not part of a pair stands for itself. *)
Fixpoint toCodePoints (s : str) : list N :=
  match s with
  | [] => []
  | c :: s' =>
      match s' with
      | d :: s'' =>
          if isLeadSurrogate c && isTrailSurrogate d
          then (0x10000 + (c - 0xD800) * 0x400 + (d - 0xDC00))%N :: toCodePoints s''
          else c :: toCodePoints s'
      | [] => [c]
      end
  end.

(** The code units of a code point. *)
Definition fromCodePoint (p : N) : str :=
  if N.ltb p 0x10000 then [p]
  else [(0xD800 + (p - 0x10000) / 0x400)%N; (0xDC00 + (p - 0x10000) mod 0x400)%N].

Fixpoint lookupLower (table : list (N * N * N * N)) (p : N) : option N :=
  match table with
  | [] => None
  | (first, last, step, target) :: rest =>
      if N.leb first p && N.leb p last && N.eqb ((p - first) mod step) 0
      then Some (target + (p - first))%N
      else lookupLower rest p
  end.

Fixpoint inRanges (table : list (N * N)) (p : N) : bool :=
  match table with
  | [] => false
  | (first, last) :: rest => (N.leb first p && N.leb p last) || inRanges rest p
  end.

Definition isCased (p : N) : bool := inRanges casedTable p.
Definition isCaseIgnorable (p : N) : bool := inRanges caseIgnorableTable p.

(** Whether the first code point that is not Case_Ignorable is Cased. *)
Fixpoint casedNext (ps : list N) : bool :=
  match ps with
  | [] => false
  | p :: rest => if isCaseIgnorable p then casedNext rest else isCased p
  end.

(** The condition Final_Sigma: a cased letter in front, and none behind, the
    code points that are Case_Ignorable being passed over.  [before] holds
    the code points in front, the nearest first. *)
Definition finalSigma (before after : list N) : bool :=
  casedNext before && negb (casedNext after).

(** The lower case of one code point in its context. *)
Definition lowerAt (before : list N) (p : N) (after : list N) : list N :=
  if N.eqb p 0x130 then [0x69%N; 0x307%N]
  else if N.eqb p 0x3A3 then [if finalSigma before after then 0x3C2%N else 0x3C3%N]
  else match lookupLower lowerTable p with
       | Some q => [q]
       | None => [p]
       end.

Fixpoint lowerFrom (before : list N) (ps : list N) : list N :=
  match ps with
  | [] => []
  | p :: rest => lowerAt before p rest ++ lowerFrom (p :: before) rest
  end.

Definition toLowerCase (s : str) : str :=
  flat_map fromCodePoint (lowerFrom [] (toCodePoints s)).

(** Length of the longest prefix whose units all satisfy [p]: what a greedy
    [p*] consumes. *)
Fixpoint run (p : char -> bool) (s : str) : nat :=
  match s with
  | c :: s' => if p c then S (run p s') else 0
  | [] => 0
  end.

Definition trimStart (s : str) : str := skipn (run isWhiteSpace s) s.
Definition trimEnd (s : str) : str := rev (trimStart (rev s)).
Definition trim (s : str) : str := trimEnd (trimStart s).

Fixpoint str_eqb (a b : str) : bool :=
  match a, b with
  | [], [] => true
  | x :: a', y :: b' => N.eqb x y && str_eqb a' b'
  | _, _ => false
  end.

Fixpoint startsWith (s p : str) : bool :=
  match p, s with
  | [], _ => true
  | x :: p', y :: s' => N.eqb x y && startsWith s' p'
  | _ :: _, [] => false
  end.

(** [s.includes(p)]. *)
Fixpoint includes (s p : str) : bool :=
  startsWith s p || match s with [] => false | _ :: s' => includes s' p end.

(** [s.split('\n')]: never empty, the empty string gives one empty line. *)
Fixpoint split (s : str) : list str :=
  match s with
  | [] => [[]]
  | c :: s' =>
      if isLF c then [] :: split s'
      else match split s' with
           | l :: ls => (c :: l) :: ls
           | [] => [[c]]
           end
  end.

(** A string is truthy when it is not empty. *)
Definition truthy (s : str) : bool := match s with [] => false | _ => true end.

(** ** Global regular-expression replacement

    [s.replace(/re/g, r)] for a pattern whose matches are never empty.  The
    pattern is given by [m]: [m bol u = Some k] when the pattern matches a
    prefix of [u] of length [S k], where [bol] tells whether [^] (multiline)
    holds at that position, that is, whether it is the start of the string
    or follows a LineTerminator.  After a match the scan resumes behind it;
    [skip] counts the units of the current match still to be dropped. *)

Fixpoint replaceFrom (m : bool -> str -> option nat) (r : str)
         (skip : nat) (bol : bool) (s : str) : str :=
  match s with
  | [] => []
  | c :: s' =>
      match skip with
      | S k => replaceFrom m r k (isLineTerminator c) s'
      | O =>
          match m bol s with
          | Some k => r ++ replaceFrom m r k (isLineTerminator c) s'
          | None => c :: replaceFrom m r 0 (isLineTerminator c) s'
          end
      end
  end.

Definition replaceAll (m : bool -> str -> option nat) (r s : str) : str :=
  replaceFrom m r 0 true s.

(** [/\*\*/] *)
Definition reBold (_ : bool) (u : str) : option nat :=
  match u with
  | a :: b :: _ => if isStar a && isStar b then Some 1 else None
  | _ => None
  end.

(** [/\*/] *)
Definition reStar (_ : bool) (u : str) : option nat :=
  match u with
  | a :: _ => if isStar a then Some 0 else None
  | [] => None
  end.

(** [/#{1,6}\s/]: the hashes in front of [u] are all taken (a shorter
    choice would have to be followed by a hash, which is not [\s]), so the
    pattern matches when there are one to six of them and white space
    follows. *)
Definition reHeader (_ : bool) (u : str) : option nat :=
  let k := run isHash u in
  match skipn k u with
  | w :: _ => if (1 <=? k) && (k <=? 6) && isWhiteSpace w then Some k else None
  | [] => None
  end.

(** [/^\s*[-•]\s/m]: the markers are not white space, so [\s*] takes the
    whole run of white space. *)
Definition reBullet (bol : bool) (u : str) : option nat :=
  if bol then
    let w := run isWhiteSpace u in
    match skipn w u with
    | c :: d :: _ => if isMarker c && isWhiteSpace d then Some (S w) else None
    | _ => None
    end
  else None.

(** [/\n{3,}/] *)
Definition reBreaks (_ : bool) (u : str) : option nat :=
  match run isLF u with
  | S k => if 2 <=? k then Some k else None
  | O => None
  end.

(** [/^\s+/m] *)
Definition reIndent (bol : bool) (u : str) : option nat :=
  if bol then
    match run isWhiteSpace u with
    | S k => Some k
    | O => None
    end
  else None.

(** [/^\d+\./] tested on a whole string (no multiline flag). *)
Definition ordinalPrefix (u : str) : bool :=
  let k := run isDigit u in
  (1 <=? k) && match skipn k u with c :: _ => N.eqb c DOT | [] => false end.

(** ** The business-plan generator *)

Record BusinessPlanInput := {
  businessName : str;
  industry : str;
  businessType : str;
  location : str;
  targetAudience : str;
  uniqueValue : str;
  revenueModel : str;
  goals : str
}.

Record BusinessPlanSection := {
  title : str;
  content : str
}.

(** A [Date] is used only through [toLocaleDateString], whose result depends
    on the host's locale: the date is modelled by that rendering. *)
Record Date := { toLocaleDateString : str }.

Inductive Status := draft | complete.

Record GeneratedBusinessPlan := {
  planId : str;
  planTitle : str;
  planIndustry : str;
  createdAt : Date;
  sections : list BusinessPlanSection;
  status : Status
}.

Definition nl : str := [LF].

(** [createBusinessPlanPrompt] *)
Definition createBusinessPlanPrompt (input : BusinessPlanInput) : str :=
  lit "Create a comprehensive, professional business plan for the following business:" ++ nl
  ++ nl
  ++ lit "**Business Details:**" ++ nl
  ++ lit "- Business Name: " ++ businessName input ++ nl
  ++ lit "- Industry: " ++ industry input ++ nl
  ++ lit "- Business Type: " ++ businessType input ++ nl
  ++ lit "- Location: " ++ location input ++ nl
  ++ lit "- Target Audience: " ++ targetAudience input ++ nl
  ++ lit "- Unique Value Proposition: " ++ uniqueValue input ++ nl
  ++ lit "- Revenue Model: " ++ revenueModel input ++ nl
  ++ lit "- Goals: " ++ goals input ++ nl
  ++ nl
  ++ lit "Please create a detailed, investor-ready business plan that includes:" ++ nl
  ++ lit "- Market research specific to " ++ industry input ++ lit " in " ++ location input ++ nl
  ++ lit "- Competitive analysis and positioning" ++ nl
  ++ lit "- Realistic financial projections for 3-5 years" ++ nl
  ++ lit "- Marketing strategies tailored to " ++ targetAudience input ++ nl
  ++ lit "- Implementation roadmap aligned with the goal: " ++ goals input ++ nl
  ++ lit "- Risk assessment and mitigation strategies" ++ nl
  ++ lit "- Industry-specific insights and trends" ++ nl
  ++ nl
  ++ lit "The plan should be professional, comprehensive, and ready for presentation to investors, lenders, or stakeholders. Include specific data, metrics, and actionable strategies where possible.".

(** The clean-up at the head of [parseBusinessPlanSections]. *)
Definition cleanContent (content : str) : str :=
  trim
    (replaceAll reBreaks [LF; LF]
       (replaceAll reBullet [BULLET; SP]
          (replaceAll reHeader []
             (replaceAll reStar []
                (replaceAll reBold [] content))))).

(** [formatSectionContent] *)
Definition formatSectionContent (content : str) : str :=
  trim
    (replaceAll reIndent []
       (replaceAll reBreaks [LF; LF]
          (replaceAll reBullet [BULLET; SP]
             (replaceAll reStar []
                (replaceAll reBold [] content))))).

Definition sectionHeaders : list str :=
  [ lit "Executive Summary";
    lit "Company Description";
    lit "Market Analysis";
    lit "Organization & Management";
    lit "Products or Services";
    lit "Marketing & Sales Strategy";
    lit "Financial Projections";
    lit "Risk Analysis";
    lit "Implementation Timeline";
    lit "Appendices" ].

(** The predicate given to [sectionHeaders.find]. *)
Definition headerTest (trimmedLine header : str) : bool :=
  includes (toLowerCase trimmedLine) (toLowerCase header)
  && (ordinalPrefix trimmedLine
      || str_eqb (toLowerCase trimmedLine) (toLowerCase header)).

Definition matchedHeader (line : str) : option str :=
  List.find (headerTest (trim line)) sectionHeaders.

(** The variables of the loop. *)
Record ParseState := {
  emitted : list BusinessPlanSection;
  currentSection : str;
  currentContent : str
}.

Definition initial : ParseState :=
  {| emitted := []; currentSection := []; currentContent := [] |}.

(** Push the open section when it has a title and its content is not blank. *)
Definition flush (st : ParseState) : list BusinessPlanSection :=
  if truthy (currentSection st) && truthy (trim (currentContent st))
  then emitted st ++
       [{| title := currentSection st;
           content := formatSectionContent (trim (currentContent st)) |}]
  else emitted st.

(** One iteration of [for (const line of lines)]. *)
Definition step (st : ParseState) (line : str) : ParseState :=
  match matchedHeader line with
  | Some header =>
      {| emitted := flush st; currentSection := header; currentContent := [] |}
  | None =>
      {| emitted := emitted st;
         currentSection := currentSection st;
         currentContent := currentContent st ++ line ++ nl |}
  end.

Definition scan (lines : list str) : ParseState := fold_left step lines initial.

Definition fallbackTitle : str := lit "Business Plan".

(** [parseBusinessPlanSections] *)
Definition parseBusinessPlanSections (content : str) : list BusinessPlanSection :=
  let cleaned := cleanContent content in
  let parsed := flush (scan (split cleaned)) in
  match parsed with
  | [] => [{| title := fallbackTitle; content := formatSectionContent cleaned |}]
  | _ :: _ => parsed
  end.

Definition repeat_char (c : char) (n : nat) : str := List.repeat c n.

(** [formatBusinessPlanForExport] *)
Definition formatBusinessPlanForExport (businessPlan : GeneratedBusinessPlan) : str :=
  let header :=
    planTitle businessPlan ++ nl
    ++ lit "Industry: " ++ planIndustry businessPlan ++ nl
    ++ lit "Created: " ++ toLocaleDateString (createdAt businessPlan) ++ nl ++ nl
    ++ repeat_char EQUALS 50 ++ nl ++ nl in
  fold_left
    (fun acc section =>
       acc ++ title section ++ nl
           ++ repeat_char DASH (List.length (title section)) ++ nl ++ nl
           ++ content section ++ nl ++ nl)
    (sections businessPlan) header.

(** The normalisation of the specification: the clean-up of the whole input
    followed by the normalisation of a section's content. *)
Definition normalize (s : str) : str := formatSectionContent (cleanContent s).


(** ** The rest of the generator

    The requests are made by [fetch]; what the generator does with their
    outcome is a function of that outcome. *)

From Stdlib Require Import DecimalString.

Definition QUOTE : char := 34%N.
Definition UNDERSCORE : char := 95%N.

(** [n.toString()] for a natural number (a time stamp, a status code). *)
Definition decimal (n : N) : str := lit (NilEmpty.string_of_uint (N.to_uint n)).

(** [a || b] for a string [a] that may be undefined. *)
Definition orElse (a : option str) (b : str) : str :=
  match a with
  | Some s => if truthy s then s else b
  | None => b
  end.

(** [/\s+/] *)
Definition reSpaces (_ : bool) (u : str) : option nat :=
  match run isWhiteSpace u with
  | S k => Some k
  | O => None
  end.

(** [formatBusinessPlanForModification] *)
Definition formatBusinessPlanForModification (businessPlan : GeneratedBusinessPlan) : str :=
  let header :=
    planTitle businessPlan ++ nl
    ++ lit "Industry: " ++ planIndustry businessPlan ++ nl ++ nl in
  fold_left
    (fun acc section =>
       acc ++ title section ++ nl
           ++ content section ++ nl ++ nl)
    (sections businessPlan) header.

(** What the link made by an export is given: the [download] name, and the
    type and text of the blob. *)
Record Download := {
  download : str;
  blobType : str;
  blobText : str
}.

(** [exportToPDF] *)
Definition exportToPDF (businessPlan : GeneratedBusinessPlan) : Download :=
  {| download := replaceAll reSpaces [UNDERSCORE] (planTitle businessPlan) ++ lit ".txt";
     blobType := lit "text/plain";
     blobText := formatBusinessPlanForExport businessPlan |}.

(** [exportToWord] *)
Definition exportToWord (businessPlan : GeneratedBusinessPlan) : Download :=
  {| download := replaceAll reSpaces [UNDERSCORE] (planTitle businessPlan) ++ lit ".doc";
     blobType := lit "application/msword";
     blobText := formatBusinessPlanForExport businessPlan |}.

(** What a [throw] or a rejected promise carries: an [Error] with its
    message, or any other value. *)
Inductive Thrown :=
| ErrorObject (message : str)
| OtherValue.

(** What the generator reads of the body of a response that is not [ok],
    [errorData.error?.message], where [errorData] is the body read as JSON or
    the empty object when it cannot be read so: no message (undefined, or
    another falsy value); a truthy message, given by the string that
    [new Error] makes of it (the message itself when it is a string, which
    is then not empty; the empty string for an empty array); or a read that
    throws a [TypeError], as for the body [null], whose property [error]
    cannot be read, and for a message that cannot be converted to a string,
    given by the message of that error, which is the engine's. *)
Inductive ErrorData :=
| NoMessage
| Message (text : str)
| Unreadable (message : str).

(** A response of the chat-completion endpoint, as the generator reads it:
    [response.ok], [response.status], the message of its body when it is not
    [ok], and the outcome of reading the reply, which is what was thrown (by
    [response.json()], because [data.choices] cannot be indexed, or because
    the content is no string) or [data.choices[0]?.message?.content]. *)
Record Response := {
  ok : bool;
  responseStatus : N;
  errorData : ErrorData;
  reply : Thrown + option str
}.

(** The outcome of [fetch]. *)
Inductive Fetched :=
| Rejected (t : Thrown)
| Responded (response : Response).

(** What the generator reads of its host: the configured key, the clock. *)
Record Host := {
  apiKey : option str;
  now : N;
  today : Date
}.

(** [!this.apiKey || this.apiKey === 'your_openrouter_api_key_here'] *)
Definition keyMissing (host : Host) : bool :=
  match apiKey host with
  | Some key => negb (truthy key) || str_eqb key (lit "your_openrouter_api_key_here")
  | None => true
  end.

Definition notConfigured : str :=
  lit "OpenRouter API key not configured. Please add your API key to the .env file.".

(** The message of the [Error] thrown for a response that is not [ok]: the
    body is looked at for no status with a text of its own. *)
Definition statusMessage (response : Response) : str :=
  if N.eqb (responseStatus response) 401 then
    lit "Invalid API key. Please check your OpenRouter API key configuration."
  else if N.eqb (responseStatus response) 402 then
    lit "Insufficient credits. Please check your OpenRouter billing."
  else if N.eqb (responseStatus response) 429 then
    lit "Rate limit exceeded. Please wait a moment and try again."
  else
    match errorData response with
    | Message text => text
    | NoMessage => lit "API request failed with status " ++ decimal (responseStatus response)
    | Unreadable message => message
    end.

(** The [catch] block: an [Error] is thrown again, anything else is replaced
    by an [Error] with the given message. *)
Definition caught (fallback : str) (t : Thrown) : Thrown :=
  match t with
  | ErrorObject message => ErrorObject message
  | OtherValue => ErrorObject fallback
  end.

(** [generateBusinessPlan] *)
Definition generateBusinessPlan (host : Host) (input : BusinessPlanInput)
           (fetched : Fetched) : Thrown + GeneratedBusinessPlan :=
  if keyMissing host then inl (ErrorObject notConfigured)
  else
    let rethrow := caught (lit "Failed to generate business plan. Please try again.") in
    match fetched with
    | Rejected t => inl (rethrow t)
    | Responded response =>
        if negb (ok response) then inl (rethrow (ErrorObject (statusMessage response)))
        else
          match reply response with
          | inl t => inl (rethrow t)
          | inr replyContent =>
              let generatedContent :=
                orElse replyContent (lit "Failed to generate business plan.") in
              inr {| planId := decimal (now host);
                     planTitle := businessName input ++ lit " Business Plan";
                     planIndustry := industry input;
                     createdAt := today host;
                     sections := parseBusinessPlanSections generatedContent;
                     status := complete |}
          end
    end.

(** The prompt of [modifyBusinessPlan]. *)
Definition modificationPrompt (businessPlan : GeneratedBusinessPlan)
           (modificationRequest : str) : str :=
  lit "You are an expert business plan consultant. Please modify the following business plan based on this specific request: "
  ++ [QUOTE] ++ modificationRequest ++ [QUOTE] ++ nl
  ++ nl
  ++ lit "Current Business Plan:" ++ nl
  ++ formatBusinessPlanForModification businessPlan ++ nl
  ++ nl
  ++ lit "Please provide the complete modified business plan with all sections updated as needed. Maintain the same professional structure and format. Focus specifically on the requested changes while ensuring the entire plan remains coherent and professional." ++ nl
  ++ nl
  ++ lit "IMPORTANT: Format your response as clean, readable text without any markdown formatting, asterisks, or special characters. Use plain text with proper paragraphs and line breaks.".

(** [modifyBusinessPlan] *)
Definition modifyBusinessPlan (host : Host) (businessPlan : GeneratedBusinessPlan)
           (modificationRequest : str) (fetched : Fetched)
  : Thrown + GeneratedBusinessPlan :=
  if keyMissing host then inl (ErrorObject notConfigured)
  else
    let rethrow := caught (lit "Failed to modify business plan. Please try again.") in
    match fetched with
    | Rejected t => inl (rethrow t)
    | Responded response =>
        if negb (ok response) then inl (rethrow (ErrorObject (statusMessage response)))
        else
          match reply response with
          | inl t => inl (rethrow t)
          | inr replyContent =>
              let modifiedContent :=
                orElse replyContent (lit "Failed to modify business plan.") in
              inr {| planId := decimal (now host);
                     planTitle := planTitle businessPlan ++ lit " (Modified)";
                     planIndustry := planIndustry businessPlan;
                     createdAt := today host;
                     sections := parseBusinessPlanSections modifiedContent;
                     status := complete |}
          end
    end.

(** ** The earlier revision of the parser

    It scans the raw text, takes a line for a header by its first units
    (a hash, two asterisks, or digits and a period), and keeps the content
    as it is, trimmed. *)
Module Earlier.

(** The predicate given to [sectionHeaders.find]. *)
Definition headerTest (trimmedLine header : str) : bool :=
  includes (toLowerCase trimmedLine) (toLowerCase header)
  && (startsWith trimmedLine [HASH]
      || startsWith trimmedLine [STAR; STAR]
      || ordinalPrefix trimmedLine).

Definition matchedHeader (line : str) : option str :=
  List.find (headerTest (trim line)) sectionHeaders.

Definition flush (st : ParseState) : list BusinessPlanSection :=
  if truthy (currentSection st) && truthy (trim (currentContent st))
  then emitted st ++
       [{| title := currentSection st; content := trim (currentContent st) |}]
  else emitted st.

Definition step (st : ParseState) (line : str) : ParseState :=
  match matchedHeader line with
  | Some header =>
      {| emitted := flush st; currentSection := header; currentContent := [] |}
  | None =>
      {| emitted := emitted st;
         currentSection := currentSection st;
         currentContent := currentContent st ++ line ++ nl |}
  end.

Definition scan (lines : list str) : ParseState := fold_left step lines initial.

(** [parseBusinessPlanSections] *)
Definition parseBusinessPlanSections (content : str) : list BusinessPlanSection :=
  match flush (scan (split content)) with
  | [] => [{| title := fallbackTitle; content := content |}]
  | parsed => parsed
  end.

End Earlier.

(** ** The business-plan page

    The state of the page is what its [useState] hooks hold; a handler is a
    function from the state it is rendered with to the state it leaves. *)

Module Page.

Record PageState := {
  plans : list GeneratedBusinessPlan;
  showGenerator : bool;
  showPlanView : option GeneratedBusinessPlan;
  showEditMode : bool;
  showModifyMode : bool;
  editedPlan : option GeneratedBusinessPlan;
  modificationRequest : str;
  isGenerating : bool;
  isModifying : bool;
  error : option str;
  formData : BusinessPlanInput
}.

Definition setPlans (v : list GeneratedBusinessPlan) (st : PageState) : PageState :=
  {| plans := v;
     showGenerator := showGenerator st;
     showPlanView := showPlanView st;
     showEditMode := showEditMode st;
     showModifyMode := showModifyMode st;
     editedPlan := editedPlan st;
     modificationRequest := modificationRequest st;
     isGenerating := isGenerating st;
     isModifying := isModifying st;
     error := error st;
     formData := formData st |}.

Definition setShowGenerator (v : bool) (st : PageState) : PageState :=
  {| plans := plans st;
     showGenerator := v;
     showPlanView := showPlanView st;
     showEditMode := showEditMode st;
     showModifyMode := showModifyMode st;
     editedPlan := editedPlan st;
     modificationRequest := modificationRequest st;
     isGenerating := isGenerating st;
     isModifying := isModifying st;
     error := error st;
     formData := formData st |}.

Definition setShowPlanView (v : option GeneratedBusinessPlan) (st : PageState) : PageState :=
  {| plans := plans st;
     showGenerator := showGenerator st;
     showPlanView := v;
     showEditMode := showEditMode st;
     showModifyMode := showModifyMode st;
     editedPlan := editedPlan st;
     modificationRequest := modificationRequest st;
     isGenerating := isGenerating st;
     isModifying := isModifying st;
     error := error st;
     formData := formData st |}.

Definition setShowEditMode (v : bool) (st : PageState) : PageState :=
  {| plans := plans st;
     showGenerator := showGenerator st;
     showPlanView := showPlanView st;
     showEditMode := v;
     showModifyMode := showModifyMode st;
     editedPlan := editedPlan st;
     modificationRequest := modificationRequest st;
     isGenerating := isGenerating st;
     isModifying := isModifying st;
     error := error st;
     formData := formData st |}.

Definition setShowModifyMode (v : bool) (st : PageState) : PageState :=
  {| plans := plans st;
     showGenerator := showGenerator st;
     showPlanView := showPlanView st;
     showEditMode := showEditMode st;
     showModifyMode := v;
     editedPlan := editedPlan st;
     modificationRequest := modificationRequest st;
     isGenerating := isGenerating st;
     isModifying := isModifying st;
     error := error st;
     formData := formData st |}.

Definition setEditedPlan (v : option GeneratedBusinessPlan) (st : PageState) : PageState :=
  {| plans := plans st;
     showGenerator := showGenerator st;
     showPlanView := showPlanView st;
     showEditMode := showEditMode st;
     showModifyMode := showModifyMode st;
     editedPlan := v;
     modificationRequest := modificationRequest st;
     isGenerating := isGenerating st;
     isModifying := isModifying st;
     error := error st;
     formData := formData st |}.

Definition setModificationRequest (v : str) (st : PageState) : PageState :=
  {| plans := plans st;
     showGenerator := showGenerator st;
     showPlanView := showPlanView st;
     showEditMode := showEditMode st;
     showModifyMode := showModifyMode st;
     editedPlan := editedPlan st;
     modificationRequest := v;
     isGenerating := isGenerating st;
     isModifying := isModifying st;
     error := error st;
     formData := formData st |}.

Definition setIsGenerating (v : bool) (st : PageState) : PageState :=
  {| plans := plans st;
     showGenerator := showGenerator st;
     showPlanView := showPlanView st;
     showEditMode := showEditMode st;
     showModifyMode := showModifyMode st;
     editedPlan := editedPlan st;
     modificationRequest := modificationRequest st;
     isGenerating := v;
     isModifying := isModifying st;
     error := error st;
     formData := formData st |}.

Definition setIsModifying (v : bool) (st : PageState) : PageState :=
  {| plans := plans st;
     showGenerator := showGenerator st;
     showPlanView := showPlanView st;
     showEditMode := showEditMode st;
     showModifyMode := showModifyMode st;
     editedPlan := editedPlan st;
     modificationRequest := modificationRequest st;
     isGenerating := isGenerating st;
     isModifying := v;
     error := error st;
     formData := formData st |}.

Definition setError (v : option str) (st : PageState) : PageState :=
  {| plans := plans st;
     showGenerator := showGenerator st;
     showPlanView := showPlanView st;
     showEditMode := showEditMode st;
     showModifyMode := showModifyMode st;
     editedPlan := editedPlan st;
     modificationRequest := modificationRequest st;
     isGenerating := isGenerating st;
     isModifying := isModifying st;
     error := v;
     formData := formData st |}.

Definition setFormData (v : BusinessPlanInput) (st : PageState) : PageState :=
  {| plans := plans st;
     showGenerator := showGenerator st;
     showPlanView := showPlanView st;
     showEditMode := showEditMode st;
     showModifyMode := showModifyMode st;
     editedPlan := editedPlan st;
     modificationRequest := modificationRequest st;
     isGenerating := isGenerating st;
     isModifying := isModifying st;
     error := error st;
     formData := v |}.


Definition emptyForm : BusinessPlanInput :=
  {| businessName := []; industry := []; businessType := []; location := [];
     targetAudience := []; uniqueValue := []; revenueModel := []; goals := [] |}.

(** [requiredFields], each name with the property of the form it reads. *)
Definition requiredFields : list (str * (BusinessPlanInput -> str)) :=
  [ (lit "businessName", businessName);
    (lit "industry", industry);
    (lit "businessType", businessType);
    (lit "location", location);
    (lit "targetAudience", targetAudience);
    (lit "uniqueValue", uniqueValue) ].

(** The class [[A-Z]]. *)
Definition isUpper (c : char) : bool := N.leb 65 c && N.leb c 90.

(** [field.replace(/([A-Z])/g, ' $1').toLowerCase()]: a space in front of
    every capital, then lower case. *)
Definition fieldLabel (field : str) : str :=
  toLowerCase (flat_map (fun c => if isUpper c then [SP; c] else [c]) field).

(** The first required field that is blank, in the order of the loop. *)
Fixpoint firstBlank (fields : list (str * (BusinessPlanInput -> str)))
         (data : BusinessPlanInput) : option str :=
  match fields with
  | [] => None
  | (field, value) :: rest =>
      if truthy (trim (value data)) then firstBlank rest data else Some field
  end.

(** [validateForm]: its result and the state it leaves. *)
Definition validateForm (st : PageState) : bool * PageState :=
  match firstBlank requiredFields (formData st) with
  | Some field =>
      (false,
       setError (Some (lit "Please fill in the " ++ fieldLabel field ++ lit " field")) st)
  | None => (true, st)
  end.

(** [error instanceof Error ? error.message : fallback] *)
Definition messageOf (fallback : str) (t : Thrown) : str :=
  match t with
  | ErrorObject message => message
  | OtherValue => fallback
  end.

(** [handleGeneratePlan], given the host and the outcome of the request. *)
Definition handleGeneratePlan (host : Host) (fetched : Fetched) (st : PageState)
  : PageState :=
  let (valid, st0) := validateForm st in
  if negb valid then st0
  else
    let st1 := setError None (setIsGenerating true st0) in
    let st2 :=
      match generateBusinessPlan host (formData st) fetched with
      | inr generatedPlan =>
          setFormData emptyForm
            (setShowGenerator false (setPlans (generatedPlan :: plans st1) st1))
      | inl thrown =>
          setError (Some (messageOf (lit "Failed to generate business plan") thrown)) st1
      end in
    setIsGenerating false st2.

(** [handleModifyRequest] *)
Definition handleModifyRequest (host : Host) (fetched : Fetched) (st : PageState)
  : PageState :=
  match showPlanView st with
  | None => st
  | Some shown =>
      if negb (truthy (trim (modificationRequest st))) then st
      else
        let st1 := setError None (setIsModifying true st) in
        let st2 :=
          match modifyBusinessPlan host shown (modificationRequest st) fetched with
          | inr modifiedPlan =>
              setModificationRequest []
                (setShowModifyMode false
                   (setShowPlanView (Some modifiedPlan)
                      (setPlans (modifiedPlan :: plans st1) st1)))
          | inl thrown =>
              setError (Some (messageOf (lit "Failed to modify business plan") thrown)) st1
          end in
        setIsModifying false st2
  end.

(** [deletePlan] *)
Definition deletePlan (id : str) (st : PageState) : PageState :=
  setPlans (filter (fun plan => negb (str_eqb (planId plan) id)) (plans st)) st.

(** [handleEditPlan] *)
Definition handleEditPlan (plan : GeneratedBusinessPlan) (st : PageState) : PageState :=
  setShowPlanView None (setShowEditMode true (setEditedPlan (Some plan) st)).

(** [handleSaveEdit] *)
Definition handleSaveEdit (st : PageState) : PageState :=
  match editedPlan st with
  | Some edited =>
      setEditedPlan None
        (setShowPlanView (Some edited)
           (setShowEditMode false
              (setPlans
                 (map (fun plan =>
                         if str_eqb (planId plan) (planId edited) then edited else plan)
                      (plans st))
                 st)))
  | None => st
  end.

(** [handleCancelEdit] *)
Definition handleCancelEdit (st : PageState) : PageState :=
  setEditedPlan None (setShowEditMode false st).

Inductive ExportFormat := pdf | docx.

(** [exportPlan] *)
Definition exportPlan (plan : GeneratedBusinessPlan) (format : ExportFormat) : Download :=
  match format with
  | pdf => exportToPDF plan
  | docx => exportToWord plan
  end.

End Page.
(** ** Vocabulary of the properties *)

(** What the loop appends to [currentContent] for a run of lines. *)
Definition joinLines (lines : list str) : str :=
  flat_map (fun l => l ++ nl) lines.

(** A line is a header line when [find] returns a catalog title for it. *)
Definition isHeaderLine (line : str) : bool :=
  match matchedHeader line with
  | Some _ => true
  | None => false
  end.

Definition plainLines (lines : list str) : Prop :=
  Forall (fun l => isHeaderLine l = false) lines.

(** A header line, the title it is matched to, and the lines up to the next
    header line. *)
Record Block := {
  headerLine : str;
  blockTitle : str;
  body : list str
}.

Definition blockLines (bs : list Block) : list str :=
  flat_map (fun b => headerLine b :: body b) bs.

Definition wellFormed (b : Block) : Prop :=
  matchedHeader (headerLine b) = Some (blockTitle b) /\ plainLines (body b).

(** The section the parser makes of a block. *)
Definition sectionOf (b : Block) : BusinessPlanSection :=
  {| title := blockTitle b;
     content := formatSectionContent (trim (joinLines (body b))) |}.

(** A blank text: nothing is left of it after [trim]. *)
Definition blank (s : str) : bool := negb (truthy (trim s)).

Definition fallbackSection (s : str) : BusinessPlanSection :=
  {| title := lit "Business Plan"; content := normalize s |}.

(** The prompt embeds a field by its name: the label followed by the value
    occurs in it, and so does the value. *)
Definition embeds (prompt : str) (label : string) (value : str) : Prop :=
  includes prompt (lit label ++ value) = true /\ includes prompt value = true.

(** The sections the loop emits for a sequence of blocks: one for each block
    whose body is not blank, in the order of the blocks. *)
Definition sectionsOf (bs : list Block) : list BusinessPlanSection :=
  flat_map (fun b => if blank (joinLines (body b)) then [] else [sectionOf b]) bs.

(** ** Sample inputs *)

Definition musings : str := lit "Some unrelated musings with no headers at all.".

(** An introduction, then a header with nothing behind it. *)
Definition introThenBareHeader : str :=
  lit "Intro" ++ nl ++ lit "Executive Summary".

(** An introduction, then a header and its text. *)
Definition introThenSection : str :=
  lit "Intro" ++ nl ++ lit "Executive Summary" ++ nl ++ lit "We sell widgets.".

(** A repeated heading, out of catalog order. *)
Definition repeatedHeading : str :=
  lit "Market Analysis" ++ nl ++ lit "Growing market." ++ nl
  ++ lit "Executive Summary" ++ nl ++ lit "We sell widgets." ++ nl
  ++ lit "Market Analysis" ++ nl ++ lit "Still growing.".

(** A text without asterisks, and a text with at least one unit that is not
    white space. *)
Definition starFree (s : str) : Prop := Forall (fun c => isStar c = false) s.
Definition hashFree (s : str) : Prop := Forall (fun c => isHash c = false) s.
Definition inked (s : str) : Prop := Exists (fun c => isWhiteSpace c = false) s.
Definition allSpace (s : str) : Prop := Forall (fun c => isWhiteSpace c = true) s.

(** The ten catalog titles, each on a line of its own, with the given lines
    behind each. *)
Definition catalogBlocks (bodies : list (list str)) : list Block :=
  map (fun hb => {| headerLine := fst hb; blockTitle := fst hb; body := snd hb |})
      (combine sectionHeaders bodies).

(** The text made of titles, each on a line of its own and followed by its
    prose. *)
Definition plainText (parts : list (str * str)) : str :=
  flat_map (fun hb => fst hb ++ nl ++ snd hb ++ nl) parts.

(** The block a title and its prose are read as. *)
Definition textBlock (hb : str * str) : Block :=
  {| headerLine := fst hb; blockTitle := fst hb; body := split (snd hb) |}.

(** The text with the ten catalog titles in catalog order, each on a line of
    its own and followed by one of the given texts. *)
Definition tenText (texts : list str) : str :=
  plainText (combine sectionHeaders texts).

(** [first] behind the first title, and a short sentence behind each of the
    others. *)
Definition tenPlan (first : str) : str :=
  tenText (first :: List.repeat (lit "More text.") 9).

(** Ten sections under the catalog titles, in catalog order, none empty. *)
Definition catalogOrdered (secs : list BusinessPlanSection) : Prop :=
  List.length secs = 10
  /\ map title secs = sectionHeaders
  /\ Forall (fun sec => content sec <> []) secs.

(** ** Shapes of normalised text *)

(** What may follow a unit [c] for the bullet pattern to be settled at it:
    a marker followed by white space is the bullet followed by one space. *)
Definition bulletSettled (c : char) (rest : str) : Prop :=
  isMarker c = true ->
  match rest with
  | d :: _ => isWhiteSpace d = true -> c = BULLET /\ d = SP
  | [] => True
  end.

(** [disciplined ls u]: at every unit of [u] that only white space separates
    from the start of its line, the bullet pattern is settled; [ls] tells
    whether the first unit is such a one. *)
Fixpoint disciplined (ls : bool) (u : str) : Prop :=
  match u with
  | [] => True
  | c :: u' =>
      (ls = true -> bulletSettled c u')
      /\ disciplined (isLineTerminator c || (ls && isWhiteSpace c)) u'
  end.

(** [tidy bol t]: every line of [t] starts with a unit that is not white
    space, at which the bullet pattern is settled; [bol] tells whether [t]
    starts a line. *)
Fixpoint tidy (bol : bool) (t : str) : Prop :=
  match t with
  | [] => True
  | c :: t' =>
      (bol = true -> isWhiteSpace c = false /\ bulletSettled c t')
      /\ tidy (isLineTerminator c) t'
  end.

(** The normal form of [formatSectionContent]. *)
Definition settled (t : str) : Prop :=
  starFree t /\ tidy true t /\ trimEnd t = t.

(** Seven hashes, two spaces and a letter. *)
Definition sevenHashes : str := lit "#######  x".

(** Emphasis, a run of line breaks, an indented dashed item and trailing
    white space. *)
Definition markedUp : str :=
  lit "**Plan**" ++ nl ++ nl ++ nl ++ nl ++ lit "  - first" ++ nl ++ lit "   second  ".

(** ** Lines up to white space

    The lines that are not blank, trimmed: all that the titles of the
    parser's output depend on. *)
Definition significant (lines : list str) : list str :=
  filter truthy (map trim lines).

(** Two states of the loop that agree on the titles emitted, on the open
    section and on whether its content is blank. *)
Definition alike (st st' : ParseState) : Prop :=
  map title (emitted st) = map title (emitted st')
  /\ currentSection st = currentSection st'
  /\ blank (currentContent st) = blank (currentContent st').

(** [x] is [y] with white space added at the end of its first line and with
    further lines that agree with those of [y] up to white space. *)
Definition kin (x y : str) : Prop :=
  exists l ls l' ls' w,
    split x = l :: ls /\ split y = l' :: ls'
    /\ allSpace w /\ l = l' ++ w
    /\ significant ls = significant ls'.

(** ** Texts the clean-up leaves alone *)

(** Every dash or bullet of [s] is followed, within [s], by a unit that is
    not white space. *)
Fixpoint mute (s : str) : Prop :=
  match s with
  | [] => True
  | c :: s' =>
      (isMarker c = true ->
       match s' with
       | d :: _ => isWhiteSpace d = false
       | [] => False
       end)
      /\ mute s'
  end.

(** No dash or bullet of [s] that follows white space (or starts [s], when
    [ps] holds) is followed by white space. *)
Fixpoint calm (ps : bool) (s : str) : Prop :=
  match s with
  | [] => True
  | c :: s' =>
      (ps = true -> isMarker c = true ->
       match s' with
       | d :: _ => isWhiteSpace d = false
       | [] => True
       end)
      /\ calm (isWhiteSpace c) s'
  end.

(** A text without asterisks and hashes, and without a dash or bullet that
    is followed by white space or ends the text. *)
Definition quiet (s : str) : Prop := starFree s /\ hashFree s /\ mute s.

(** The parts of the export. *)
Definition exportHeading (plan : GeneratedBusinessPlan) : str :=
  planTitle plan ++ nl
  ++ lit "Industry: " ++ planIndustry plan ++ nl
  ++ lit "Created: " ++ toLocaleDateString (createdAt plan).

Definition exportSection (section : BusinessPlanSection) : str :=
  title section ++ nl
  ++ repeat_char DASH (List.length (title section)) ++ nl ++ nl
  ++ content section ++ nl ++ nl.

(** The block that the export of a section is read as. *)
Definition blockOf (section : BusinessPlanSection) : Block :=
  {| headerLine := title section;
     blockTitle := title section;
     body := repeat_char DASH (List.length (title section))
             :: [] :: split (content section) ++ [[]] |}.

(** The rule under the heading of the export. *)
Definition exportRule : str := nl ++ nl ++ repeat_char EQUALS 50 ++ nl ++ nl.

(** A plan as the edit view can leave it: the user has typed a numbered
    heading into the content of the summary. *)
Definition editedPlan : GeneratedBusinessPlan :=
  {| planId := lit "1";
     planTitle := lit "Acme Business Plan";
     planIndustry := lit "Retail";
     createdAt := {| toLocaleDateString := lit "11/2/2026" |};
     sections :=
       [ {| title := lit "Executive Summary";
            content := lit "Overview" ++ nl ++ lit "2. Market Analysis" ++ nl
                       ++ lit "Growing market." |} ];
     status := complete |}.

(** A plan of two sections in plain prose. *)
Definition plainPlan : GeneratedBusinessPlan :=
  {| planId := lit "2";
     planTitle := lit "Acme Business Plan";
     planIndustry := lit "Retail";
     createdAt := {| toLocaleDateString := lit "11/2/2026" |};
     sections :=
       [ {| title := lit "Executive Summary";
            content := lit "We sell investor-ready widgets." ++ nl ++ nl
                       ++ lit "They are good." |};
         {| title := lit "Market Analysis"; content := lit "Growing market." |} ];
     status := complete |}.

(** The plan the generator makes of a reply that opens with seven hashes. *)
Definition hashedPlan : GeneratedBusinessPlan :=
  {| planId := lit "3";
     planTitle := lit "Acme Business Plan";
     planIndustry := lit "Retail";
     createdAt := {| toLocaleDateString := lit "11/2/2026" |};
     sections :=
       parseBusinessPlanSections
         (lit "#######  Risk Analysis" ++ nl ++ lit "Fire and flood.");
     status := complete |}.

(** What the export needs of a section title: a single line of two units or
    more, without asterisk, hash, dash and bullet. *)
Record lineTitle (h : str) : Prop := {
  lt_star : starFree h;
  lt_hash : hashFree h;
  lt_marker : Forall (fun c => isMarker c = false) h;
  lt_line : Forall (fun c => isLF c = false) h;
  lt_length : 2 <= List.length h
}.

(** Plain prose: a text that the clean-up leaves alone, of which no line is
    a header line, and which is not blank. *)
Definition prose (b : str) : Prop :=
  quiet b /\ plainLines (split b) /\ blank b = false.

(** ** Texts the export can carry

    The bullet pattern [/^\s*[-•]\s/m] is tried where a line starts, which
    for [^] is also behind CR, LS and PS.  A text is read unit by unit in one
    of four modes: [Mid], when a unit that is not white space stands between
    the start of the line and here; [Fresh], when only white space stands
    between the start of the text or the last line feed and here; [Stale],
    when a CR, LS or PS that followed such a unit on its line, and since
    then only white space without a line feed, stand in front; [Crossed],
    as [Stale] but with a line feed in that white space. *)
Inductive Mode := Mid | Fresh | Stale | Crossed.

Definition advance (mode : Mode) (c : char) : Mode :=
  if isLF c then
    match mode with
    | Stale | Crossed => Crossed
    | _ => Fresh
    end
  else if isWhiteSpace c then
    match mode with
    | Mid => if isLineTerminator c then Stale else Mid
    | _ => mode
    end
  else Mid.

(** [gentle mode s]: a dash or bullet of [s] that only white space separates
    from where its line starts is followed by a unit, which is no line feed;
    and by a unit that is not white space when that white space, behind a
    CR, LS or PS in the middle of a line, holds a line feed.  The bullet
    pattern then rewrites such items in place, and takes with them only
    lines that are blank. *)
Fixpoint gentle (mode : Mode) (s : str) : Prop :=
  match s with
  | [] => True
  | c :: s' =>
      (isMarker c = true ->
       match mode with
       | Mid => True
       | Fresh | Stale =>
           match s' with
           | d :: _ => isLF d = false
           | [] => False
           end
       | Crossed =>
           match s' with
           | d :: _ => isWhiteSpace d = false
           | [] => False
           end
       end)
      /\ gentle (advance mode c) s'
  end.

(** Every hash of [s] is followed, within [s], by a unit that is not white
    space: the header pattern [/#{1,6}\s/] matches nowhere. *)
Fixpoint hashQuiet (s : str) : Prop :=
  match s with
  | [] => True
  | c :: s' =>
      (isHash c = true ->
       match s' with
       | d :: _ => isWhiteSpace d = false
       | [] => False
       end)
      /\ hashQuiet s'
  end.

(** A text the clean-up does not harm, read from the given mode. *)
Definition steady (mode : Mode) (s : str) : Prop :=
  starFree s /\ hashQuiet s /\ gentle mode s.

(** Two sequences of lines that the loop reads alike. *)
Definition readAlike (ls ls' : list str) : Prop :=
  forall st st', alike st st' ->
                 alike (fold_left step ls st) (fold_left step ls' st').

(** The lines [ls] with [a] in front of the first. *)
Definition onto (a : str) (ls : list str) : list str :=
  match ls with
  | l :: rest => (a ++ l) :: rest
  | [] => [a]
  end.

(** A text fit to follow a line feed, whatever stood in front of it. *)
Definition lineStart (rest : str) : Prop := gentle Fresh rest /\ gentle Crossed rest.

(** What is in front on the line, read in the given mode: white space only
    when the mode is [Fresh]. *)
Definition fits (mode : Mode) (a : str) : Prop := mode = Fresh -> allSpace a.

(** The texts [x] and [y], met on a line in the given mode, are read alike
    by the loop. *)
Definition reads (mode : Mode) (x y : str) : Prop :=
  forall a, fits mode a -> readAlike (onto a (split x)) (onto a (split y)).

(** A section whose content the clean-up does not harm and no line of which
    is a header line. *)
Definition plainSection (section : BusinessPlanSection) : Prop :=
  steady Fresh (content section) /\ plainLines (split (content section)).

(** Sections under catalog titles, at least one. *)
Definition catalogSections (secs : list BusinessPlanSection) : Prop :=
  secs <> []
  /\ Forall (fun sec => In (title sec) sectionHeaders /\ plainSection sec) secs.

(** The single fallback section. *)
Definition fallbackOnly (secs : list BusinessPlanSection) : Prop :=
  exists sec, secs = [sec] /\ title sec = fallbackTitle /\ plainSection sec.

(** ** Vocabulary of the further properties *)

(** What can be seen of the normal form of content: no asterisk, no white
    space at either end, no empty line, and nothing left to normalise. *)
Definition normalForm (t : str) : Prop :=
  starFree t
  /\ trim t = t
  /\ includes t [LF; LF] = false
  /\ formatSectionContent t = t.

(** A section as the loop of the current revision emits it. *)
Definition properSection (sec : BusinessPlanSection) : Prop :=
  In (title sec) sectionHeaders /\ content sec <> [].

(** A section as the loop of the earlier revision emits it. *)
Definition rawSection (sec : BusinessPlanSection) : Prop :=
  In (title sec) sectionHeaders /\ content sec <> [] /\ trim (content sec) = content sec.

(** The line shapes the earlier revision takes for a header. *)
Definition markedLine (line : str) : bool :=
  startsWith (trim line) [HASH]
  || startsWith (trim line) [STAR; STAR]
  || ordinalPrefix (trim line).

(** What the loop of the earlier revision keeps true of its variables. *)
Definition earlierInvariant (st : ParseState) : Prop :=
  Forall rawSection (emitted st)
  /\ (currentSection st = [] \/ In (currentSection st) sectionHeaders).

(** Two bare titles and their text. *)
Definition bareTitles : str :=
  lit "Executive Summary" ++ nl ++ lit "We sell widgets." ++ nl
  ++ lit "Market Analysis" ++ nl ++ lit "Growing market.".

(** A text without white space. *)
Definition spaceless (s : str) : Prop := Forall (fun c => isWhiteSpace c = false) s.

(** A plan as the generator makes it: the identifier is the time stamp, the
    status is complete, there is at least one section and every content is
    in normal form. *)
Definition freshPlan (host : Host) (plan : GeneratedBusinessPlan) : Prop :=
  planId plan = decimal (now host)
  /\ createdAt plan = today host
  /\ status plan = complete
  /\ sections plan <> []
  /\ Forall (fun sec => normalForm (content sec)) (sections plan).

(** The request went through: the key is configured, the endpoint answered
    with an [ok] response and its reply could be read. *)
Definition answered (host : Host) (fetched : Fetched) : Prop :=
  keyMissing host = false
  /\ exists response replyContent,
       fetched = Responded response
       /\ ok response = true
       /\ reply response = inr replyContent.

(** Successive modifications, each with the host and the outcome of its
    request; the first failure ends the chain. *)
Fixpoint modifyChain (plan : GeneratedBusinessPlan)
         (steps : list (Host * str * Fetched)) : Thrown + GeneratedBusinessPlan :=
  match steps with
  | [] => inr plan
  | (host, request, fetched) :: rest =>
      match modifyBusinessPlan host plan request fetched with
      | inr modified => modifyChain modified rest
      | inl thrown => inl thrown
      end
  end.

(** A host with a key, and an error response without a message. *)
Definition sampleHost : Host :=
  {| apiKey := Some (lit "sk-or-v1-0123"); now := 1793577600000%N;
     today := {| toLocaleDateString := lit "11/2/2026" |} |}.

Definition serverError : Response :=
  {| ok := false; responseStatus := 503%N; errorData := NoMessage; reply := inr None |}.

(** A response that is not [ok] and whose body is the JSON [null]. *)
Definition nullBody : Response :=
  {| ok := false; responseStatus := 500%N;
     errorData := Unreadable (lit "Cannot read properties of null (reading 'error')");
     reply := inr None |}.

Definition emptyProfile : BusinessPlanInput :=
  {| businessName := []; industry := []; businessType := []; location := [];
     targetAudience := []; uniqueValue := []; revenueModel := []; goals := [] |}.

(** An [ok] response with the given reply. *)
Definition okResponse (text : str) : Response :=
  {| ok := true; responseStatus := 200%N; errorData := NoMessage; reply := inr (Some text) |}.

Definition acmeProfile : BusinessPlanInput :=
  {| businessName := lit "Acme"; industry := lit "Retail"; businessType := lit "Startup";
     location := lit "Nairobi"; targetAudience := lit "Investors";
     uniqueValue := lit "Cheap widgets"; revenueModel := []; goals := [] |}.

(** The heading of the text given for a modification. *)
Definition modificationHeading (plan : GeneratedBusinessPlan) : str :=
  planTitle plan ++ nl ++ lit "Industry: " ++ planIndustry plan.

(** A section as the text given for a modification lays it out: its title
    and its content followed by a line break. *)
Definition titledPart (section : BusinessPlanSection) : str * str :=
  (title section, content section ++ nl).

(** A plan with a section whose content is blank. *)
Definition sparsePlan : GeneratedBusinessPlan :=
  {| planId := lit "4";
     planTitle := lit "Acme Business Plan";
     planIndustry := lit "Retail";
     createdAt := {| toLocaleDateString := lit "11/2/2026" |};
     sections :=
       [ {| title := lit "Executive Summary"; content := lit " " |};
         {| title := lit "Market Analysis"; content := lit "Growing market." |} ];
     status := complete |}.

(** A plan with at least one section. *)
Definition hasSections (plan : GeneratedBusinessPlan) : Prop := sections plan <> [].

Definition whenShown (P : GeneratedBusinessPlan -> Prop)
           (shown : option GeneratedBusinessPlan) : Prop :=
  match shown with
  | Some plan => P plan
  | None => True
  end.

(** Every plan the page holds has at least one section. *)
Definition pageInvariant (st : Page.PageState) : Prop :=
  Forall hasSections (Page.plans st)
  /\ whenShown hasSections (Page.showPlanView st)
  /\ whenShown hasSections (Page.editedPlan st).

(** The six required fields are filled in. *)
Definition filledIn (data : BusinessPlanInput) : Prop :=
  blank (businessName data) = false
  /\ blank (industry data) = false
  /\ blank (businessType data) = false
  /\ blank (location data) = false
  /\ blank (targetAudience data) = false
  /\ blank (uniqueValue data) = false.

(** The page as it is first rendered, and with a form filled in but for the
    location. *)
Definition firstPage : Page.PageState :=
  {| Page.plans := []; Page.showGenerator := false; Page.showPlanView := None;
     Page.showEditMode := false; Page.showModifyMode := false;
     Page.editedPlan := None; Page.modificationRequest := [];
     Page.isGenerating := false; Page.isModifying := false; Page.error := None;
     Page.formData := Page.emptyForm |}.

Definition noLocation : BusinessPlanInput :=
  {| businessName := lit "Acme"; industry := lit "Retail"; businessType := lit "Startup";
     location := lit "  "; targetAudience := lit "Investors";
     uniqueValue := lit "Cheap widgets"; revenueModel := []; goals := [] |}.

(** A page showing one stored plan, with a request typed in, and a page
    holding two plans, the second being edited. *)
Definition showingPlan : Page.PageState :=
  Page.setModificationRequest (lit "Add a pricing table")
    (Page.setShowPlanView (Some plainPlan) (Page.setPlans [plainPlan] firstPage)).

Definition retitled (plan : GeneratedBusinessPlan) (t : str) : GeneratedBusinessPlan :=
  {| planId := planId plan; planTitle := t; planIndustry := planIndustry plan;
     createdAt := createdAt plan; sections := sections plan; status := status plan |}.

Definition editingSecond : Page.PageState :=
  Page.setEditedPlan (Some (retitled sparsePlan (lit "Acme, revised")))
    (Page.setPlans [plainPlan; sparsePlan] firstPage).

(** ** Lower case, as far as the catalog is concerned *)

Definition KELVIN : char := 0x212A%N.

(** The fold of one unit: a Basic Latin capital to its small letter, the
    Kelvin sign to the letter k, any other unit to itself. *)
Definition foldUnit (c : char) : char :=
  if N.leb 65 c && N.leb c 90 then (c + 32)%N
  else if N.eqb c KELVIN then 107%N
  else c.

(** A piece of lowered text that holds no Basic Latin unit, but for the
    small i that U+0130 gives in front of its dot. *)
Definition opaque (u : str) : Prop :=
  (u <> [] /\ Forall (fun c => (128 <= c)%N) u) \/ u = [105%N; 775%N].

(** [similar o t]: [o] and [t] hold the same Basic Latin units at the same
    places between pieces without any. *)
Inductive similar : str -> str -> Prop :=
| similar_nil : similar [] []
| similar_unit (x : char) (o t : str) :
    (x < 128)%N -> similar o t -> similar (x :: o) (x :: t)
| similar_piece (u v o t : str) :
    opaque u -> v <> [] -> Forall (fun c => (128 <= c)%N) v ->
    similar o t -> similar (u ++ o) (v ++ t).

(** A pattern of Basic Latin units that does not end with a small i. *)
Definition safePattern (q : str) : Prop :=
  Forall (fun c => (c < 128)%N) q /\ (q <> [] -> last q 0%N <> 105%N).

(** ** Header recognition, in the words of the specification *)

(** A unit of a line is the letter of a title up to case: the same unit, a
    Basic Latin letter in the other case, or the Kelvin sign for a k. *)
Inductive sameLetter : char -> char -> Prop :=
| same_unit (c : char) : sameLetter c c
| capital_for_small (c : char) : (65 <= c <= 90)%N -> sameLetter c (c + 32)%N
| small_for_capital (c : char) : (65 <= c <= 90)%N -> sameLetter (c + 32)%N c
| kelvin_for_small : sameLetter KELVIN 107%N
| kelvin_for_capital : sameLetter KELVIN 75%N.

(** [w] is the title [h] up to case. *)
Definition upToCase (w h : str) : Prop := Forall2 sameLetter w h.

(** The text [t] contains the title [h] up to case. *)
Definition mentions (t h : str) : Prop :=
  exists a w b, t = a ++ w ++ b /\ upToCase w h.

(** The text starts with one or more digits followed by a period. *)
Definition ordinalShaped (t : str) : Prop :=
  exists digits rest,
    digits <> []
    /\ Forall (fun c => (48 <= c <= 57)%N) digits
    /\ t = digits ++ DOT :: rest.

(** [t] is [line] without the white space at its two ends. *)
Definition trimmedOf (line t : str) : Prop :=
  exists lead trail,
    line = lead ++ t ++ trail
    /\ allSpace lead /\ allSpace trail
    /\ match t with
       | [] => True
       | c :: _ => isWhiteSpace c = false /\ isWhiteSpace (last t c) = false
       end.

(** ** The wording of a text *)

(** The units the normalisation may remove or rewrite: white space,
    asterisks, hashes, dashes and bullets. *)
Definition isMarkup (c : char) : bool :=
  isWhiteSpace c || isStar c || isHash c || isMarker c.

(** The other units of a text, in their order. *)
Definition wording (s : str) : str := filter (fun c => negb (isMarkup c)) s.

(** A heading in markdown, a run of line breaks, an indented dashed item and
    trailing white space. *)
Definition markedHeading : str :=
  lit "## Our **plan**" ++ nl ++ nl ++ nl ++ nl ++ lit "  - first" ++ nl
  ++ lit "   second  ".

(** ** File names *)

(** [underscored t n]: [n] is [t] with every run of white space, taken
    whole, replaced by one underscore, and every other unit kept. *)
Inductive underscored : str -> str -> Prop :=
| underscored_nil : underscored [] []
| underscored_unit (c : char) (t n : str) :
    isWhiteSpace c = false -> underscored t n -> underscored (c :: t) (c :: n)
| underscored_run (w t n : str) :
    w <> [] -> allSpace w ->
    match t with
    | c :: _ => isWhiteSpace c = false
    | [] => True
    end ->
    underscored t n -> underscored (w ++ t) (UNDERSCORE :: n).

(** A repeated heading whose first occurrence is followed by asterisks only,
    and one whose first occurrence is followed by spaces only. *)
Definition repeatedOverStars : str :=
  lit "Market Analysis" ++ nl ++ lit "***" ++ nl
  ++ lit "Market Analysis" ++ nl ++ lit "Still growing.".

Definition repeatedOverSpaces : str :=
  lit "Market Analysis" ++ nl ++ lit "   " ++ nl
  ++ lit "Market Analysis" ++ nl ++ lit "Still growing.".

(** ** Patterns that a dash or bullet cannot be part of *)

(** A pattern that is not empty, holds no dash and no bullet, and neither
    starts nor ends with white space. *)
Definition solid (q : str) : Prop :=
  q <> []
  /\ Forall (fun c => isMarker c = false) q
  /\ isWhiteSpace (hd 0%N q) = false
  /\ isWhiteSpace (last q 0%N) = false.

(** The first unit of a text is neither a digit nor a period. *)
Definition neutralHead (x : str) : Prop :=
  match x with
  | c :: _ => isDigit c = false /\ N.eqb c DOT = false
  | [] => True
  end.

(** The units [foldUnit] changes. *)
Definition foldedUnits : list char := KELVIN :: map N.of_nat (seq 65 26).

(** A plan whose summary holds a spaced dash, an item written with the
    bullet of [formatSectionContent], an item written with a dash and a
    numbered rank. *)
Definition bulletedPlan : GeneratedBusinessPlan :=
  {| planId := lit "5";
     planTitle := lit "Acme Business Plan";
     planIndustry := lit "Retail - online";
     createdAt := {| toLocaleDateString := lit "11/2/2026" |};
     sections :=
       [ {| title := lit "Executive Summary";
            content := lit "We sell widgets - cheap ones." ++ nl
                       ++ [BULLET; SP] ++ lit "made to order" ++ nl
                       ++ lit "- shipped in a day" |};
         {| title := lit "Market Analysis"; content := lit "We are #1 in a growing market." |} ];
     status := complete |}.
(** ** Basic facts about the string primitives *)

Lemma str_eqb_eq (a b : str) : str_eqb a b = true <-> a = b.
Proof.
  revert b; induction a as [|x a IH]; intros [|y b]; simpl;
    try (split; intros H; congruence).
  rewrite andb_true_iff, N.eqb_eq, IH. split.
  - intros [-> ->]. reflexivity.
  - intros H. injection H as -> ->. split; reflexivity.
Qed.

Lemma startsWith_app (p r : str) : startsWith (p ++ r) p = true.
Proof.
  induction p as [|x p IH]; simpl.
  - destruct r; reflexivity.
  - rewrite N.eqb_refl. exact IH.
Qed.

Lemma includes_startsWith (s p : str) :
  startsWith s p = true -> includes s p = true.
Proof. intros H. destruct s; cbn [includes]; rewrite H; reflexivity. Qed.

Lemma includes_here (p r : str) : includes (p ++ r) p = true.
Proof. apply includes_startsWith, startsWith_app. Qed.

Lemma includes_skip (a s p : str) :
  includes s p = true -> includes (a ++ s) p = true.
Proof.
  intros H. induction a as [|x a IH]; simpl.
  - exact H.
  - rewrite IH. apply orb_true_r.
Qed.

Lemma includes_here2 (l v r : str) : includes (l ++ v ++ r) (l ++ v) = true.
Proof. rewrite app_assoc. apply includes_here. Qed.


(** ** [toLowerCase] and the catalog

    The catalog titles are Basic Latin, so the test of a line against a
    title sees of [toLowerCase] only what it makes of Basic Latin and of
    the Kelvin sign, the one other unit whose lower case is Basic Latin. *)

Lemma lookupLower_sound (table : list (N * N * N * N)) (p q : N) :
  lookupLower table p = Some q ->
  exists first last step target,
    In (first, last, step, target) table
    /\ (first <= p)%N /\ (p <= last)%N /\ q = (target + (p - first))%N.
Proof.
  induction table as [|[[[a b] st] t] table IH]; simpl; [discriminate|].
  destruct (N.leb a p && N.leb p b && N.eqb ((p - a) mod st) 0) eqn:E.
  - intros H. injection H as <-. exists a, b, st, t.
    apply andb_true_iff in E. destruct E as [E _].
    apply andb_true_iff in E. destruct E as [E1 E2].
    apply N.leb_le in E1, E2. auto.
  - intros H. destruct (IH H) as (a' & b' & st' & t' & Hin & Hr).
    exists a', b', st', t'. split; [right; exact Hin | exact Hr].
Qed.

Lemma lowerTable_targets :
  forallb (fun e => match e with
                    | (first, last, _, target) =>
                        N.ltb last 128 || N.leb 128 target
                        || (N.eqb first KELVIN && N.eqb last KELVIN)
                    end) lowerTable = true.
Proof. vm_compute. reflexivity. Qed.

Lemma lookupLower_big (p q : N) :
  (128 <= p)%N -> p <> KELVIN -> lookupLower lowerTable p = Some q -> (128 <= q)%N.
Proof.
  intros Hp Hk H. apply lookupLower_sound in H.
  destruct H as (a & b & st & t & Hin & Ha & Hb & ->).
  pose proof (proj1 (forallb_forall _ _) lowerTable_targets _ Hin) as C. simpl in C.
  apply orb_true_iff in C. destruct C as [C|C].
  - apply orb_true_iff in C. destruct C as [C|C].
    + apply N.ltb_lt in C. lia.
    + apply N.leb_le in C. lia.
  - apply andb_true_iff in C. destruct C as [C1 C2].
    apply N.eqb_eq in C1, C2. lia.
Qed.

Lemma basicLatin_listed (p : N) :
  (p < 128)%N -> In p (map N.of_nat (seq 0 128)).
Proof.
  intros H. apply in_map_iff. exists (N.to_nat p). split; [apply N2Nat.id|].
  apply in_seq. lia.
Qed.

Lemma lowerAt_basicLatin (before after : list N) (p : N) :
  (p < 128)%N -> lowerAt before p after = [foldUnit p].
Proof.
  intros H.
  assert (C : forallb (fun p => match lowerAt [] p [] with
                                | [q] => N.eqb q (foldUnit p)
                                | _ => false
                                end) (map N.of_nat (seq 0 128)) = true)
    by (vm_compute; reflexivity).
  pose proof (proj1 (forallb_forall _ _) C p (basicLatin_listed p H)) as Cp.
  unfold lowerAt in *.
  assert (E1 : N.eqb p 0x130 = false) by (apply N.eqb_neq; lia).
  assert (E2 : N.eqb p 0x3A3 = false) by (apply N.eqb_neq; lia).
  rewrite E1, E2 in *.
  destruct (lookupLower lowerTable p); apply N.eqb_eq in Cp; f_equal; exact Cp.
Qed.

Lemma foldUnit_basicLatin (c : char) : (c < 128)%N -> (foldUnit c < 128)%N.
Proof.
  intros H. unfold foldUnit.
  destruct (N.leb 65 c && N.leb c 90) eqn:E.
  - apply andb_true_iff in E. destruct E as [_ E]. apply N.leb_le in E. lia.
  - destruct (N.eqb c KELVIN); [reflexivity | exact H].
Qed.

Lemma foldUnit_other (c : char) : (128 <= c)%N -> c <> KELVIN -> foldUnit c = c.
Proof.
  intros H K. unfold foldUnit.
  destruct (N.leb 65 c && N.leb c 90) eqn:E.
  - apply andb_true_iff in E. destruct E as [_ E]. apply N.leb_le in E. lia.
  - apply N.eqb_neq in K. rewrite K. reflexivity.
Qed.

Lemma fromCodePoint_big (q : N) :
  (128 <= q)%N ->
  fromCodePoint q <> [] /\ Forall (fun c => (128 <= c)%N) (fromCodePoint q).
Proof.
  intros H. unfold fromCodePoint. destruct (N.ltb q 0x10000).
  - split; [discriminate | constructor; [exact H | constructor]].
  - split; [discriminate|].
    generalize ((q - 0x10000) / 0x400)%N, ((q - 0x10000) mod 0x400)%N. intros x y.
    constructor; [lia|]. constructor; [lia | constructor].
Qed.

(** The lower case of a code point outside Basic Latin, the Kelvin sign and
    U+0130 apart, holds no Basic Latin unit. *)
Lemma lowerAt_big (before after : list N) (p : N) :
  (128 <= p)%N -> p <> KELVIN -> p <> 0x130%N ->
  exists q, lowerAt before p after = [q] /\ (128 <= q)%N.
Proof.
  intros Hp Hk Hi. unfold lowerAt.
  apply N.eqb_neq in Hi. rewrite Hi.
  destruct (N.eqb p 0x3A3).
  - destruct (finalSigma before after); eexists; (split; [reflexivity | lia]).
  - destruct (lookupLower lowerTable p) as [q|] eqn:E.
    + exists q. split; [reflexivity | apply (lookupLower_big p q Hp Hk E)].
    + exists p. split; [reflexivity | exact Hp].
Qed.

Lemma toCodePoints_cons (c : char) (s : str) :
  (exists d s' p,
      s = d :: s' /\ (0xD800 <= c)%N /\ (0xDC00 <= d)%N /\ (0x10000 <= p)%N
      /\ toCodePoints (c :: s) = p :: toCodePoints s')
  \/ toCodePoints (c :: s) = c :: toCodePoints s.
Proof.
  destruct s as [|d s']; [right; reflexivity|]. cbn [toCodePoints].
  destruct (isLeadSurrogate c && isTrailSurrogate d) eqn:E; [|right; reflexivity].
  left. apply andb_true_iff in E. destruct E as [E1 E2].
  unfold isLeadSurrogate in E1. unfold isTrailSurrogate in E2.
  apply andb_true_iff in E1, E2. destruct E1 as [E1 _], E2 as [E2 _].
  apply N.leb_le in E1, E2.
  exists d, s', (0x10000 + (c - 0xD800) * 0x400 + (d - 0xDC00))%N.
  split; [reflexivity|]. split; [exact E1|]. split; [exact E2|].
  split; [lia | reflexivity].
Qed.

Lemma similar_lowered (n : nat) :
  forall (t : str) (before : list N),
    List.length t <= n ->
    similar (flat_map fromCodePoint (lowerFrom before (toCodePoints t)))
            (map foldUnit t).
Proof.
  induction n as [|n IH]; intros t before Hn.
  - destruct t; [constructor | simpl in Hn; lia].
  - destruct t as [|c s]; [constructor|].
    destruct (toCodePoints_cons c s) as [(d & s' & p & -> & Hc & Hd & Hp & ->)| ->].
    + cbn [lowerFrom]. rewrite flat_map_app.
      destruct (lowerAt_big before (toCodePoints s') p) as (q & -> & Hq);
        try (unfold KELVIN; lia).
      cbn [flat_map map]. rewrite app_nil_r.
      change (foldUnit c :: foldUnit d :: map foldUnit s')
        with ([foldUnit c; foldUnit d] ++ map foldUnit s').
      destruct (fromCodePoint_big q Hq) as [Hne Hall].
      apply similar_piece.
      * left. split; assumption.
      * discriminate.
      * rewrite !foldUnit_other by (unfold KELVIN; lia).
        constructor; [lia|]. constructor; [lia | constructor].
      * apply IH. simpl in Hn. lia.
    + cbn [lowerFrom map]. rewrite flat_map_app.
      assert (Hs : similar (flat_map fromCodePoint (lowerFrom (c :: before) (toCodePoints s)))
                           (map foldUnit s))
        by (apply IH; simpl in Hn; lia).
      destruct (N.ltb c 128) eqn:L.
      * apply N.ltb_lt in L. rewrite (lowerAt_basicLatin _ _ c L).
        cbn [flat_map app]. unfold fromCodePoint at 1.
        pose proof (foldUnit_basicLatin c L) as Lf.
        replace (N.ltb (foldUnit c) 0x10000) with true
          by (symmetry; apply N.ltb_lt; lia).
        apply similar_unit; assumption.
      * apply N.ltb_ge in L.
        destruct (N.eqb c KELVIN) eqn:K.
        { apply N.eqb_eq in K. subst c. apply (similar_unit 107%N); [reflexivity | exact Hs]. }
        apply N.eqb_neq in K.
        change (foldUnit c :: map foldUnit s) with ([foldUnit c] ++ map foldUnit s).
        rewrite (foldUnit_other c L K).
        destruct (N.eqb c 0x130) eqn:I.
        { apply N.eqb_eq in I. subst c.
          apply (similar_piece [105%N; 775%N]); try assumption.
          - right. reflexivity.
          - discriminate.
          - constructor; [lia | constructor]. }
        apply N.eqb_neq in I.
        destruct (lowerAt_big before (toCodePoints s) c L K I) as (q & -> & Hq).
        cbn [flat_map]. rewrite app_nil_r.
        destruct (fromCodePoint_big q Hq) as [Hne Hall].
        apply similar_piece; try assumption.
        -- left. split; assumption.
        -- discriminate.
        -- constructor; [exact L | constructor].
Qed.

Lemma toLowerCase_similar (t : str) : similar (toLowerCase t) (map foldUnit t).
Proof. apply (similar_lowered (List.length t)). apply le_n. Qed.

(** *** Patterns of Basic Latin units *)

Lemma safePattern_tail (y : char) (q : str) : safePattern (y :: q) -> safePattern q.
Proof.
  intros [Ha Hl]. split; [inversion Ha; assumption|].
  intros Hq. destruct q as [|z q]; [contradiction|].
  apply Hl. discriminate.
Qed.

Lemma startsWith_big (u o q : str) (y : char) :
  u <> [] -> Forall (fun c => (128 <= c)%N) u -> (y < 128)%N ->
  startsWith (u ++ o) (y :: q) = false.
Proof.
  intros Hne Hu Hy. destruct Hu as [|c u Hc _]; [contradiction|]. simpl.
  replace (N.eqb y c) with false; [reflexivity|].
  symmetry. apply N.eqb_neq. lia.
Qed.

Lemma startsWith_opaque (u o q : str) :
  opaque u -> safePattern q -> q <> [] -> startsWith (u ++ o) q = false.
Proof.
  intros Hu Hq Hne. destruct q as [|y q]; [contradiction|].
  destruct Hq as [Ha Hl]. inversion Ha as [|? ? Hy Hq]; subst.
  destruct Hu as [[Hn Hu]| ->]; [apply startsWith_big; assumption|].
  simpl. destruct (N.eqb y 105) eqn:E; [|reflexivity]. simpl.
  destruct q as [|z q].
  - apply N.eqb_eq in E. subst y. elim (Hl ltac:(discriminate)). reflexivity.
  - inversion Hq as [|? ? Hz _]; subst.
    replace (N.eqb z 775) with false; [reflexivity|].
    symmetry. apply N.eqb_neq. lia.
Qed.

Lemma startsWith_similar (o t : str) :
  similar o t -> forall q, safePattern q -> startsWith o q = startsWith t q.
Proof.
  intros H. induction H as [|x o t Hx _ IH|u v o t Hu Hv Hall _ IH]; intros q Hq.
  - reflexivity.
  - destruct q as [|y q]; [reflexivity|]. simpl.
    rewrite (IH q (safePattern_tail _ _ Hq)). reflexivity.
  - destruct q as [|y q].
    + destruct (u ++ o), (v ++ t); reflexivity.
    + rewrite (startsWith_opaque u o (y :: q) Hu Hq) by discriminate.
      symmetry. apply startsWith_big; try assumption.
      destruct Hq as [Ha _]. inversion Ha. assumption.
Qed.

Lemma includes_nil (s : str) : includes s [] = true.
Proof. destruct s; reflexivity. Qed.

Lemma includes_past (u o q : str) :
  (forall w w', u = w ++ w' -> w' <> [] -> startsWith (w' ++ o) q = false) ->
  includes (u ++ o) q = includes o q.
Proof.
  induction u as [|c u IH]; intros H; [reflexivity|].
  cbn [app includes].
  pose proof (H [] (c :: u) eq_refl ltac:(discriminate)) as E. cbn [app] in E.
  rewrite E. cbn [orb].
  apply IH. intros w w' Ew Hne. apply (H (c :: w) w'); [rewrite Ew; reflexivity | exact Hne].
Qed.

Lemma opaque_suffix (u w w' : str) :
  opaque u -> u = w ++ w' -> w' <> [] -> opaque w'.
Proof.
  intros [[Hn Hu]| ->] E Hne.
  - left. split; [exact Hne|]. rewrite E in Hu. apply Forall_app in Hu. tauto.
  - destruct w as [|a [|b w]]; simpl in E.
    + subst w'. right. reflexivity.
    + injection E as <- <-. left. split; [discriminate|].
      constructor; [lia | constructor].
    + injection E as _ _ E. destruct w; destruct w'; try discriminate E. contradiction.
Qed.

Lemma includes_similar (o t : str) :
  similar o t -> forall q, safePattern q -> includes o q = includes t q.
Proof.
  intros H q Hq. destruct q as [|y q]; [rewrite !includes_nil; reflexivity|].
  assert (Hy : (y < 128)%N) by (destruct Hq as [Ha _]; inversion Ha; assumption).
  induction H as [|x o t Hx Hs IH|u v o t Hu Hv Hall Hs IH].
  - reflexivity.
  - cbn [includes]. rewrite IH.
    rewrite (startsWith_similar (x :: o) (x :: t)); [reflexivity| |exact Hq].
    apply similar_unit; assumption.
  - rewrite (includes_past u o), (includes_past v t), IH; [reflexivity| |].
    + intros w w' E Hne. apply startsWith_big; try assumption.
      rewrite E in Hall. apply Forall_app in Hall. tauto.
    + intros w w' E Hne. apply startsWith_opaque; [|exact Hq|discriminate].
      apply (opaque_suffix u w w'); assumption.
Qed.

Lemma str_eqb_similar (o t : str) :
  similar o t -> forall q, safePattern q -> str_eqb o q = str_eqb t q.
Proof.
  intros H. induction H as [|x o t Hx _ IH|u v o t Hu Hv Hall _ IH]; intros q Hq.
  - reflexivity.
  - destruct q as [|y q]; [reflexivity|]. simpl.
    rewrite (IH q (safePattern_tail _ _ Hq)). reflexivity.
  - destruct q as [|y q].
    + destruct Hu as [[Hn _]| ->]; [|destruct v; [contradiction | reflexivity]].
      destruct u; [contradiction|]. destruct v; [contradiction | reflexivity].
    + assert (Hy : (y < 128)%N) by (destruct Hq as [Ha _]; inversion Ha; assumption).
      assert (Ev : str_eqb (v ++ t) (y :: q) = false).
      { destruct Hall as [|c v Hc _]; [contradiction|]. simpl.
        replace (N.eqb c y) with false; [reflexivity|].
        symmetry. apply N.eqb_neq. lia. }
      rewrite Ev. destruct Hu as [[Hn Hu]| ->].
      * destruct Hu as [|c u Hc _]; [contradiction|]. simpl.
        replace (N.eqb c y) with false; [reflexivity|].
        symmetry. apply N.eqb_neq. lia.
      * cbn [app str_eqb]. destruct (N.eqb 105 y) eqn:E; [|reflexivity]. cbn [andb].
        destruct q as [|z q]; [reflexivity|].
        destruct Hq as [Ha _]. inversion Ha as [|? ? _ Hq]; subst.
        inversion Hq as [|? ? Hz _]; subst.
        replace (N.eqb 775 z) with false; [reflexivity|].
        symmetry. apply N.eqb_neq. lia.
Qed.

(** The catalog titles in lower case: Basic Latin, none ending with i. *)
Lemma catalog_lowered :
  Forall (fun h => toLowerCase h = map foldUnit h /\ safePattern (map foldUnit h))
         sectionHeaders.
Proof.
  assert (C : forallb (fun h => str_eqb (toLowerCase h) (map foldUnit h)
                                && forallb (fun c => N.ltb c 128) (map foldUnit h)
                                && negb (N.eqb (last (map foldUnit h) 0%N) 105))
                      sectionHeaders = true) by (vm_compute; reflexivity).
  apply Forall_forall. intros h Hin.
  pose proof (proj1 (forallb_forall _ _) C h Hin) as Ch.
  apply andb_true_iff in Ch. destruct Ch as [Ch C3].
  apply andb_true_iff in Ch. destruct Ch as [C1 C2].
  split; [apply str_eqb_eq, C1|]. split.
  - apply Forall_forall. intros c Hc.
    apply N.ltb_lt. apply (proj1 (forallb_forall _ _) C2 c Hc).
  - intros _. apply negb_true_iff, N.eqb_neq in C3. exact C3.
Qed.

(** The test of a line against a catalog title, by the fold of its units. *)
Lemma headerTest_fold (t h : str) :
  In h sectionHeaders ->
  headerTest t h
  = includes (map foldUnit t) (map foldUnit h)
    && (ordinalPrefix t || str_eqb (map foldUnit t) (map foldUnit h)).
Proof.
  intros Hin. unfold headerTest.
  destruct (proj1 (Forall_forall _ _) catalog_lowered h Hin) as [-> Hsafe].
  rewrite (includes_similar _ _ (toLowerCase_similar t) _ Hsafe).
  rewrite (str_eqb_similar _ _ (toLowerCase_similar t) _ Hsafe). reflexivity.
Qed.

(** ** The loop *)

Lemma isHeaderLine_false (l : str) :
  isHeaderLine l = false <-> matchedHeader l = None.
Proof.
  unfold isHeaderLine. destruct (matchedHeader l); split; congruence.
Qed.

Lemma isHeaderLine_true (l : str) :
  isHeaderLine l = true <-> exists h, matchedHeader l = Some h.
Proof.
  unfold isHeaderLine. destruct (matchedHeader l) as [h|]; split.
  - intros _. exists h. reflexivity.
  - reflexivity.
  - discriminate.
  - intros [h H]. discriminate.
Qed.

Lemma step_plain (st : ParseState) (l : str) :
  isHeaderLine l = false ->
  step st l = {| emitted := emitted st;
                 currentSection := currentSection st;
                 currentContent := currentContent st ++ l ++ nl |}.
Proof.
  intros H. apply isHeaderLine_false in H. unfold step. rewrite H. reflexivity.
Qed.

Lemma step_header (st : ParseState) (l h : str) :
  matchedHeader l = Some h ->
  step st l = {| emitted := flush st; currentSection := h; currentContent := [] |}.
Proof. intros H. unfold step. rewrite H. reflexivity. Qed.

Lemma fold_plain (lines : list str) (st : ParseState) :
  plainLines lines ->
  fold_left step lines st
  = {| emitted := emitted st;
       currentSection := currentSection st;
       currentContent := currentContent st ++ joinLines lines |}.
Proof.
  intros H. revert st. induction H as [|l lines Hl _ IH]; intros st; simpl.
  - rewrite app_nil_r. destruct st; reflexivity.
  - rewrite IH, (step_plain st l Hl). simpl. rewrite <- !app_assoc. reflexivity.
Qed.

Lemma matchedHeader_truthy (l h : str) : matchedHeader l = Some h -> truthy h = true.
Proof.
  unfold matchedHeader. intros H. apply find_some in H. destruct H as [H _].
  unfold sectionHeaders in H. simpl in H.
  repeat (destruct H as [<-|H]; [reflexivity|]). contradiction.
Qed.

(** What a block contributes: its section when its body is not blank. *)
Lemma flush_open (done : list BusinessPlanSection) (b : Block) :
  truthy (blockTitle b) = true ->
  flush {| emitted := done; currentSection := blockTitle b;
           currentContent := joinLines (body b) |}
  = done ++ (if blank (joinLines (body b)) then [] else [sectionOf b]).
Proof.
  intros Ht. unfold flush, blank, sectionOf. simpl. rewrite Ht. simpl.
  destruct (truthy (trim (joinLines (body b)))); simpl.
  - reflexivity.
  - rewrite app_nil_r. reflexivity.
Qed.

Lemma flush_blocks (bs : list Block) (st : ParseState) :
  Forall wellFormed bs ->
  flush (fold_left step (blockLines bs) st)
  = flush st
    ++ sectionsOf bs.
Proof.
  intros H. revert st. induction H as [|b bs [Hh Hb] _ IH]; intros st.
  - simpl. rewrite app_nil_r. reflexivity.
  - unfold blockLines, sectionsOf. simpl. fold (blockLines bs) (sectionsOf bs).
    rewrite fold_left_app, (step_header st _ _ Hh), (fold_plain _ _ Hb), IH. simpl.
    rewrite (flush_open _ b (matchedHeader_truthy _ _ Hh)), <- app_assoc.
    reflexivity.
Qed.

(** Lines read while no section is open leave no trace. *)
Lemma fold_closed (lines : list str) (done : list BusinessPlanSection) (junk1 junk2 : str) :
  flush (fold_left step lines
           {| emitted := done; currentSection := []; currentContent := junk1 |})
  = flush (fold_left step lines
             {| emitted := done; currentSection := []; currentContent := junk2 |}).
Proof.
  revert junk1 junk2. induction lines as [|l lines IH]; intros junk1 junk2.
  - reflexivity.
  - simpl. unfold step at 2 4. destruct (matchedHeader l); simpl.
    + reflexivity.
    + apply IH.
Qed.

Lemma flush_preamble (pre rest : list str) :
  plainLines pre ->
  flush (scan (pre ++ rest)) = flush (scan rest).
Proof.
  intros Hpre. unfold scan. rewrite fold_left_app, (fold_plain _ _ Hpre).
  apply fold_closed.
Qed.

Lemma flush_scan_plain (lines : list str) :
  plainLines lines -> flush (scan lines) = [].
Proof.
  intros H. unfold scan. rewrite (fold_plain _ _ H). reflexivity.
Qed.

Lemma flush_scan_blocks (pre : list str) (bs : list Block) :
  plainLines pre -> Forall wellFormed bs ->
  flush (scan (pre ++ blockLines bs))
  = sectionsOf bs.
Proof.
  intros Hpre Hbs. rewrite (flush_preamble _ _ Hpre). unfold scan.
  rewrite (flush_blocks _ _ Hbs). reflexivity.
Qed.

Lemma parse_cases (s : str) :
  (flush (scan (split (cleanContent s))) = []
   /\ parseBusinessPlanSections s = [fallbackSection s])
  \/ (flush (scan (split (cleanContent s))) <> []
      /\ parseBusinessPlanSections s = flush (scan (split (cleanContent s)))).
Proof.
  unfold parseBusinessPlanSections.
  destruct (flush (scan (split (cleanContent s)))) as [|x xs].
  - left. split; reflexivity.
  - right. split; [discriminate | reflexivity].
Qed.

Lemma sectionsOf_all (bs : list Block) :
  Forall (fun b => blank (joinLines (body b)) = false) bs ->
  sectionsOf bs = map sectionOf bs.
Proof.
  intros H. induction H as [|b bs Hb _ IH]; unfold sectionsOf in *; simpl.
  - reflexivity.
  - rewrite Hb, IH. reflexivity.
Qed.

Lemma sectionsOf_some (bs : list Block) :
  Exists (fun b => blank (joinLines (body b)) = false) bs ->
  sectionsOf bs <> [].
Proof.
  intros H. induction H as [b bs Hb|b bs _ IH]; unfold sectionsOf in *; simpl.
  - rewrite Hb. discriminate.
  - destruct (blank (joinLines (body b))); [exact IH | discriminate].
Qed.

Lemma parse_blocks (s : str) (pre : list str) (bs : list Block) :
  split (cleanContent s) = pre ++ blockLines bs ->
  plainLines pre -> Forall wellFormed bs ->
  sectionsOf bs <> [] ->
  parseBusinessPlanSections s = sectionsOf bs.
Proof.
  intros Hs Hpre Hbs Hne. unfold parseBusinessPlanSections.
  rewrite Hs, (flush_scan_blocks _ _ Hpre Hbs).
  destruct (sectionsOf bs); [congruence | reflexivity].
Qed.

Lemma sectionsOf_filter (bs : list Block) :
  sectionsOf bs
  = map sectionOf (filter (fun b => negb (blank (joinLines (body b)))) bs).
Proof.
  unfold sectionsOf. induction bs as [|b bs IH]; simpl.
  - reflexivity.
  - destruct (blank (joinLines (body b))); simpl; rewrite IH; reflexivity.
Qed.

(** Every sequence of lines is made of lines without a header followed by
    blocks. *)
Lemma lines_decompose (lines : list str) :
  exists pre bs,
    lines = pre ++ blockLines bs /\ plainLines pre /\ Forall wellFormed bs.
Proof.
  induction lines as [|l lines (pre & bs & E & Hpre & Hbs)].
  - exists [], []. repeat split; constructor.
  - destruct (matchedHeader l) as [h|] eqn:M.
    + exists [], ({| headerLine := l; blockTitle := h; body := pre |} :: bs).
      split; [|split].
      * unfold blockLines. simpl. fold (blockLines bs). rewrite E. reflexivity.
      * constructor.
      * constructor; [split; assumption | exact Hbs].
    + exists (l :: pre), bs. split; [|split].
      * simpl. rewrite E. reflexivity.
      * constructor; [apply isHeaderLine_false, M | exact Hpre].
      * exact Hbs.
Qed.

(** ** Replacement, trimming and lines: what they keep *)

Lemma run_firstn (p : char -> bool) (s : str) :
  Forall (fun c => p c = true) (firstn (run p s) s).
Proof.
  induction s as [|c s IH]; simpl.
  - constructor.
  - destruct (p c) eqn:E; simpl; constructor; assumption.
Qed.

Lemma run_all (p : char -> bool) (s : str) :
  Forall (fun c => p c = true) s -> run p s = List.length s.
Proof.
  intros H. induction H as [|c s Hc _ IH]; simpl.
  - reflexivity.
  - rewrite Hc, IH. reflexivity.
Qed.

Lemma Forall_skipn' (P : char -> Prop) (n : nat) (s : str) :
  Forall P s -> Forall P (skipn n s).
Proof.
  revert s. induction n as [|n IH]; intros s H; simpl.
  - exact H.
  - destruct H; [constructor | apply IH; assumption].
Qed.

Lemma replaceFrom_Forall (P : char -> Prop) m r (s : str) :
  Forall P r -> Forall P s ->
  forall k b, Forall P (replaceFrom m r k b s).
Proof.
  intros Hr Hs. induction Hs as [|c s Hc _ IH]; intros k b; simpl.
  - constructor.
  - destruct k as [|k]; [|apply IH].
    destruct (m b (c :: s)).
    + apply Forall_app. split; [exact Hr | apply IH].
    + constructor; [exact Hc | apply IH].
Qed.

(** Where the pattern matches nowhere, nothing is replaced. *)
Lemma replaceFrom_id (Q : str -> Prop) m r :
  (forall c u, Q (c :: u) -> Q u) ->
  (forall b u, Q u -> m b u = None) ->
  forall s b, Q s -> replaceFrom m r 0 b s = s.
Proof.
  intros Htl Hm s. induction s as [|c s IH]; intros b Hs; simpl.
  - reflexivity.
  - rewrite (Hm b _ Hs). f_equal. apply IH. exact (Htl _ _ Hs).
Qed.

Lemma Forall_tail (P : char -> Prop) (c : char) (u : str) :
  Forall P (c :: u) -> Forall P u.
Proof. intros H. inversion H. assumption. Qed.

Lemma reBold_starFree (b : bool) (u : str) : starFree u -> reBold b u = None.
Proof.
  intros H. destruct H as [|c u Hc H]; simpl; [reflexivity|].
  destruct u; [reflexivity|]. rewrite Hc. reflexivity.
Qed.

Lemma reStar_starFree (b : bool) (u : str) : starFree u -> reStar b u = None.
Proof.
  intros H. destruct H as [|c u Hc H]; simpl; [reflexivity|].
  rewrite Hc. reflexivity.
Qed.

Lemma reHeader_hashFree (b : bool) (u : str) : hashFree u -> reHeader b u = None.
Proof.
  intros H. unfold reHeader. destruct H as [|c u Hc H]; simpl; [reflexivity|].
  rewrite Hc. simpl. reflexivity.
Qed.

Lemma bold_id (s : str) : starFree s -> replaceAll reBold [] s = s.
Proof.
  apply (replaceFrom_id starFree).
  - intros c u. apply Forall_tail.
  - intros b u. apply reBold_starFree.
Qed.

Lemma star_id (s : str) : starFree s -> replaceAll reStar [] s = s.
Proof.
  apply (replaceFrom_id starFree).
  - intros c u. apply Forall_tail.
  - intros b u. apply reStar_starFree.
Qed.

Lemma header_id (s : str) : hashFree s -> replaceAll reHeader [] s = s.
Proof.
  apply (replaceFrom_id hashFree).
  - intros c u. apply Forall_tail.
  - intros b u. apply reHeader_hashFree.
Qed.

(** [/\*/g] leaves no asterisk. *)
Lemma star_removed (s : str) (b : bool) : starFree (replaceFrom reStar [] 0 b s).
Proof.
  revert b. induction s as [|c s IH]; intros b; simpl.
  - constructor.
  - destruct (isStar c) eqn:E; simpl.
    + apply IH.
    + constructor; [exact E | apply IH].
Qed.

(** A pattern that matches white space only keeps every other unit. *)
Lemma replaceFrom_inked m r :
  (forall b u k, m b u = Some k -> allSpace (firstn (S k) u)) ->
  forall s k b, allSpace (firstn k s) -> inked s -> inked (replaceFrom m r k b s).
Proof.
  intros Hm s. induction s as [|c s IH]; intros k b Hk Hs.
  - inversion Hs.
  - simpl. destruct k as [|k].
    + destruct (m b (c :: s)) as [k|] eqn:E.
      * apply Hm in E. simpl in E. inversion E as [|? ? Hc Hrest]; subst.
        apply Exists_app. right. apply IH; [exact Hrest|].
        inversion Hs as [? ? Hc'|]; subst; [congruence | assumption].
      * inversion Hs as [? ? Hc'|? ? Hs']; subst.
        -- apply Exists_cons_hd. exact Hc'.
        -- apply Exists_cons_tl. apply IH; [constructor | exact Hs'].
    + simpl in Hk. inversion Hk as [|? ? Hc Hrest]; subst.
      apply IH; [exact Hrest|].
      inversion Hs as [? ? Hc'|]; subst; [congruence | assumption].
Qed.

Lemma reBreaks_space (b : bool) (u : str) (k : nat) :
  reBreaks b u = Some k -> allSpace (firstn (S k) u).
Proof.
  unfold reBreaks. destruct (run isLF u) as [|n] eqn:E; [discriminate|].
  destruct (2 <=? n); [|discriminate]. intros H. injection H as <-.
  rewrite <- E. eapply Forall_impl; [|apply run_firstn].
  intros c Hc. apply N.eqb_eq in Hc. subst c. reflexivity.
Qed.

Lemma reIndent_space (b : bool) (u : str) (k : nat) :
  reIndent b u = Some k -> allSpace (firstn (S k) u).
Proof.
  unfold reIndent. destruct b; [|discriminate].
  destruct (run isWhiteSpace u) as [|n] eqn:E; [discriminate|].
  intros H. injection H as <-. rewrite <- E. apply run_firstn.
Qed.

Lemma bullet_inked (s : str) (b : bool) :
  inked s -> inked (replaceFrom reBullet [BULLET; SP] 0 b s).
Proof.
  intros H. revert b. induction H as [c s Hc|c s _ IH]; intros b; simpl;
    destruct (reBullet b (c :: s)).
  - apply Exists_cons_hd. reflexivity.
  - apply Exists_cons_hd. exact Hc.
  - apply Exists_cons_hd. reflexivity.
  - apply Exists_cons_tl. apply IH.
Qed.

Lemma trimStart_inked (s : str) : inked s -> inked (trimStart s).
Proof.
  unfold trimStart. intros H. induction H as [c s Hc|c s _ IH]; simpl.
  - rewrite Hc. simpl. apply Exists_cons_hd. exact Hc.
  - destruct (isWhiteSpace c) eqn:E; simpl.
    + exact IH.
    + apply Exists_cons_hd. exact E.
Qed.

Lemma inked_rev (s : str) : inked s -> inked (rev s).
Proof. apply Exists_rev. Qed.

Lemma trim_inked (s : str) : inked s -> inked (trim s).
Proof.
  intros H. unfold trim, trimEnd.
  apply inked_rev, trimStart_inked, inked_rev, trimStart_inked, H.
Qed.

Lemma trimStart_allSpace (s : str) : allSpace s -> trimStart s = [].
Proof.
  intros H. unfold trimStart. rewrite (run_all _ _ H). apply skipn_all.
Qed.

Lemma inked_or_allSpace (s : str) : inked s \/ allSpace s.
Proof.
  induction s as [|c s [IH|IH]].
  - right. constructor.
  - left. apply Exists_cons_tl. exact IH.
  - destruct (isWhiteSpace c) eqn:E.
    + right. constructor; assumption.
    + left. apply Exists_cons_hd. exact E.
Qed.

Lemma not_blank_inked (s : str) : blank s = false -> inked s.
Proof.
  unfold blank, trim. intros H. destruct (inked_or_allSpace s) as [Hi|Ha].
  - exact Hi.
  - rewrite (trimStart_allSpace _ Ha) in H. discriminate.
Qed.

Lemma inked_truthy (s : str) : inked s -> s <> [].
Proof. intros H. inversion H; discriminate. Qed.

Lemma trim_Forall (P : char -> Prop) (s : str) : Forall P s -> Forall P (trim s).
Proof.
  intros H. unfold trim, trimEnd, trimStart.
  apply Forall_rev, Forall_skipn', Forall_rev, Forall_skipn', H.
Qed.

Lemma split_Forall (P : char -> Prop) (s : str) :
  Forall P s -> Forall (Forall P) (split s).
Proof.
  intros H. induction H as [|c s Hc _ IH]; simpl.
  - repeat constructor.
  - destruct (isLF c).
    + constructor; [constructor | exact IH].
    + destruct (split s) as [|l ls].
      * repeat constructor. exact Hc.
      * inversion IH; subst. constructor; [constructor|]; assumption.
Qed.

Lemma joinLines_Forall (P : char -> Prop) (lines : list str) :
  P LF -> Forall (Forall P) lines -> Forall P (joinLines lines).
Proof.
  intros Hlf H. unfold joinLines. apply Forall_flat_map.
  eapply Forall_impl; [|exact H]. intros l Hl. simpl.
  apply Forall_app. split; [exact Hl | repeat constructor; exact Hlf].
Qed.

Lemma cleanContent_starFree (s : str) : starFree (cleanContent s).
Proof.
  unfold cleanContent, replaceAll. apply trim_Forall.
  apply replaceFrom_Forall; [repeat constructor|].
  apply replaceFrom_Forall; [repeat constructor|].
  apply replaceFrom_Forall; [constructor|].
  apply star_removed.
Qed.

(** The content of a section is not empty when what was accumulated has no
    asterisk and is not blank. *)
Lemma formatSectionContent_inked (x : str) :
  starFree x -> inked x -> inked (formatSectionContent x).
Proof.
  intros Hs Hi. unfold formatSectionContent.
  rewrite (bold_id _ Hs), (star_id _ Hs). unfold replaceAll.
  apply trim_inked.
  apply (replaceFrom_inked _ _ reIndent_space); [constructor|].
  apply (replaceFrom_inked _ _ reBreaks_space); [constructor|].
  apply bullet_inked. exact Hi.
Qed.

Lemma blockLines_bodies (P : str -> Prop) (bs : list Block) :
  Forall P (blockLines bs) -> Forall (fun b => Forall P (body b)) bs.
Proof.
  induction bs as [|b bs IH]; intros H.
  - constructor.
  - unfold blockLines in H. simpl in H. fold (blockLines bs) in H.
    inversion H as [|? ? _ H']; subst. apply Forall_app in H'.
    destruct H' as [Hb Hrest]. constructor; [exact Hb | apply IH, Hrest].
Qed.

Lemma sectionsOf_content (s : str) (pre : list str) (bs : list Block) :
  split (cleanContent s) = pre ++ blockLines bs ->
  Forall (fun sec => content sec <> []) (sectionsOf bs).
Proof.
  intros Hs.
  pose proof (split_Forall _ _ (cleanContent_starFree s)) as Hstar.
  rewrite Hs in Hstar. apply Forall_app in Hstar. destruct Hstar as [_ Hstar].
  apply blockLines_bodies in Hstar.
  unfold sectionsOf. apply Forall_flat_map.
  eapply Forall_impl; [|exact Hstar]. intros b Hb. simpl in Hb.
  destruct (blank (joinLines (body b))) eqn:E; constructor; [|constructor].
  unfold sectionOf. simpl. apply inked_truthy, formatSectionContent_inked.
  - apply trim_Forall, joinLines_Forall; [reflexivity | exact Hb].
  - apply trim_inked, not_blank_inked, E.
Qed.

(** ** The normal form of the content normaliser *)

Lemma lineTerminator_space (c : char) :
  isLineTerminator c = true -> isWhiteSpace c = true.
Proof.
  unfold isLineTerminator. rewrite !orb_true_iff, !N.eqb_eq.
  intros [[[->| ->]| ->]| ->]; reflexivity.
Qed.

Lemma marker_not_space (c : char) : isMarker c = true -> isWhiteSpace c = false.
Proof.
  unfold isMarker. rewrite orb_true_iff, !N.eqb_eq. intros [->| ->]; reflexivity.
Qed.

Lemma not_space_not_terminator (c : char) :
  isWhiteSpace c = false -> isLineTerminator c = false.
Proof.
  intros H. destruct (isLineTerminator c) eqn:E; [|reflexivity].
  apply lineTerminator_space in E. congruence.
Qed.

Lemma LF_space (c : char) : isLF c = true -> isWhiteSpace c = true.
Proof. unfold isLF. rewrite N.eqb_eq. intros ->. reflexivity. Qed.

Lemma LF_terminator (c : char) : isLF c = true -> isLineTerminator c = true.
Proof. unfold isLF. rewrite N.eqb_eq. intros ->. reflexivity. Qed.

(** *** The bullet pattern *)

Lemma reBullet_space_tail (c : char) (u : str) :
  isWhiteSpace c = true -> reBullet true (c :: u) = None -> reBullet true u = None.
Proof.
  unfold reBullet. simpl. intros ->. simpl.
  destruct (skipn (run isWhiteSpace u) u) as [|x [|y r]]; try reflexivity.
  destruct (isMarker x && isWhiteSpace y); [discriminate | reflexivity].
Qed.

Lemma reBullet_none_settled (c : char) (u : str) :
  reBullet true (c :: u) = None -> bulletSettled c u.
Proof.
  intros H Hm. destruct u as [|d u]; [exact I|]. intros Hd.
  unfold reBullet in H. simpl in H.
  rewrite (marker_not_space _ Hm) in H. simpl in H.
  rewrite Hm, Hd in H. discriminate.
Qed.

Lemma bullet_output_head (b : bool) (c : char) (u : str) :
  isLineTerminator c = false ->
  match u with
  | d :: _ => exists r, replaceFrom reBullet [BULLET; SP] 0 (isLineTerminator c) u = d :: r
  | [] => replaceFrom reBullet [BULLET; SP] 0 (isLineTerminator c) u = []
  end.
Proof.
  intros ->. destruct u as [|d u]; simpl; [reflexivity|]. eexists. reflexivity.
Qed.

Lemma bulletSettled_head (c : char) (u v : str) :
  bulletSettled c u ->
  match u with
  | d :: _ => exists r, v = d :: r
  | [] => v = []
  end ->
  bulletSettled c v.
Proof.
  intros H Hv Hm. specialize (H Hm). destruct u as [|d u].
  - subst v. exact I.
  - destruct Hv as [r ->]. exact H.
Qed.

(** After the bullets are rewritten, the bullet pattern is settled wherever
    only white space separates a unit from the start of its line. *)
Lemma bullet_disciplined (s : str) :
  forall (k : nat) (b ls : bool),
    (k = 0 -> ls = true -> b = false -> reBullet true s = None) ->
    (k <> 0 -> ls = false) ->
    disciplined ls (replaceFrom reBullet [BULLET; SP] k b s).
Proof.
  induction s as [|c s IH]; intros k b ls H0 Hk; [exact I|].
  simpl. destruct k as [|k].
  - destruct (reBullet b (c :: s)) as [k|] eqn:E.
    + (* a match: the bullet and a space are written *)
      cbn [app disciplined]. split.
      { intros _ _ _. split; reflexivity. }
      split; [intros Hf; destruct ls; discriminate Hf|].
      replace (isLineTerminator BULLET || ls && isWhiteSpace BULLET) with false
        by (destruct ls; reflexivity).
      cbn [isLineTerminator isWhiteSpace SP N.eqb N.leb orb andb]. simpl.
      apply IH; [discriminate | reflexivity].
    + (* no match: the unit is kept *)
      assert (Hnone : ls = true -> reBullet true (c :: s) = None).
      { intros Hls. destruct b; [exact E | apply H0; auto]. }
      cbn [disciplined]. split.
      * intros Hls Hm.
        assert (Hc : isLineTerminator c = false)
          by (apply not_space_not_terminator, marker_not_space, Hm).
        apply (bulletSettled_head c s); [|apply (bullet_output_head b), Hc|exact Hm].
        apply reBullet_none_settled, Hnone, Hls.
      * apply IH; [|congruence]. intros _ Hls Hb.
        rewrite Hb in Hls. simpl in Hls. apply andb_true_iff in Hls.
        destruct Hls as [Hls Hc]. apply (reBullet_space_tail c); [exact Hc|].
        apply Hnone, Hls.
  - rewrite (Hk (Nat.neq_succ_0 k)). apply IH; [discriminate | reflexivity].
Qed.

(** *** The line breaks *)

Lemma reBreaks_some (b : bool) (c : char) (u : str) (k : nat) :
  reBreaks b (c :: u) = Some k ->
  c = LF /\ Forall (fun x => isLF x = true) (firstn k u).
Proof.
  unfold reBreaks. intros H.
  destruct (run isLF (c :: u)) as [|n] eqn:E; [discriminate|].
  destruct (2 <=? n); [|discriminate]. injection H as <-.
  pose proof (run_firstn isLF (c :: u)) as F. rewrite E in F. simpl in F.
  inversion F as [|? ? Hc Hrest]; subst. split; [|exact Hrest].
  apply N.eqb_eq in Hc. exact Hc.
Qed.

Lemma breaks_output_head (c d : char) (u : str) :
  exists x r,
    replaceFrom reBreaks [LF; LF] 0 (isLineTerminator c) (d :: u) = x :: r
    /\ (x = d \/ (x = LF /\ d = LF)).
Proof.
  simpl. destruct (reBreaks (isLineTerminator c) (d :: u)) as [k|] eqn:E.
  - apply reBreaks_some in E. destruct E as [-> _].
    eexists. eexists. split; [reflexivity|]. right. split; reflexivity.
  - eexists. eexists. split; [reflexivity|]. left. reflexivity.
Qed.

Lemma breaks_disciplined (s : str) :
  forall (k : nat) (b ls : bool),
    disciplined ls s ->
    (k <> 0 -> ls = true /\ Forall (fun x => isLF x = true) (firstn k s)) ->
    disciplined ls (replaceFrom reBreaks [LF; LF] k b s).
Proof.
  induction s as [|c s IH]; intros k b ls Hd Hk; [exact I|].
  destruct Hd as [Hc Hd]. simpl. destruct k as [|k].
  - destruct (reBreaks b (c :: s)) as [k|] eqn:E.
    + apply reBreaks_some in E. destruct E as [-> Hrun].
      cbn [app disciplined]. split; [intros _ Hm; discriminate Hm|].
      split; [intros _ Hm; discriminate Hm|].
      apply IH.
      * exact Hd.
      * intros _. split; [reflexivity | exact Hrun].
    + cbn [disciplined]. split.
      * intros Hls Hm. specialize (Hc Hls Hm).
        destruct s as [|d s]; [exact I|].
        destruct (breaks_output_head c d s) as (x & r & -> & [->|[-> ->]]).
        -- exact Hc.
        -- exact Hc.
      * apply IH; [exact Hd | congruence].
  - destruct (Hk (Nat.neq_succ_0 k)) as [-> Hrun]. simpl in Hrun.
    inversion Hrun as [|? ? Hlf Hrest]; subst.
    rewrite (LF_terminator _ Hlf) in Hd. simpl in Hd.
    apply IH; [exact Hd|]. intros _. split; [reflexivity | exact Hrest].
Qed.

(** *** The indentation *)

Lemma indent_output_head (c : char) (u : str) :
  isLineTerminator c = false ->
  match u with
  | d :: _ => exists r, replaceFrom reIndent [] 0 (isLineTerminator c) u = d :: r
  | [] => replaceFrom reIndent [] 0 (isLineTerminator c) u = []
  end.
Proof.
  intros ->. destruct u as [|d u]; simpl; [reflexivity|]. eexists. reflexivity.
Qed.

Lemma run_succ (p : char -> bool) (c : char) (u : str) (k : nat) :
  run p (c :: u) = S k -> p c = true /\ run p u = k.
Proof.
  simpl. destruct (p c); [|discriminate]. intros H. injection H as <-. auto.
Qed.

Lemma run_zero_head (p : char -> bool) (c : char) (u : str) :
  run p (c :: u) = 0 -> p c = false.
Proof. simpl. destruct (p c); [discriminate | reflexivity]. Qed.

(** After the indentation is removed, every line starts with a unit that is
    not white space, and the bullet pattern is settled there.  [bo] tells
    whether the output so far is empty or ends a line. *)
Lemma indent_tidy (s : str) :
  forall (k : nat) (b ls bo : bool),
    disciplined ls s ->
    (bo = true -> ls = true) ->
    (k = 0 -> (b = true -> bo = true)
              /\ (b = false -> bo = true -> run isWhiteSpace s = 0)) ->
    (k <> 0 -> bo = true /\ run isWhiteSpace s = k) ->
    tidy bo (replaceFrom reIndent [] k b s).
Proof.
  induction s as [|c s IH]; intros k b ls bo Hd Hls H0 Hk; [exact I|].
  destruct Hd as [Hc Hd]. simpl. destruct k as [|k].
  - destruct (H0 eq_refl) as [Hb Hnb]. clear H0 Hk.
    destruct (reIndent b (c :: s)) as [k|] eqn:E.
    + (* the indentation of a line is dropped *)
      unfold reIndent in E. destruct b; [|discriminate].
      destruct (run isWhiteSpace (c :: s)) as [|n] eqn:R; [discriminate|].
      injection E as <-. apply run_succ in R. destruct R as [Hws R].
      rewrite (Hls (Hb eq_refl)), Hws, orb_true_r in Hd.
      simpl. apply (IH n (isLineTerminator c) true bo Hd).
      * intros _. reflexivity.
      * intros ->. split; [intros _; apply Hb; reflexivity|].
        intros _ _. exact R.
      * intros _. split; [apply Hb; reflexivity | exact R].
    + (* the unit is kept *)
      assert (Hws : bo = true -> isWhiteSpace c = false).
      { intros Hbo. destruct b.
        - unfold reIndent in E.
          destruct (run isWhiteSpace (c :: s)) eqn:R; [|discriminate].
          apply (run_zero_head _ _ _ R).
        - apply (run_zero_head isWhiteSpace c s). apply Hnb; auto. }
      cbn [tidy]. split.
      * intros Hbo. split; [apply Hws, Hbo|]. intros Hm.
        assert (Ht : isLineTerminator c = false)
          by (apply not_space_not_terminator, Hws, Hbo).
        apply (bulletSettled_head c s); [|apply indent_output_head, Ht|exact Hm].
        apply Hc, Hls, Hbo.
      * apply (IH 0 (isLineTerminator c) _ (isLineTerminator c) Hd).
        -- intros ->. reflexivity.
        -- intros _. split; [auto|]. intros ->. discriminate.
        -- congruence.
  - destruct (Hk (Nat.neq_succ_0 k)) as [-> R]. clear H0 Hk.
    apply run_succ in R. destruct R as [Hws R].
    rewrite (Hls eq_refl), Hws, orb_true_r in Hd.
    apply (IH k (isLineTerminator c) true true Hd).
    + intros _. reflexivity.
    + intros ->. split; [reflexivity|]. intros _ _. exact R.
    + intros _. split; [reflexivity | exact R].
Qed.

(** *** Trimming *)

Lemma trimStart_cons (c : char) (s : str) :
  trimStart (c :: s) = if isWhiteSpace c then trimStart s else c :: s.
Proof. unfold trimStart. simpl. destruct (isWhiteSpace c); reflexivity. Qed.

Lemma trimStart_snoc (s : str) (c : char) :
  trimStart (s ++ [c])
  = match trimStart s with
    | [] => if isWhiteSpace c then [] else [c]
    | r => r ++ [c]
    end.
Proof.
  induction s as [|x s IH].
  - simpl. rewrite trimStart_cons. reflexivity.
  - simpl. rewrite !trimStart_cons. destruct (isWhiteSpace x).
    + exact IH.
    + reflexivity.
Qed.

Lemma trimEnd_cons (c : char) (s : str) :
  trimEnd (c :: s)
  = match trimEnd s with
    | [] => if isWhiteSpace c then [] else [c]
    | r => c :: r
    end.
Proof.
  unfold trimEnd. simpl. rewrite trimStart_snoc.
  destruct (trimStart (rev s)) as [|x r] eqn:E.
  - simpl. destruct (isWhiteSpace c); reflexivity.
  - rewrite rev_app_distr. simpl.
    destruct (rev r ++ [x]) eqn:E'; [|reflexivity].
    destruct (rev r); discriminate.
Qed.

Lemma trimEnd_head (s : str) (x : char) (r : str) :
  trimEnd s = x :: r -> exists r', s = x :: r'.
Proof.
  destruct s as [|c s]; [discriminate|]. rewrite trimEnd_cons.
  destruct (trimEnd s).
  - destruct (isWhiteSpace c); [discriminate|]. intros H. injection H as -> _.
    eexists. reflexivity.
  - intros H. injection H as -> _. eexists. reflexivity.
Qed.

Lemma trimEnd_idempotent (s : str) : trimEnd (trimEnd s) = trimEnd s.
Proof.
  induction s as [|c s IH]; [reflexivity|].
  rewrite trimEnd_cons. destruct (trimEnd s) as [|x r] eqn:E.
  - destruct (isWhiteSpace c) eqn:W; [reflexivity|].
    rewrite trimEnd_cons. simpl. change (trimEnd []) with (@nil char).
    rewrite W. reflexivity.
  - rewrite trimEnd_cons, IH. reflexivity.
Qed.

Lemma trimEnd_tidy (s : str) (b : bool) : tidy b s -> tidy b (trimEnd s).
Proof.
  revert b. induction s as [|c s IH]; intros b H; [exact I|].
  destruct H as [Hc H]. rewrite trimEnd_cons.
  destruct (trimEnd s) as [|x r] eqn:E.
  - destruct (isWhiteSpace c) eqn:W; [exact I|]. cbn [tidy]. split; [|exact I].
    intros Hb. split; [exact W|]. intros _. exact I.
  - cbn [tidy]. split.
    + intros Hb. destruct (Hc Hb) as [W S]. split; [exact W|].
      intros Hm. specialize (S Hm). destruct (trimEnd_head _ _ _ E) as [r' ->].
      exact S.
    + apply IH. exact H.
Qed.

Lemma trimStart_tidy (s : str) : tidy true s -> trimStart s = s.
Proof.
  destruct s as [|c s]; [reflexivity|]. intros [H _].
  destruct (H eq_refl) as [W _]. rewrite trimStart_cons, W. reflexivity.
Qed.

(** *** The content normaliser reaches the normal form *)

Theorem formatSectionContent_settled (s : str) : settled (formatSectionContent s).
Proof.
  unfold formatSectionContent, replaceAll.
  set (u1 := replaceFrom reStar [] 0 true (replaceFrom reBold [] 0 true s)).
  set (u2 := replaceFrom reBullet [BULLET; SP] 0 true u1).
  set (u3 := replaceFrom reBreaks [LF; LF] 0 true u2).
  set (u4 := replaceFrom reIndent [] 0 true u3).
  assert (H1 : starFree u1) by apply star_removed.
  assert (H2 : disciplined true u2).
  { apply bullet_disciplined; [discriminate | intros H; elim H; reflexivity]. }
  assert (H3 : disciplined true u3).
  { apply breaks_disciplined; [exact H2 | intros H; elim H; reflexivity]. }
  assert (H4 : tidy true u4).
  { apply (indent_tidy u3 0 true true true H3);
      [reflexivity | intros _; split; [reflexivity | discriminate]
      | intros H; elim H; reflexivity]. }
  assert (S4 : starFree u4).
  { unfold u4, u3, u2.
    do 3 (apply replaceFrom_Forall; [repeat constructor|]). exact H1. }
  unfold trim. rewrite (trimStart_tidy _ H4). split; [|split].
  - unfold trimEnd. apply Forall_rev, Forall_skipn', Forall_rev, S4.
  - apply trimEnd_tidy, H4.
  - apply trimEnd_idempotent.
Qed.

(** *** On the normal form every step is the identity *)

Lemma bullet_fix (t : str) (b : bool) :
  tidy b t -> replaceFrom reBullet [BULLET; SP] 0 b t = t.
Proof.
  revert b. induction t as [|c t IH]; intros b H; [reflexivity|].
  destruct H as [Hc H]. specialize (IH _ H). simpl.
  destruct (reBullet b (c :: t)) as [k|] eqn:E; [|rewrite IH; reflexivity].
  unfold reBullet in E. destruct b; [|discriminate].
  destruct (Hc eq_refl) as [W S]. simpl in E. rewrite W in E. simpl in E.
  destruct t as [|d t]; [discriminate|].
  destruct (isMarker c) eqn:M; [|discriminate].
  destruct (isWhiteSpace d) eqn:D; [|discriminate].
  injection E as <-. destruct (S M D) as [-> ->].
  simpl in IH. injection IH as IH. simpl. rewrite IH. reflexivity.
Qed.

Lemma breaks_fix (t : str) (b : bool) :
  tidy b t -> replaceFrom reBreaks [LF; LF] 0 b t = t.
Proof.
  revert b. induction t as [|c t IH]; intros b H; [reflexivity|].
  destruct H as [Hc H]. simpl.
  assert (E : reBreaks b (c :: t) = None).
  { unfold reBreaks. simpl. destruct (isLF c) eqn:L; [|reflexivity].
    rewrite (LF_terminator _ L) in H. destruct t as [|d t]; [reflexivity|].
    destruct H as [Hd _]. destruct (Hd eq_refl) as [W _]. simpl.
    destruct (isLF d) eqn:L'; [|reflexivity].
    apply LF_space in L'. congruence. }
  rewrite E, (IH _ H). reflexivity.
Qed.

Lemma indent_fix (t : str) (b : bool) :
  tidy b t -> replaceFrom reIndent [] 0 b t = t.
Proof.
  revert b. induction t as [|c t IH]; intros b H; [reflexivity|].
  destruct H as [Hc H]. simpl.
  assert (E : reIndent b (c :: t) = None).
  { unfold reIndent. destruct b; [|reflexivity].
    destruct (Hc eq_refl) as [W _]. simpl. rewrite W. reflexivity. }
  rewrite E, (IH _ H). reflexivity.
Qed.

Lemma trim_fix (t : str) : tidy true t -> trimEnd t = t -> trim t = t.
Proof. intros H E. unfold trim. rewrite (trimStart_tidy _ H). exact E. Qed.

Lemma formatSectionContent_fix (t : str) : settled t -> formatSectionContent t = t.
Proof.
  intros (Hs & Ht & He). unfold formatSectionContent.
  rewrite (bold_id _ Hs), (star_id _ Hs). unfold replaceAll.
  rewrite (bullet_fix _ _ Ht), (breaks_fix _ _ Ht), (indent_fix _ _ Ht).
  apply trim_fix; assumption.
Qed.

Lemma cleanContent_fix (t : str) :
  settled t -> replaceAll reHeader [] t = t -> cleanContent t = t.
Proof.
  intros (Hs & Ht & He) Hh. unfold cleanContent.
  rewrite (bold_id _ Hs), (star_id _ Hs), Hh. unfold replaceAll.
  rewrite (bullet_fix _ _ Ht), (breaks_fix _ _ Ht).
  apply trim_fix; assumption.
Qed.

Lemma cleanContent_hashFree (s : str) : hashFree s -> hashFree (cleanContent s).
Proof.
  intros H. unfold cleanContent, replaceAll. apply trim_Forall.
  repeat (apply replaceFrom_Forall; [repeat constructor|]). exact H.
Qed.

Lemma formatSectionContent_hashFree (s : str) :
  hashFree s -> hashFree (formatSectionContent s).
Proof.
  intros H. unfold formatSectionContent, replaceAll. apply trim_Forall.
  repeat (apply replaceFrom_Forall; [repeat constructor|]). exact H.
Qed.

(** ** White space and lines *)

Lemma allSpace_app (a b : str) : allSpace (a ++ b) <-> allSpace a /\ allSpace b.
Proof. apply Forall_app. Qed.

Lemma trimStart_space_app (w s : str) :
  allSpace w -> trimStart (w ++ s) = trimStart s.
Proof.
  intros H. induction H as [|c w Hc _ IH]; simpl.
  - reflexivity.
  - rewrite trimStart_cons, Hc. exact IH.
Qed.

Lemma trimStart_inked_app (s w : str) :
  inked s -> trimStart (s ++ w) = trimStart s ++ w.
Proof.
  intros H. induction H as [c s Hc|c s _ IH]; simpl.
  - rewrite !trimStart_cons, Hc. reflexivity.
  - rewrite !trimStart_cons. destruct (isWhiteSpace c); [exact IH | reflexivity].
Qed.

Lemma trimEnd_app_space (s w : str) : allSpace w -> trimEnd (s ++ w) = trimEnd s.
Proof.
  intros H. unfold trimEnd. rewrite rev_app_distr, trimStart_space_app.
  - reflexivity.
  - apply Forall_rev. exact H.
Qed.

Lemma trim_app_space (s w : str) : allSpace w -> trim (s ++ w) = trim s.
Proof.
  intros H. unfold trim. destruct (inked_or_allSpace s) as [Hi|Ha].
  - rewrite (trimStart_inked_app _ w Hi). apply trimEnd_app_space, H.
  - rewrite (trimStart_allSpace s Ha), trimStart_allSpace; [reflexivity|].
    apply allSpace_app. split; assumption.
Qed.

Lemma trim_allSpace (s : str) : allSpace s -> trim s = [].
Proof. intros H. unfold trim. rewrite (trimStart_allSpace _ H). reflexivity. Qed.

Lemma trim_nil_allSpace (s : str) : trim s = [] -> allSpace s.
Proof.
  intros H. destruct (inked_or_allSpace s) as [Hi|Ha]; [|exact Ha].
  apply trim_inked, inked_truthy in Hi. contradiction.
Qed.

Lemma blank_allSpace (s : str) : blank s = true <-> allSpace s.
Proof.
  unfold blank. split.
  - intros H. apply trim_nil_allSpace. destruct (trim s); [reflexivity | discriminate].
  - intros H. rewrite (trim_allSpace _ H). reflexivity.
Qed.

Lemma blank_app (a b : str) : blank (a ++ b) = blank a && blank b.
Proof.
  apply eq_true_iff_eq. rewrite andb_true_iff, !blank_allSpace. apply allSpace_app.
Qed.

Lemma trimStart_head (s : str) (x : char) (r : str) :
  trimStart s = x :: r -> isWhiteSpace x = false.
Proof.
  induction s as [|c s IH]; [discriminate|]. rewrite trimStart_cons.
  destruct (isWhiteSpace c) eqn:W; [exact IH|]. intros H. injection H as <- _.
  exact W.
Qed.

Lemma trim_idempotent (s : str) : trim (trim s) = trim s.
Proof.
  unfold trim at 1. destruct (trim s) as [|x r] eqn:E; [reflexivity|].
  assert (W : isWhiteSpace x = false).
  { unfold trim in E. destruct (trimEnd_head _ _ _ E) as [r' E'].
    apply (trimStart_head _ _ _ E'). }
  rewrite trimStart_cons, W, <- E. unfold trim. apply trimEnd_idempotent.
Qed.

Lemma trimEnd_split (s : str) : exists w, allSpace w /\ s = trimEnd s ++ w.
Proof.
  induction s as [|c s (w & Hw & E)].
  - exists []. split; [constructor | reflexivity].
  - rewrite trimEnd_cons. destruct (trimEnd s) as [|x r].
    + simpl in E. subst w. destruct (isWhiteSpace c) eqn:W.
      * exists (c :: s). split; [constructor; assumption | reflexivity].
      * exists s. split; [assumption | reflexivity].
    + exists w. split; [assumption|]. simpl. f_equal. exact E.
Qed.

(** *** [split] *)

Lemma split_cons_form (s : str) : exists l ls, split s = l :: ls.
Proof.
  destruct s as [|c s]; simpl.
  - eexists; eexists; reflexivity.
  - destruct (isLF c); [eexists; eexists; reflexivity|].
    destruct (split s); eexists; eexists; reflexivity.
Qed.

Lemma split_app_LF (a b : str) : split (a ++ LF :: b) = split a ++ split b.
Proof.
  induction a as [|c a IH]; simpl.
  - reflexivity.
  - destruct (isLF c); [rewrite IH; reflexivity|].
    rewrite IH. destruct (split a) as [|l ls] eqn:E; [|reflexivity].
    destruct (split_cons_form a) as (l & ls & E'). congruence.
Qed.

Lemma split_one_line (s : str) :
  Forall (fun c => isLF c = false) s -> split s = [s].
Proof.
  intros H. induction H as [|c s Hc _ IH]; simpl.
  - reflexivity.
  - rewrite Hc, IH. reflexivity.
Qed.

Lemma split_allSpace (s : str) : allSpace s -> Forall allSpace (split s).
Proof. apply split_Forall. Qed.

Lemma significant_blank (lines : list str) :
  Forall allSpace lines -> significant lines = [].
Proof.
  intros H. unfold significant. induction H as [|l lines Hl _ IH]; simpl.
  - reflexivity.
  - rewrite (trim_allSpace _ Hl). exact IH.
Qed.

Lemma significant_cons (l : str) (lines : list str) :
  significant (l :: lines)
  = (if truthy (trim l) then [trim l] else []) ++ significant lines.
Proof. unfold significant. simpl. destruct (truthy (trim l)); reflexivity. Qed.

(** *** Texts that differ by blank lines and trailing white space *)

Lemma kin_refl (x : str) : kin x x.
Proof.
  destruct (split_cons_form x) as (l & ls & E).
  exists l, ls, l, ls, []. rewrite app_nil_r. repeat split; try assumption.
  constructor.
Qed.

Lemma kin_significant (x y : str) :
  kin x y -> significant (split x) = significant (split y).
Proof.
  intros (l & ls & l' & ls' & w & -> & -> & Hw & -> & E).
  rewrite !significant_cons, (trim_app_space _ _ Hw), E. reflexivity.
Qed.

Lemma kin_cons (c : char) (x y : str) : kin x y -> kin (c :: x) (c :: y).
Proof.
  intros H. pose proof (kin_significant _ _ H) as Hs.
  destruct H as (l & ls & l' & ls' & w & Ex & Ey & Hw & -> & E).
  rewrite Ex, Ey in Hs. unfold kin. cbn [split]. rewrite Ex, Ey.
  destruct (isLF c).
  - exists [], ((l' ++ w) :: ls), [], (l' :: ls'), [].
    repeat split; try reflexivity; [constructor | exact Hs].
  - exists (c :: l' ++ w), ls, (c :: l'), ls', w. repeat split; assumption.
Qed.

Lemma kin_app (a x y : str) : kin x y -> kin (a ++ x) (a ++ y).
Proof.
  intros H. induction a as [|c a IH]; [exact H|]. simpl. apply kin_cons, IH.
Qed.

(** White space at the end of a text. *)
Lemma kin_space (w : str) : allSpace w -> kin w [].
Proof.
  intros H. destruct (split_cons_form w) as (l & ls & E).
  pose proof (split_allSpace _ H) as Hl. rewrite E in Hl.
  inversion Hl as [|? ? H1 H2]; subst.
  exists l, ls, [], [], l. repeat split; try assumption.
  apply significant_blank, H2.
Qed.

Lemma significant_trimEnd (s : str) :
  significant (split (trimEnd s)) = significant (split s).
Proof.
  destruct (trimEnd_split s) as (w & Hw & E). rewrite E at 2.
  symmetry. rewrite <- (app_nil_r (trimEnd s)) at 2.
  apply kin_significant, kin_app, kin_space, Hw.
Qed.

Lemma significant_space_cons (c : char) (s : str) :
  isWhiteSpace c = true ->
  significant (split (c :: s)) = significant (split s).
Proof.
  intros W. simpl. destruct (split_cons_form s) as (l & ls & E). rewrite E.
  destruct (isLF c).
  - rewrite significant_cons. reflexivity.
  - rewrite !significant_cons. unfold trim. rewrite trimStart_cons, W. reflexivity.
Qed.

Lemma significant_trimStart (s : str) :
  significant (split (trimStart s)) = significant (split s).
Proof.
  induction s as [|c s IH]; [reflexivity|]. rewrite trimStart_cons.
  destruct (isWhiteSpace c) eqn:W; [|reflexivity].
  rewrite IH. symmetry. apply significant_space_cons, W.
Qed.

Lemma significant_trim (s : str) :
  significant (split (trim s)) = significant (split s).
Proof. unfold trim. rewrite significant_trimEnd. apply significant_trimStart. Qed.

(** Collapsing line breaks removes empty lines only. *)
Lemma breaks_kin (s : str) :
  forall (k : nat) (b : bool),
    (k <> 0 -> Forall (fun x => isLF x = true) (firstn k s)) ->
    (k = 0 -> kin s (replaceFrom reBreaks [LF; LF] k b s))
    /\ (k <> 0 -> significant (split s)
                  = significant (split (replaceFrom reBreaks [LF; LF] k b s))).
Proof.
  induction s as [|c s IH]; intros k b Hk.
  - split; intros _; [apply kin_refl | reflexivity].
  - cbn [replaceFrom]. destruct k as [|k].
    + split; [intros _ | intros H; elim H; reflexivity].
      destruct (reBreaks b (c :: s)) as [k|] eqn:E.
      * pose proof E as E'. apply reBreaks_some in E'. destruct E' as [-> Hrun].
        assert (Hk' : k <> 0).
        { unfold reBreaks in E. destruct (run isLF (LF :: s)); [discriminate|].
          destruct n as [|[|n]]; simpl in E; try discriminate.
          injection E as <-. discriminate. }
        destruct (IH k (isLineTerminator LF) (fun _ => Hrun)) as [_ IH'].
        specialize (IH' Hk').
        destruct (split_cons_form s) as (l & ls & Es).
        cbn [app]. exists [], (split s), [], ([] :: split (replaceFrom reBreaks [LF; LF] k (isLineTerminator LF) s)), [].
        repeat split; try reflexivity; [constructor|].
        rewrite IH', significant_cons. reflexivity.
      * apply kin_cons. apply (IH 0 (isLineTerminator c)); [intros H; elim H|];
          reflexivity.
    + split; [discriminate | intros _].
      specialize (Hk (Nat.neq_succ_0 k)). simpl in Hk.
      inversion Hk as [|? ? Hc Hrest]; subst.
      rewrite (significant_space_cons c s (LF_space _ Hc)).
      destruct (IH k (isLineTerminator c) (fun _ => Hrest)) as [IH0 IHk].
      destruct k as [|k].
      * apply kin_significant, IH0. reflexivity.
      * apply IHk. discriminate.
Qed.

Lemma significant_breaks (s : str) :
  significant (split (replaceAll reBreaks [LF; LF] s)) = significant (split s).
Proof.
  symmetry. apply kin_significant. apply (breaks_kin s 0 true); [|reflexivity].
  intros H. elim H. reflexivity.
Qed.

(** *** The titles depend on the significant lines only *)

Lemma matchedHeader_blank (l : str) : trim l = [] -> matchedHeader l = None.
Proof. unfold matchedHeader. intros ->. reflexivity. Qed.

Lemma alike_refl (st : ParseState) : alike st st.
Proof. repeat split. Qed.

Lemma alike_flush (st st' : ParseState) :
  alike st st' -> map title (flush st) = map title (flush st').
Proof.
  intros (He & Hc & Hb). unfold flush. unfold blank in Hb.
  apply (f_equal negb) in Hb. rewrite !negb_involutive in Hb. rewrite Hb, Hc.
  destruct (truthy (currentSection st') && truthy (trim (currentContent st'))).
  - rewrite !map_app, He. reflexivity.
  - exact He.
Qed.

Lemma alike_step (st st' : ParseState) (l l' : str) :
  alike st st' -> trim l = trim l' -> alike (step st l) (step st' l').
Proof.
  intros H Ht. unfold step, matchedHeader. rewrite Ht.
  destruct (find (headerTest (trim l')) sectionHeaders).
  - repeat split. simpl. apply alike_flush, H.
  - destruct H as (He & Hc & Hb). repeat split; simpl; try assumption.
    rewrite !blank_app, Hb. unfold blank at 2 4. rewrite Ht. reflexivity.
Qed.

Lemma alike_step_blank (st st' : ParseState) (l : str) :
  alike st st' -> trim l = [] -> alike (step st l) st'.
Proof.
  intros (He & Hc & Hb) Ht. unfold step. rewrite (matchedHeader_blank _ Ht).
  repeat split; simpl; try assumption.
  rewrite !blank_app, Hb. unfold blank at 2. rewrite Ht. simpl.
  apply andb_true_r.
Qed.

Lemma fold_significant (lines : list str) :
  forall st st', alike st st' ->
  alike (fold_left step lines st) (fold_left step (significant lines) st').
Proof.
  induction lines as [|l lines IH]; intros st st' H; [exact H|].
  rewrite significant_cons. simpl. destruct (trim l) as [|x r] eqn:E; simpl.
  - apply IH. apply alike_step_blank; assumption.
  - apply IH. apply alike_step; [assumption|]. rewrite <- E. symmetry.
    apply trim_idempotent.
Qed.

Lemma titles_significant (lines lines' : list str) :
  significant lines = significant lines' ->
  map title (flush (scan lines)) = map title (flush (scan lines')).
Proof.
  intros E. unfold scan.
  rewrite (alike_flush _ _ (fold_significant lines _ _ (alike_refl initial))).
  rewrite (alike_flush _ _ (fold_significant lines' _ _ (alike_refl initial))).
  rewrite E. reflexivity.
Qed.

(** ** The header test, unit by unit *)

Lemma startsWith_spec (s p : str) : startsWith s p = true <-> exists b, s = p ++ b.
Proof.
  revert s. induction p as [|x p IH]; intros [|y s]; cbn [startsWith app].
  - split; [intros _; exists []; reflexivity | reflexivity].
  - split; [intros _; exists (y :: s); reflexivity | reflexivity].
  - split; [discriminate | intros [b H]; discriminate H].
  - rewrite andb_true_iff, N.eqb_eq, IH. split.
    + intros [-> [b ->]]. exists b. reflexivity.
    + intros [b H]. injection H as -> ->. split; [reflexivity | exists b; reflexivity].
Qed.

Lemma includes_spec (s p : str) : includes s p = true <-> exists a b, s = a ++ p ++ b.
Proof.
  induction s as [|c s IH].
  - cbn [includes]. rewrite orb_false_r, startsWith_spec. split.
    + intros [b H]. exists [], b. exact H.
    + intros (a & b & H). destruct a; [exists b; exact H | discriminate H].
  - cbn [includes]. rewrite orb_true_iff, startsWith_spec, IH. split.
    + intros [[b H]|(a & b & H)].
      * exists [], b. exact H.
      * exists (c :: a), b. rewrite H. reflexivity.
    + intros (a & b & H). destruct a as [|x a].
      * left. exists b. exact H.
      * right. injection H as _ H. exists a, b. exact H.
Qed.

Lemma foldUnit_cases (c : char) :
  ((65 <= c <= 90)%N /\ foldUnit c = (c + 32)%N)
  \/ (c = KELVIN /\ foldUnit c = 107%N)
  \/ (~ (65 <= c <= 90)%N /\ c <> KELVIN /\ foldUnit c = c).
Proof.
  unfold foldUnit. destruct (N.leb 65 c && N.leb c 90) eqn:U.
  - left. apply andb_true_iff in U. destruct U as [U1 U2].
    apply N.leb_le in U1, U2. split; [lia | reflexivity].
  - right. assert (~ (65 <= c <= 90)%N).
    { intros [H1 H2]. apply N.leb_le in H1, H2. rewrite H1, H2 in U. discriminate U. }
    destruct (N.eqb c KELVIN) eqn:K.
    + left. apply N.eqb_eq in K. split; [exact K | reflexivity].
    + right. apply N.eqb_neq in K. repeat split; assumption.
Qed.

Lemma sameLetter_fold (x y : char) :
  (y < 128)%N -> (foldUnit x = foldUnit y <-> sameLetter x y).
Proof.
  intros Hy. split.
  - destruct (foldUnit_cases x) as [[Hx ->]|[[-> ->]|(Hx & Kx & ->)]];
      destruct (foldUnit_cases y) as [[Hy' ->]|[[-> ->]|(Hy' & Ky & ->)]];
      unfold KELVIN in *; intros H; try lia.
    + replace y with x by lia. constructor.
    + subst y. apply capital_for_small. exact Hx.
    + replace y with 75%N by lia. apply kelvin_for_capital.
    + subst y. apply kelvin_for_small.
    + subst x. apply small_for_capital. exact Hy'.
    + subst y. constructor.
  - intros H. destruct H as [c|c Hc|c Hc| |]; try reflexivity.
    + destruct (foldUnit_cases c) as [[_ ->]|[[-> _]|(Hx & _)]];
        [|unfold KELVIN in Hc; lia|contradiction].
      destruct (foldUnit_cases (c + 32)%N) as [[H' _]|[[H' _]|(_ & _ & ->)]];
        [lia | unfold KELVIN in H'; lia | reflexivity].
    + destruct (foldUnit_cases c) as [[_ ->]|[[-> _]|(Hx & _)]];
        [|unfold KELVIN in Hc; lia|contradiction].
      destruct (foldUnit_cases (c + 32)%N) as [[H' _]|[[H' _]|(_ & _ & ->)]];
        [lia | unfold KELVIN in H'; lia | reflexivity].
Qed.

Lemma upToCase_fold (w h : str) :
  Forall (fun c => (c < 128)%N) h ->
  (map foldUnit w = map foldUnit h <-> upToCase w h).
Proof.
  intros Hh. revert w. induction Hh as [|y h Hy _ IH]; intros w.
  - destruct w; split; intros H; try discriminate H; try constructor; inversion H.
  - destruct w as [|x w].
    + split; intros H; [discriminate H | inversion H].
    + cbn [map]. split.
      * intros H. injection H as H1 H2. constructor.
        -- apply (sameLetter_fold x y Hy), H1.
        -- apply IH, H2.
      * intros H. inversion H as [|? ? ? ? H1 H2]; subst. f_equal.
        -- apply (sameLetter_fold x y Hy), H1.
        -- apply IH, H2.
Qed.

Lemma mentions_fold (t h : str) :
  Forall (fun c => (c < 128)%N) h ->
  (includes (map foldUnit t) (map foldUnit h) = true <-> mentions t h).
Proof.
  intros Hh. rewrite includes_spec. unfold mentions. split.
  - intros (a & b & H).
    apply map_eq_app in H. destruct H as (ta & tr & -> & <- & H).
    apply map_eq_app in H. destruct H as (w & tb & -> & H & <-).
    exists ta, w, tb. split; [reflexivity | apply (upToCase_fold w h Hh), H].
  - intros (a & w & b & -> & H). apply (upToCase_fold w h Hh) in H.
    exists (map foldUnit a), (map foldUnit b). rewrite !map_app, H. reflexivity.
Qed.

Lemma isDigit_range (c : char) : isDigit c = true <-> (48 <= c <= 57)%N.
Proof. unfold isDigit. rewrite andb_true_iff, !N.leb_le. reflexivity. Qed.

Lemma run_app_stop (p : char -> bool) (a : str) (c : char) (r : str) :
  Forall (fun x => p x = true) a -> p c = false ->
  run p (a ++ c :: r) = List.length a.
Proof.
  intros Ha Hc. induction Ha as [|x a Hx _ IH]; simpl.
  - rewrite Hc. reflexivity.
  - rewrite Hx, IH. reflexivity.
Qed.

Lemma run_le_length (p : char -> bool) (s : str) : run p s <= List.length s.
Proof. induction s as [|c s IH]; simpl; [lia|]. destruct (p c); simpl; lia. Qed.

Lemma ordinalPrefix_spec (t : str) : ordinalPrefix t = true <-> ordinalShaped t.
Proof.
  unfold ordinalPrefix, ordinalShaped. split.
  - intros H. apply andb_true_iff in H. destruct H as [Hk Hd].
    apply Nat.leb_le in Hk.
    exists (firstn (run isDigit t) t).
    destruct (skipn (run isDigit t) t) as [|c rest] eqn:E; [discriminate|].
    apply N.eqb_eq in Hd. subst c. exists rest. split; [|split].
    + intros Hnil. apply (f_equal (@List.length char)) in Hnil.
      rewrite length_firstn in Hnil. simpl in Hnil.
      pose proof (run_le_length isDigit t). lia.
    + eapply Forall_impl; [|apply run_firstn]. intros c. apply isDigit_range.
    + rewrite <- E. symmetry. apply firstn_skipn.
  - intros (digits & rest & Hne & Hd & ->).
    assert (Hrun : run isDigit (digits ++ DOT :: rest) = List.length digits).
    { apply run_app_stop; [|reflexivity].
      eapply Forall_impl; [|exact Hd]. intros c. apply isDigit_range. }
    rewrite Hrun, skipn_app, Nat.sub_diag, skipn_all. cbn [app skipn].
    rewrite N.eqb_refl, andb_true_r. apply Nat.leb_le.
    destruct digits; [contradiction | simpl; lia].
Qed.

Lemma catalog_basicLatin :
  Forall (fun h => Forall (fun c => (c < 128)%N) h) sectionHeaders.
Proof.
  assert (C : forallb (fun h => forallb (fun c => N.ltb c 128) h) sectionHeaders = true)
    by (vm_compute; reflexivity).
  apply Forall_forall. intros h Hin. apply Forall_forall. intros c Hc.
  apply N.ltb_lt.
  apply (proj1 (forallb_forall _ _) (proj1 (forallb_forall _ _) C h Hin) c Hc).
Qed.

(** The test of [find], in the words of the specification. *)
Lemma headerTest_spec (t h : str) :
  In h sectionHeaders ->
  (headerTest t h = true <-> mentions t h /\ (ordinalShaped t \/ upToCase t h)).
Proof.
  intros Hin.
  pose proof (proj1 (Forall_forall _ _) catalog_basicLatin h Hin) as Hh.
  rewrite (headerTest_fold t h Hin), andb_true_iff, orb_true_iff.
  rewrite (mentions_fold t h Hh), ordinalPrefix_spec, str_eqb_eq.
  rewrite (upToCase_fold t h Hh). reflexivity.
Qed.

Lemma isHeaderLine_spec (line : str) :
  isHeaderLine line = true <->
  exists header,
    In header sectionHeaders
    /\ mentions (trim line) header
    /\ (ordinalShaped (trim line) \/ upToCase (trim line) header).
Proof.
  rewrite isHeaderLine_true. unfold matchedHeader. split.
  - intros [h H]. apply find_some in H. destruct H as [Hin Ht].
    exists h. split; [exact Hin|]. apply (headerTest_spec _ _ Hin), Ht.
  - intros [h (Hin & Hm)]. apply (headerTest_spec _ _ Hin) in Hm.
    destruct (find (headerTest (trim line)) sectionHeaders) as [h'|] eqn:E.
    + exists h'. reflexivity.
    + apply (find_none _ _ E) in Hin. congruence.
Qed.

Lemma trim_trimmedOf (line : str) : trimmedOf line (trim line).
Proof.
  destruct (trimEnd_split (trimStart line)) as (w & Hw & E).
  exists (firstn (run isWhiteSpace line) line), w.
  split; [|split; [apply run_firstn|split; [exact Hw|]]].
  - fold (trim line) in E. rewrite <- E. unfold trimStart. symmetry. apply firstn_skipn.
  - destruct (trim line) as [|c r] eqn:T; [exact I|]. split.
    + unfold trim in T. destruct (trimEnd_head _ _ _ T) as [r' E'].
      apply (trimStart_head _ _ _ E').
    + unfold trim, trimEnd in T.
      destruct (trimStart (rev (trimStart line))) as [|x X] eqn:EX; [discriminate T|].
      rewrite <- T. cbn [rev]. rewrite last_last.
      apply (trimStart_head _ _ _ EX).
Qed.

(** ** Texts the clean-up leaves alone *)

Lemma calm_weaken (ps : bool) (s : str) : calm true s -> calm ps s.
Proof.
  destruct s as [|c s]; [trivial|]. intros [H1 H2]. split; [|exact H2].
  intros _. apply H1. reflexivity.
Qed.

Lemma calm_app_mute (a b : str) (ps : bool) :
  mute a -> calm true b -> calm ps (a ++ b).
Proof.
  intros Ha Hb. revert ps. induction a as [|c a IH]; intros ps.
  - apply calm_weaken, Hb.
  - destruct Ha as [Hc Ha]. simpl. split; [|apply IH, Ha].
    intros _ Hm. specialize (Hc Hm). destruct a; [contradiction | exact Hc].
Qed.

Lemma calm_dashes_tail (m : nat) (rest : str) :
  calm true rest -> calm false (repeat_char DASH m ++ LF :: rest).
Proof.
  intros H. induction m as [|m IH]; simpl.
  - split; [discriminate | exact H].
  - split; [discriminate | exact IH].
Qed.

Lemma calm_dashes (n : nat) (rest : str) (ps : bool) :
  2 <= n -> calm true rest -> calm ps (repeat_char DASH n ++ LF :: rest).
Proof.
  intros Hn H. destruct n as [|[|m]]; try lia. simpl. split.
  - intros _ _. reflexivity.
  - apply (calm_dashes_tail (S m)), H.
Qed.

Lemma markerFree_mute (s : str) : Forall (fun c => isMarker c = false) s -> mute s.
Proof.
  intros H. induction H as [|c s Hc _ IH]; simpl; [exact I|].
  split; [congruence | exact IH].
Qed.

Lemma calm_no_bullet (s : str) : calm true s -> reBullet true s = None.
Proof.
  unfold reBullet. induction s as [|c s IH]; [reflexivity|].
  intros [Hc H]. simpl. destruct (isWhiteSpace c) eqn:W; simpl.
  - specialize (IH H).
    destruct (skipn (run isWhiteSpace s) s) as [|x [|y r]]; try reflexivity.
    destruct (isMarker x && isWhiteSpace y); [discriminate IH | reflexivity].
  - destruct s as [|d s]; [reflexivity|].
    destruct (isMarker c) eqn:M; [|reflexivity].
    rewrite (Hc eq_refl eq_refl). reflexivity.
Qed.

Lemma bullet_calm (s : str) (b ps : bool) :
  calm ps s -> (b = true -> ps = true) ->
  replaceFrom reBullet [BULLET; SP] 0 b s = s.
Proof.
  revert b ps. induction s as [|c s IH]; intros b ps H Hb; [reflexivity|].
  simpl. assert (E : reBullet b (c :: s) = None).
  { destruct b; [|reflexivity]. apply calm_no_bullet.
    rewrite <- (Hb eq_refl). exact H. }
  rewrite E. f_equal. destruct H as [_ H].
  apply (IH _ _ H). apply lineTerminator_space.
Qed.

(** On a text without asterisks and hashes in which the bullet pattern
    matches nowhere, the clean-up collapses line breaks and trims. *)
Lemma cleanContent_calm (e : str) :
  starFree e -> hashFree e -> calm true e ->
  cleanContent e = trim (replaceAll reBreaks [LF; LF] e).
Proof.
  intros Hs Hh Hc. unfold cleanContent.
  rewrite (bold_id _ Hs), (star_id _ Hs), (header_id _ Hh).
  unfold replaceAll at 2. rewrite (bullet_calm e true true Hc); reflexivity.
Qed.

Lemma titles_cleaned (e : str) :
  starFree e -> hashFree e -> calm true e ->
  map title (flush (scan (split (cleanContent e))))
  = map title (flush (scan (split e))).
Proof.
  intros Hs Hh Hc. apply titles_significant.
  rewrite (cleanContent_calm e Hs Hh Hc), significant_trim. apply significant_breaks.
Qed.

(** ** The normal form and the wording of normalised text *)

Lemma tidy_no_empty_line (t : str) (b : bool) :
  tidy b t -> includes t [LF; LF] = false.
Proof.
  revert b. induction t as [|c t IH]; intros b H; [reflexivity|].
  destruct H as [_ H]. cbn [includes]. rewrite (IH _ H), orb_false_r.
  cbn [startsWith]. destruct (N.eqb LF c) eqn:E; [|reflexivity].
  apply N.eqb_eq in E. subst c. destruct t as [|d t]; [reflexivity|].
  destruct H as [Hd _]. destruct (Hd eq_refl) as [W _].
  cbn [startsWith]. destruct (N.eqb LF d) eqn:E; [|reflexivity].
  apply N.eqb_eq in E. subst d. discriminate W.
Qed.

Lemma settled_normalForm (t : str) : settled t -> normalForm t.
Proof.
  intros H. pose proof (formatSectionContent_fix t H) as F.
  destruct H as (Hs & Ht & He). repeat split.
  - exact Hs.
  - apply trim_fix; assumption.
  - apply (tidy_no_empty_line t true Ht).
  - exact F.
Qed.

Lemma formatSectionContent_normalForm (x : str) : normalForm (formatSectionContent x).
Proof. apply settled_normalForm, formatSectionContent_settled. Qed.

Lemma wording_nil (x : str) :
  wording x = [] <-> Forall (fun c => isMarkup c = true) x.
Proof.
  unfold wording. induction x as [|c x IH]; simpl.
  - split; [constructor | reflexivity].
  - destruct (isMarkup c) eqn:E; simpl.
    + rewrite IH. split; [intros H; constructor; assumption | intros H; inversion H; assumption].
    + split; [discriminate | intros H; inversion H; congruence].
Qed.

Lemma wording_app (a b : str) : wording (a ++ b) = wording a ++ wording b.
Proof. apply filter_app. Qed.

Lemma wording_markup (a b : str) :
  Forall (fun c => isMarkup c = true) a -> wording (a ++ b) = wording b.
Proof. intros H. rewrite wording_app, (proj2 (wording_nil a) H). reflexivity. Qed.

(** A pattern that matches markup only, replaced by markup, keeps the
    wording. *)
Lemma replaceFrom_wording m r :
  (forall b u k, m b u = Some k -> Forall (fun c => isMarkup c = true) (firstn (S k) u)) ->
  Forall (fun c => isMarkup c = true) r ->
  forall s k b,
    Forall (fun c => isMarkup c = true) (firstn k s) ->
    wording (replaceFrom m r k b s) = wording s.
Proof.
  intros Hm Hr s. induction s as [|c s IH]; intros k b Hk; [reflexivity|].
  cbn [replaceFrom]. destruct k as [|k].
  - destruct (m b (c :: s)) as [k|] eqn:E.
    + apply Hm in E. cbn [firstn] in E. inversion E as [|? ? Hc Hrest]; subst.
      rewrite (wording_markup r _ Hr), (IH _ _ Hrest).
      symmetry. apply (wording_markup [c]). constructor; [exact Hc | constructor].
    + unfold wording. cbn [filter]. fold (wording s).
      fold (wording (replaceFrom m r 0 (isLineTerminator c) s)).
      rewrite (IH 0 _ (Forall_nil _)). reflexivity.
  - cbn [firstn] in Hk. inversion Hk as [|? ? Hc Hrest]; subst.
    rewrite (IH _ _ Hrest).
    symmetry. apply (wording_markup [c]). constructor; [exact Hc | constructor].
Qed.

Lemma replaceAll_wording m r (s : str) :
  (forall b u k, m b u = Some k -> Forall (fun c => isMarkup c = true) (firstn (S k) u)) ->
  Forall (fun c => isMarkup c = true) r ->
  wording (replaceAll m r s) = wording s.
Proof. intros Hm Hr. apply (replaceFrom_wording m r Hm Hr). constructor. Qed.

Ltac is_markup H := unfold isMarkup; rewrite H; rewrite ?orb_true_r; reflexivity.

Lemma space_markup (x : str) : allSpace x -> Forall (fun c => isMarkup c = true) x.
Proof.
  apply Forall_impl. intros c H. unfold isMarkup. rewrite H. reflexivity.
Qed.

Lemma firstn_succ_skipn (n : nat) (u : str) (w : char) (r : str) :
  skipn n u = w :: r -> firstn (S n) u = firstn n u ++ [w].
Proof.
  revert u. induction n as [|n IH]; intros u H.
  - simpl in H. subst u. reflexivity.
  - destruct u as [|c u]; [discriminate H|]. simpl in H.
    change (firstn (S (S n)) (c :: u)) with (c :: firstn (S n) u).
    rewrite (IH u H). reflexivity.
Qed.

Lemma skipn_succ (n : nat) (u : str) (c : char) (t : str) :
  skipn n u = c :: t -> skipn (S n) u = t.
Proof.
  revert u. induction n as [|n IH]; intros u H.
  - simpl in H. subst u. reflexivity.
  - destruct u as [|x u]; [discriminate H|]. apply (IH u H).
Qed.

Lemma reBold_markup (b : bool) (u : str) (k : nat) :
  reBold b u = Some k -> Forall (fun c => isMarkup c = true) (firstn (S k) u).
Proof.
  destruct u as [|x [|y u]]; try discriminate. unfold reBold.
  destruct (isStar x) eqn:X; [|discriminate]. destruct (isStar y) eqn:Y; [|discriminate].
  intros H. injection H as <-. cbn [firstn].
  constructor; [is_markup X|].
  constructor; [is_markup Y | constructor].
Qed.

Lemma reStar_markup (b : bool) (u : str) (k : nat) :
  reStar b u = Some k -> Forall (fun c => isMarkup c = true) (firstn (S k) u).
Proof.
  destruct u as [|x u]; try discriminate. unfold reStar.
  destruct (isStar x) eqn:X; [|discriminate].
  intros H. injection H as <-. cbn [firstn].
  constructor; [is_markup X | constructor].
Qed.

Lemma reHeader_markup (b : bool) (u : str) (k : nat) :
  reHeader b u = Some k -> Forall (fun c => isMarkup c = true) (firstn (S k) u).
Proof.
  unfold reHeader. destruct (skipn (run isHash u) u) as [|w r] eqn:E; [discriminate|].
  destruct ((1 <=? run isHash u) && (run isHash u <=? 6) && isWhiteSpace w) eqn:C;
    [|discriminate].
  intros H. injection H as <-. rewrite (firstn_succ_skipn _ _ _ _ E).
  apply andb_true_iff in C. destruct C as [_ W].
  apply Forall_app. split.
  - eapply Forall_impl; [|apply run_firstn]. intros c Hc. is_markup Hc.
  - constructor; [is_markup W | constructor].
Qed.

Lemma reBullet_markup (b : bool) (u : str) (k : nat) :
  reBullet b u = Some k -> Forall (fun c => isMarkup c = true) (firstn (S k) u).
Proof.
  unfold reBullet. destruct b; [|discriminate].
  destruct (skipn (run isWhiteSpace u) u) as [|c [|d r]] eqn:E; try discriminate.
  destruct (isMarker c && isWhiteSpace d) eqn:C; [|discriminate].
  intros H. injection H as <-.
  apply andb_true_iff in C. destruct C as [M W].
  assert (E' : skipn (S (run isWhiteSpace u)) u = d :: r).
  { apply (skipn_succ _ _ _ _ E). }
  rewrite (firstn_succ_skipn _ _ _ _ E'), (firstn_succ_skipn _ _ _ _ E).
  apply Forall_app. split; [apply Forall_app; split|].
  - apply space_markup, run_firstn.
  - constructor; [is_markup M | constructor].
  - constructor; [is_markup W | constructor].
Qed.

Lemma trimStart_wording (s : str) : wording (trimStart s) = wording s.
Proof.
  unfold trimStart.
  pose proof (wording_markup (firstn (run isWhiteSpace s) s)
                (skipn (run isWhiteSpace s) s)
                (space_markup _ (run_firstn isWhiteSpace s))) as H.
  rewrite firstn_skipn in H. symmetry. exact H.
Qed.

Lemma trim_wording (s : str) : wording (trim s) = wording s.
Proof.
  unfold trim. destruct (trimEnd_split (trimStart s)) as (w & Hw & E).
  rewrite <- (trimStart_wording s).
  apply (f_equal wording) in E.
  rewrite wording_app, (proj2 (wording_nil w) (space_markup w Hw)), app_nil_r in E.
  symmetry. exact E.
Qed.

Lemma bullet_markup : Forall (fun c => isMarkup c = true) [BULLET; SP].
Proof. repeat constructor. Qed.

Lemma breaks_markup : Forall (fun c => isMarkup c = true) [LF; LF].
Proof. repeat constructor. Qed.

Lemma cleanContent_wording (s : str) : wording (cleanContent s) = wording s.
Proof.
  unfold cleanContent. rewrite trim_wording.
  rewrite (replaceAll_wording reBreaks);
    [|intros b u k H; apply space_markup, (reBreaks_space b u k H) | apply breaks_markup].
  rewrite (replaceAll_wording reBullet); [|apply reBullet_markup | apply bullet_markup].
  rewrite (replaceAll_wording reHeader); [|apply reHeader_markup | constructor].
  rewrite (replaceAll_wording reStar); [|apply reStar_markup | constructor].
  apply (replaceAll_wording reBold); [apply reBold_markup | constructor].
Qed.

Lemma formatSectionContent_wording (s : str) :
  wording (formatSectionContent s) = wording s.
Proof.
  unfold formatSectionContent. rewrite trim_wording.
  rewrite (replaceAll_wording reIndent);
    [|intros b u k H; apply space_markup, (reIndent_space b u k H) | constructor].
  rewrite (replaceAll_wording reBreaks);
    [|intros b u k H; apply space_markup, (reBreaks_space b u k H) | apply breaks_markup].
  rewrite (replaceAll_wording reBullet); [|apply reBullet_markup | apply bullet_markup].
  rewrite (replaceAll_wording reStar); [|apply reStar_markup | constructor].
  apply (replaceAll_wording reBold); [apply reBold_markup | constructor].
Qed.

Lemma normalize_wording (s : str) : wording (normalize s) = wording s.
Proof. unfold normalize. rewrite formatSectionContent_wording. apply cleanContent_wording. Qed.

(** ** Lines that the loop reads alike *)

Lemma alike_sym (st st' : ParseState) : alike st st' -> alike st' st.
Proof. intros (H1 & H2 & H3). repeat split; symmetry; assumption. Qed.

Lemma alike_trans (a b c : ParseState) : alike a b -> alike b c -> alike a c.
Proof.
  intros (H1 & H2 & H3) (K1 & K2 & K3). repeat split; etransitivity; eassumption.
Qed.

Lemma readAlike_refl (ls : list str) : readAlike ls ls.
Proof.
  induction ls as [|l ls IH]; intros st st' H; simpl; [exact H|].
  apply IH, alike_step; [exact H | reflexivity].
Qed.

Lemma readAlike_sym (ls ls' : list str) : readAlike ls ls' -> readAlike ls' ls.
Proof. intros H st st' Hs. apply alike_sym, H, alike_sym, Hs. Qed.

Lemma readAlike_trans (a b c : list str) :
  readAlike a b -> readAlike b c -> readAlike a c.
Proof.
  intros H1 H2 st st' Hs.
  apply (alike_trans _ (fold_left step b st')); [apply H1, Hs | apply H2, alike_refl].
Qed.

Lemma readAlike_app (a a' b b' : list str) :
  readAlike a a' -> readAlike b b' -> readAlike (a ++ b) (a' ++ b').
Proof. intros Ha Hb st st' H. rewrite !fold_left_app. apply Hb, Ha, H. Qed.

Lemma readAlike_line (l l' : str) :
  matchedHeader l = matchedHeader l' -> blank l = blank l' -> readAlike [l] [l'].
Proof.
  intros Hm Hb st st' H. simpl. unfold step. rewrite Hm.
  destruct (matchedHeader l').
  - repeat split. simpl. apply alike_flush, H.
  - destruct H as (He & Hc & Hbl). repeat split; simpl; try assumption.
    rewrite !blank_app, Hbl, Hb. reflexivity.
Qed.

Lemma readAlike_blank (l : str) : blank l = true -> readAlike [l] [].
Proof.
  intros Hb st st' H. simpl. apply alike_step_blank; [exact H|].
  unfold blank in Hb. destruct (trim l); [reflexivity | discriminate].
Qed.

Lemma readAlike_titles (ls ls' : list str) :
  readAlike ls ls' ->
  map title (flush (scan ls)) = map title (flush (scan ls')).
Proof. intros H. unfold scan. apply alike_flush, H, alike_refl. Qed.

Lemma readAlike_significant (ls ls' : list str) :
  significant ls = significant ls' -> readAlike ls ls'.
Proof.
  intros E.
  assert (A : forall x, readAlike x (significant x))
    by (intros x st st' H; apply fold_significant, H).
  apply (readAlike_trans _ (significant ls)); [apply A|].
  rewrite E. apply readAlike_sym, A.
Qed.

(** *** A prefix on the first line *)

Lemma split_nonempty (s : str) : split s <> [].
Proof. destruct (split_cons_form s) as (l & ls & ->). discriminate. Qed.

Lemma onto_nil (ls : list str) : ls <> [] -> onto [] ls = ls.
Proof. destruct ls; [contradiction | reflexivity]. Qed.

Lemma onto_onto (a b : str) (ls : list str) : onto a (onto b ls) = onto (a ++ b) ls.
Proof. destruct ls; simpl; [reflexivity|]. rewrite app_assoc. reflexivity. Qed.

Lemma split_cons (c : char) (s : str) :
  split (c :: s) = if isLF c then [] :: split s else onto [c] (split s).
Proof. cbn [split]. destruct (isLF c); [reflexivity|]. destruct (split s); reflexivity. Qed.

Lemma split_app_plain (a s : str) :
  Forall (fun c => isLF c = false) a -> split (a ++ s) = onto a (split s).
Proof.
  intros H. induction H as [|c a Hc _ IH].
  - symmetry. apply onto_nil, split_nonempty.
  - cbn [app]. rewrite split_cons, Hc, IH, onto_onto. reflexivity.
Qed.

Lemma readAlike_onto (a a' : str) (ls : list str) :
  (forall l, matchedHeader (a ++ l) = matchedHeader (a' ++ l)
             /\ blank (a ++ l) = blank (a' ++ l)) ->
  readAlike (onto a ls) (onto a' ls).
Proof.
  intros H. destruct ls as [|l rest]; simpl.
  - destruct (H []) as [H1 H2]. rewrite !app_nil_r in *.
    apply readAlike_line; assumption.
  - destruct (H l) as [H1 H2].
    apply (readAlike_app [a ++ l] [a' ++ l] rest rest);
      [apply readAlike_line; assumption | apply readAlike_refl].
Qed.

(** White space in front of a text, with the blank lines it makes, is not
    read. *)
Lemma readAlike_lead (ws : str) :
  allSpace ws ->
  forall (a t : str),
    allSpace a -> readAlike (onto a (split (ws ++ t))) (split t).
Proof.
  intros Hws. induction Hws as [|c ws Hc _ IH]; intros a t Ha.
  - cbn [app]. rewrite <- (onto_nil (split t) (split_nonempty t)) at 2.
    apply readAlike_onto. intros l. unfold matchedHeader, blank.
    cbn [app]. unfold trim. rewrite (trimStart_space_app a l Ha). split; reflexivity.
  - cbn [app]. rewrite split_cons. destruct (isLF c) eqn:L.
    + cbn [onto]. rewrite app_nil_r.
      apply (readAlike_app [a] [] (split (ws ++ t)) (split t)).
      * apply readAlike_blank, blank_allSpace, Ha.
      * rewrite <- (onto_nil (split (ws ++ t)) (split_nonempty _)).
        apply IH. constructor.
    + rewrite onto_onto. apply IH. apply allSpace_app. split; [exact Ha|].
      constructor; [exact Hc | constructor].
Qed.

(** *** What a rewritten item changes of a line: nothing the test sees *)

Lemma inked_not_blank (x : str) : inked x -> blank x = false.
Proof.
  intros H. destruct (blank x) eqn:E; [|reflexivity].
  apply blank_allSpace in E. apply trim_inked, inked_truthy in H.
  rewrite (trim_allSpace _ E) in H. contradiction.
Qed.


Lemma foldUnit_moved (c : char) : foldUnit c <> c -> In c foldedUnits.
Proof.
  destruct (foldUnit_cases c) as [[H E]|[[-> E]|(_ & _ & E)]].
  - intros _. right. apply in_map_iff. exists (N.to_nat c).
    split; [apply N2Nat.id | apply in_seq; lia].
  - intros _. left. reflexivity.
  - congruence.
Qed.

Lemma foldUnit_kept (p : char -> bool) (c : char) :
  forallb (fun x => negb (p x)) foldedUnits = true -> p c = true -> foldUnit c = c.
Proof.
  intros C Hp. destruct (N.eq_dec (foldUnit c) c) as [E|E]; [exact E|].
  apply foldUnit_moved in E. apply (proj1 (forallb_forall _ _) C) in E.
  rewrite Hp in E. discriminate E.
Qed.

Lemma foldUnit_space (c : char) : isWhiteSpace c = true -> foldUnit c = c.
Proof. apply (foldUnit_kept isWhiteSpace). vm_compute. reflexivity. Qed.

Lemma foldUnit_marker (c : char) : isMarker c = true -> foldUnit c = c.
Proof. apply (foldUnit_kept isMarker). vm_compute. reflexivity. Qed.

Lemma map_foldUnit_space (w : str) : allSpace w -> map foldUnit w = w.
Proof.
  intros H. induction H as [|c w Hc _ IH]; simpl; [reflexivity|].
  rewrite (foldUnit_space c Hc), IH. reflexivity.
Qed.

Lemma startsWith_past (P Q H : str) (x : char) :
  ~ In x H -> startsWith (P ++ x :: Q) H = startsWith P H.
Proof.
  revert H. induction P as [|p P IH]; intros H Hx.
  - destruct H as [|y H]; [reflexivity|]. cbn [app startsWith].
    replace (N.eqb y x) with false; [reflexivity|].
    symmetry. apply N.eqb_neq. intros ->. apply Hx. left. reflexivity.
  - destruct H as [|y H]; [reflexivity|]. cbn [app startsWith].
    rewrite IH; [reflexivity|]. intros Hin. apply Hx. right. exact Hin.
Qed.

Lemma includes_past_unit (P Q H : str) (x : char) :
  ~ In x H -> includes (P ++ x :: Q) H = includes P H || includes Q H.
Proof.
  intros Hx. induction P as [|p P IH].
  - cbn [app includes]. pose proof (startsWith_past [] Q H x Hx) as E.
    cbn [app] in E. rewrite E, orb_false_r. reflexivity.
  - pose proof (startsWith_past (p :: P) Q H x Hx) as E. cbn [app] in E.
    cbn [app includes]. rewrite E, IH, orb_assoc. reflexivity.
Qed.

Lemma includes_lead (H X : str) (c : char) :
  H <> [] -> hd 0%N H <> c -> includes (c :: X) H = includes X H.
Proof.
  intros Hne Hc. cbn [includes]. destruct H as [|y H]; [contradiction|].
  cbn [startsWith]. simpl in Hc.
  replace (N.eqb y c) with false; [reflexivity|].
  symmetry. apply N.eqb_neq. exact Hc.
Qed.

Lemma startsWith_trail (c : char) (X : str) :
  forall H, H <> [] -> last H 0%N <> c ->
            startsWith (X ++ [c]) H = startsWith X H.
Proof.
  induction X as [|p X IH]; intros H Hne Hc.
  - destruct H as [|y [|z H]]; [contradiction| |].
    + cbn [app startsWith]. simpl in Hc.
      replace (N.eqb y c) with false; [reflexivity|].
      symmetry. apply N.eqb_neq. exact Hc.
    + cbn [app startsWith]. apply andb_false_r.
  - destruct H as [|y H]; [contradiction|]. cbn [app startsWith].
    destruct H as [|z H].
    + destruct (X ++ [c]), X; reflexivity.
    + rewrite IH; [reflexivity | discriminate | exact Hc].
Qed.

Lemma includes_trail (H X : str) (c : char) :
  H <> [] -> last H 0%N <> c -> includes (X ++ [c]) H = includes X H.
Proof.
  intros Hne Hc. induction X as [|p X IH].
  - pose proof (startsWith_trail c [] H Hne Hc) as E. cbn [app] in E.
    cbn [app includes]. rewrite E, !orb_false_r.
    destruct H; [contradiction | reflexivity].
  - pose proof (startsWith_trail c (p :: X) H Hne Hc) as E. cbn [app] in E.
    cbn [app includes]. rewrite E, IH. reflexivity.
Qed.

Lemma includes_lead_space (H w X : str) :
  solid H -> allSpace w -> includes (w ++ X) H = includes X H.
Proof.
  intros (Hne & _ & Hh & _) Hw. induction Hw as [|c w Hc _ IH]; [reflexivity|].
  cbn [app]. rewrite includes_lead; [exact IH | exact Hne|].
  intros E. rewrite E in Hh. congruence.
Qed.

Lemma includes_trail_space (H w : str) :
  solid H -> allSpace w -> forall X, includes (X ++ w) H = includes X H.
Proof.
  intros (Hne & _ & _ & Hl) Hw. induction Hw as [|c w Hc _ IH]; intros X.
  - rewrite app_nil_r. reflexivity.
  - change (X ++ c :: w) with (X ++ [c] ++ w). rewrite app_assoc, IH.
    apply includes_trail; [exact Hne|]. intros E. rewrite E in Hl. congruence.
Qed.

Lemma includes_trim (L H : str) :
  solid H -> includes (map foldUnit (trim L)) H = includes (map foldUnit L) H.
Proof.
  intros Hs. destruct (trim_trimmedOf L) as (lead & trail & E & Hl & Ht & _).
  remember (trim L) as t eqn:Et. clear Et. subst L.
  rewrite !map_app, (map_foldUnit_space _ Hl), (map_foldUnit_space _ Ht).
  rewrite (includes_lead_space H lead _ Hs Hl).
  symmetry. apply (includes_trail_space H trail Hs Ht).
Qed.

Lemma includes_item (H a ws l : str) (m d : char) :
  solid H -> allSpace ws -> isMarker m = true -> isWhiteSpace d = true ->
  includes (map foldUnit (trim (a ++ ws ++ m :: d :: l))) H
  = includes (map foldUnit a) H || includes (map foldUnit l) H.
Proof.
  intros Hs Hw Hm Hd. rewrite (includes_trim _ H Hs).
  rewrite app_assoc, map_app. cbn [map].
  rewrite (foldUnit_marker m Hm), (foldUnit_space d Hd).
  rewrite includes_past_unit.
  - rewrite map_app, (map_foldUnit_space ws Hw).
    rewrite (includes_trail_space H ws Hs Hw).
    assert (Hd' : allSpace [d]) by (constructor; [exact Hd | constructor]).
    pose proof (includes_lead_space H [d] (map foldUnit l) Hs Hd') as E.
    cbn [app] in E. rewrite E. reflexivity.
  - destruct Hs as (_ & Hmk & _). intros Hin.
    apply (proj1 (Forall_forall _ _) Hmk) in Hin. congruence.
Qed.

Lemma neutral_space (c : char) :
  isWhiteSpace c = true -> isDigit c = false /\ N.eqb c DOT = false.
Proof.
  intros W. split.
  - destruct (isDigit c) eqn:D; [|reflexivity].
    apply isDigit_range in D.
    assert (Hin : In c (map N.of_nat (seq 48 10))).
    { apply in_map_iff. exists (N.to_nat c). split; [apply N2Nat.id | apply in_seq; lia]. }
    assert (C : forallb (fun x => negb (isWhiteSpace x)) (map N.of_nat (seq 48 10)) = true)
      by (vm_compute; reflexivity).
    apply (proj1 (forallb_forall _ _) C) in Hin. rewrite W in Hin. discriminate Hin.
  - destruct (N.eqb c DOT) eqn:E; [|reflexivity].
    apply N.eqb_eq in E. subst c. discriminate W.
Qed.

Lemma neutral_marker (c : char) :
  isMarker c = true -> isDigit c = false /\ N.eqb c DOT = false.
Proof.
  unfold isMarker. intros M. apply orb_true_iff in M.
  destruct M as [M|M]; apply N.eqb_eq in M; subst c; split; reflexivity.
Qed.

Lemma neutralHead_item (ws r : str) (m : char) :
  allSpace ws -> isMarker m = true -> neutralHead (ws ++ m :: r).
Proof.
  intros Hw Hm. destruct Hw as [|c ws Hc _]; simpl.
  - apply neutral_marker, Hm.
  - apply neutral_space, Hc.
Qed.

Lemma run_app_neutral (A X : str) :
  neutralHead X -> run isDigit (A ++ X) = run isDigit A.
Proof.
  intros H. induction A as [|p A IH]; simpl.
  - destruct X as [|c X]; [reflexivity|]. simpl. destruct H as [-> _]. reflexivity.
  - rewrite IH. reflexivity.
Qed.

Lemma ordinalPrefix_app (A X : str) :
  neutralHead X -> ordinalPrefix (A ++ X) = ordinalPrefix A.
Proof.
  intros H. unfold ordinalPrefix. rewrite (run_app_neutral A X H).
  rewrite skipn_app.
  replace (run isDigit A - List.length A) with 0
    by (pose proof (run_le_length isDigit A); lia).
  cbn [skipn]. destruct (skipn (run isDigit A) A) as [|c r]; [|reflexivity].
  cbn [app]. destruct X as [|c X]; [reflexivity|].
  destruct H as [_ ->]. reflexivity.
Qed.

Lemma neutralHead_space (w : str) : allSpace w -> neutralHead w.
Proof. intros H. destruct H as [|c w Hc _]; [exact I | apply neutral_space, Hc]. Qed.

Lemma ordinalPrefix_trim (L : str) :
  ordinalPrefix (trim L) = ordinalPrefix (trimStart L).
Proof.
  unfold trim. destruct (trimEnd_split (trimStart L)) as (w & Hw & E).
  rewrite E at 2. symmetry. apply ordinalPrefix_app, neutralHead_space, Hw.
Qed.

Lemma ordinal_item (a ws r : str) (m : char) :
  allSpace ws -> isMarker m = true ->
  ordinalPrefix (trim (a ++ ws ++ m :: r)) = ordinalPrefix (trimStart a).
Proof.
  intros Hw Hm. rewrite ordinalPrefix_trim.
  destruct (inked_or_allSpace a) as [Hi|Ha].
  - rewrite (trimStart_inked_app a _ Hi).
    apply ordinalPrefix_app, neutralHead_item; assumption.
  - rewrite (trimStart_space_app a _ Ha), (trimStart_space_app ws _ Hw).
    rewrite (trimStart_allSpace a Ha), trimStart_cons, (marker_not_space m Hm).
    apply (ordinalPrefix_app [] (m :: r)). apply (neutralHead_item [] r m); [constructor | exact Hm].
Qed.

Lemma In_trim (L : str) (x : char) :
  In x L -> isWhiteSpace x = false -> In x (trim L).
Proof.
  intros Hin Hx. destruct (trim_trimmedOf L) as (lead & trail & E & Hl & Ht & _).
  rewrite E in Hin. apply in_app_or in Hin. destruct Hin as [Hin|Hin].
  - apply (proj1 (Forall_forall _ _) Hl) in Hin. congruence.
  - apply in_app_or in Hin. destruct Hin as [Hin|Hin]; [exact Hin|].
    apply (proj1 (Forall_forall _ _) Ht) in Hin. congruence.
Qed.

Lemma eqb_item (H a ws r : str) (m : char) :
  solid H -> isMarker m = true ->
  str_eqb (map foldUnit (trim (a ++ ws ++ m :: r))) H = false.
Proof.
  intros (_ & Hmk & _) Hm.
  destruct (str_eqb (map foldUnit (trim (a ++ ws ++ m :: r))) H) eqn:E; [|reflexivity].
  apply str_eqb_eq in E.
  assert (Hin : In m (trim (a ++ ws ++ m :: r))).
  { apply In_trim; [|apply marker_not_space, Hm].
    apply in_or_app. right. apply in_or_app. right. left. reflexivity. }
  apply (in_map foldUnit) in Hin. rewrite (foldUnit_marker m Hm), E in Hin.
  apply (proj1 (Forall_forall _ _) Hmk) in Hin. congruence.
Qed.

Lemma catalog_solid : Forall (fun h => solid (map foldUnit h)) sectionHeaders.
Proof.
  assert (C : forallb (fun h => truthy (map foldUnit h)
                                && forallb (fun c => negb (isMarker c)) (map foldUnit h)
                                && negb (isWhiteSpace (hd 0%N (map foldUnit h)))
                                && negb (isWhiteSpace (last (map foldUnit h) 0%N)))
                      sectionHeaders = true) by (vm_compute; reflexivity).
  apply Forall_forall. intros h Hin.
  pose proof (proj1 (forallb_forall _ _) C h Hin) as Ch.
  apply andb_true_iff in Ch. destruct Ch as [Ch C4].
  apply andb_true_iff in Ch. destruct Ch as [Ch C3].
  apply andb_true_iff in Ch. destruct Ch as [C1 C2].
  split; [|split; [|split]].
  - destruct (map foldUnit h); [discriminate C1 | discriminate].
  - apply Forall_forall. intros c Hc.
    apply (proj1 (forallb_forall _ _) C2) in Hc. apply negb_true_iff, Hc.
  - apply negb_true_iff, C3.
  - apply negb_true_iff, C4.
Qed.

(** The test of a line that holds an item (white space, a dash or bullet,
    white space) sees the text in front of the item and the text behind
    it, and nothing of the item. *)
Lemma headerTest_item (h a ws l : str) (m d : char) :
  In h sectionHeaders ->
  allSpace ws -> isMarker m = true -> isWhiteSpace d = true ->
  headerTest (trim (a ++ ws ++ m :: d :: l)) h
  = (includes (map foldUnit a) (map foldUnit h)
     || includes (map foldUnit l) (map foldUnit h))
    && ordinalPrefix (trimStart a).
Proof.
  intros Hin Hw Hm Hd.
  pose proof (proj1 (Forall_forall _ _) catalog_solid h Hin) as Hs.
  rewrite (headerTest_fold _ h Hin).
  rewrite (includes_item _ a ws l m d Hs Hw Hm Hd).
  rewrite (ordinal_item a ws (d :: l) m Hw Hm).
  rewrite (eqb_item _ a ws (d :: l) m Hs Hm), orb_false_r. reflexivity.
Qed.

Lemma find_ext_in (A : Type) (f g : A -> bool) (l : list A) :
  (forall x, In x l -> f x = g x) -> find f l = find g l.
Proof.
  induction l as [|x l IH]; intros H; [reflexivity|]. simpl.
  rewrite (H x (or_introl eq_refl)), IH; [reflexivity|].
  intros y Hy. apply H. right. exact Hy.
Qed.

(** Rewriting an item of a line leaves the line what it was for the loop. *)
Lemma item_rewritten (a ws l : str) (m d : char) :
  allSpace ws -> isMarker m = true -> isWhiteSpace d = true ->
  matchedHeader (a ++ ws ++ m :: d :: l) = matchedHeader (a ++ [BULLET; SP] ++ l)
  /\ blank (a ++ ws ++ m :: d :: l) = blank (a ++ [BULLET; SP] ++ l).
Proof.
  intros Hw Hm Hd. split.
  - unfold matchedHeader. apply find_ext_in. intros h Hin.
    rewrite (headerTest_item h a ws l m d Hin Hw Hm Hd).
    change (a ++ [BULLET; SP] ++ l) with (a ++ [] ++ BULLET :: SP :: l).
    rewrite (headerTest_item h a [] l BULLET SP Hin); try reflexivity. constructor.
  - assert (B : forall x y z, isMarker y = true -> blank (x ++ y :: z) = false).
    { intros x y z Hy. apply inked_not_blank. apply Exists_app. right.
      apply Exists_cons_hd. apply marker_not_space, Hy. }
    rewrite app_assoc, (B _ m _ Hm).
    symmetry. apply (B a BULLET (SP :: l)). reflexivity.
Qed.

(** *** The bullet pattern on a gentle text *)

Lemma reBullet_some (b : bool) (u : str) (k : nat) :
  reBullet b u = Some k ->
  b = true
  /\ exists ws m d B,
       u = ws ++ m :: d :: B
       /\ allSpace ws /\ isMarker m = true /\ isWhiteSpace d = true.
Proof.
  unfold reBullet. destruct b; [|discriminate].
  destruct (skipn (run isWhiteSpace u) u) as [|m [|d B]] eqn:E; try discriminate.
  destruct (isMarker m && isWhiteSpace d) eqn:C; [|discriminate]. intros _.
  apply andb_true_iff in C. destruct C as [M W].
  split; [reflexivity|].
  exists (firstn (run isWhiteSpace u) u), m, d, B.
  split; [rewrite <- E; symmetry; apply firstn_skipn|].
  split; [apply run_firstn|]. split; assumption.
Qed.

Lemma replaceFrom_drop m r (pre : str) (d : char) (B : str) :
  forall b,
    replaceFrom m r (S (List.length pre)) b (pre ++ d :: B)
    = replaceFrom m r 0 (isLineTerminator d) B.
Proof.
  induction pre as [|p pre IH]; intros b; [reflexivity|].
  cbn [List.length app replaceFrom]. apply IH.
Qed.

Lemma bullet_match (ws : str) (m d : char) (B : str) :
  allSpace ws -> isMarker m = true -> isWhiteSpace d = true ->
  replaceFrom reBullet [BULLET; SP] 0 true (ws ++ m :: d :: B)
  = BULLET :: SP :: replaceFrom reBullet [BULLET; SP] 0 (isLineTerminator d) B.
Proof.
  intros Hw Hm Hd.
  assert (E : reBullet true (ws ++ m :: d :: B) = Some (S (List.length ws))).
  { unfold reBullet.
    rewrite (run_app_stop isWhiteSpace ws m (d :: B) Hw (marker_not_space m Hm)).
    rewrite skipn_app, Nat.sub_diag, skipn_all. cbn [app skipn].
    rewrite Hm, Hd. reflexivity. }
  destruct ws as [|w ws].
  - cbn [app] in *. cbn [replaceFrom]. rewrite E. reflexivity.
  - cbn [app] in *. cbn [replaceFrom]. rewrite E. cbn [app].
    f_equal. f_equal.
    replace (ws ++ m :: d :: B) with ((ws ++ [m]) ++ d :: B)
      by (rewrite <- app_assoc; reflexivity).
    replace (S (List.length (w :: ws))) with (S (List.length (ws ++ [m])))
      by (rewrite length_app; simpl; lia).
    apply replaceFrom_drop.
Qed.

Lemma gentle_app_inv (a b : str) :
  forall mode, gentle mode (a ++ b) -> gentle (fold_left advance a mode) b.
Proof.
  induction a as [|c a IH]; intros mode H; [exact H|].
  destruct H as [_ H]. apply IH, H.
Qed.

Lemma advance_space (mode : Mode) (c : char) :
  isWhiteSpace c = true ->
  match mode with
  | Mid => True
  | Fresh => advance mode c = Fresh
  | Stale => (advance mode c = Stale /\ isLF c = false) \/ advance mode c = Crossed
  | Crossed => advance mode c = Crossed
  end.
Proof.
  intros W. unfold advance. rewrite W.
  destruct mode; destruct (isLF c); auto.
Qed.

Lemma lead_mode (ws : str) :
  allSpace ws ->
  forall mode,
    match mode with
    | Mid => True
    | Fresh => fold_left advance ws mode = Fresh
    | Stale =>
        (fold_left advance ws mode = Stale /\ Forall (fun c => isLF c = false) ws)
        \/ fold_left advance ws mode = Crossed
    | Crossed => fold_left advance ws mode = Crossed
    end.
Proof.
  intros H. induction H as [|c ws Hc _ IH]; intros mode.
  - destruct mode; auto.
  - cbn [fold_left]. pose proof (advance_space mode c Hc) as A.
    destruct mode; [exact I| | |].
    + rewrite A. apply (IH Fresh).
    + destruct A as [[-> L]| ->].
      * destruct (IH Stale) as [[E F]|E]; [left | right; exact E].
        split; [exact E | constructor; assumption].
      * right. apply (IH Crossed).
    + rewrite A. apply (IH Crossed).
Qed.

Lemma advance_terminator (mode : Mode) (c : char) :
  isLineTerminator c = true -> advance mode c <> Mid.
Proof.
  intros T. unfold advance. rewrite (lineTerminator_space c T), T.
  destruct (isLF c), mode; discriminate.
Qed.

Lemma reads_refl (mode : Mode) (x : str) : reads mode x x.
Proof. intros a _. apply readAlike_refl. Qed.

Lemma reads_cons (mode : Mode) (c : char) (x y : str) :
  reads (advance mode c) x y -> reads mode (c :: x) (c :: y).
Proof.
  intros H a Ha. rewrite !split_cons. destruct (isLF c) eqn:L.
  - cbn [onto].
    apply (readAlike_app [a ++ []] [a ++ []] (split x) (split y));
      [apply readAlike_refl|].
    rewrite <- (onto_nil (split x) (split_nonempty x)).
    rewrite <- (onto_nil (split y) (split_nonempty y)).
    apply H. intros _. constructor.
  - rewrite !onto_onto. apply H. intros E.
    unfold advance in E. rewrite L in E.
    destruct (isWhiteSpace c) eqn:W; [|discriminate E].
    destruct mode; try discriminate E.
    + destruct (isLineTerminator c); discriminate E.
    + apply allSpace_app. split; [apply Ha; reflexivity|].
      constructor; [exact W | constructor].
Qed.

Lemma marker_not_LF (c : char) : isMarker c = true -> isLF c = false.
Proof.
  intros M. destruct (isLF c) eqn:L; [|reflexivity].
  apply LF_space in L. rewrite (marker_not_space c M) in L. discriminate L.
Qed.

(** On a gentle text the bullet pattern changes nothing of what the loop
    reads. *)
Lemma bullet_reads (n : nat) :
  forall (s : str) (mode : Mode) (b : bool),
    List.length s <= n ->
    gentle mode s -> (b = true -> mode <> Mid) ->
    reads mode s (replaceFrom reBullet [BULLET; SP] 0 b s).
Proof.
  induction n as [|n IH]; intros s mode b Hn Hg Hb.
  - destruct s; [apply reads_refl | simpl in Hn; lia].
  - destruct s as [|c s]; [apply reads_refl|].
    destruct (reBullet b (c :: s)) as [k|] eqn:E.
    + (* an item is rewritten *)
      destruct (reBullet_some _ _ _ E) as (-> & ws & m & d & B & Es & Hw & Hm & Hd).
      rewrite Es in *. clear E.
      rewrite (bullet_match ws m d B Hw Hm Hd).
      pose proof (gentle_app_inv ws (m :: d :: B) mode Hg) as G.
      cbn [gentle] in G. destruct G as (Gm & _ & GB).
      specialize (Gm Hm).
      assert (Em : advance (fold_left advance ws mode) m = Mid).
      { unfold advance. rewrite (marker_not_LF m Hm), (marker_not_space m Hm). reflexivity. }
      rewrite Em in GB.
      assert (HB : reads (advance Mid d) B
                         (replaceFrom reBullet [BULLET; SP] 0 (isLineTerminator d) B)).
      { apply IH.
        - rewrite length_app in Hn. simpl in Hn. lia.
        - exact GB.
        - apply advance_terminator. }
      set (B' := replaceFrom reBullet [BULLET; SP] 0 (isLineTerminator d) B) in *.
      assert (Hfit : forall p, fits (advance Mid d) p).
      { intros p F. unfold advance in F. rewrite Hd in F.
        destruct (isLF d) eqn:L.
        - exfalso. pose proof (lead_mode ws Hw mode) as M.
          destruct mode.
          + elim (Hb eq_refl). reflexivity.
          + rewrite M in Gm. cbn in Gm. congruence.
          + destruct M as [[M _]|M]; rewrite M in Gm; cbn in Gm; congruence.
          + rewrite M in Gm. cbn in Gm. congruence.
        - destruct (isLineTerminator d); discriminate F. }
      assert (Ld : isLF d = false).
      { pose proof (lead_mode ws Hw mode) as M. destruct mode.
        - elim (Hb eq_refl). reflexivity.
        - rewrite M in Gm. exact Gm.
        - destruct M as [[M _]|M]; rewrite M in Gm; cbn in Gm; [exact Gm | congruence].
        - rewrite M in Gm. cbn in Gm. congruence. }
      assert (Lmd : Forall (fun c => isLF c = false) [m; d]).
      { constructor; [apply marker_not_LF, Hm|]. constructor; [exact Ld | constructor]. }
      intros a Ha.
      change (BULLET :: SP :: B') with ([BULLET; SP] ++ B').
      rewrite (split_app_plain [BULLET; SP] B') by (repeat constructor).
      rewrite onto_onto.
      pose proof (lead_mode ws Hw mode) as M. destruct mode.
      * elim (Hb eq_refl). reflexivity.
      * (* the line is blank up to the item *)
        apply (readAlike_trans _ (split (m :: d :: B)));
          [apply readAlike_lead; [exact Hw | apply Ha; reflexivity]|].
        change (m :: d :: B) with ([m; d] ++ B).
        rewrite (split_app_plain [m; d] B Lmd).
        apply (readAlike_trans _ (onto [m; d] (split B'))); [apply HB, Hfit|].
        apply readAlike_onto. intros l.
        destruct (item_rewritten [] [] l m d (Forall_nil _) Hm Hd) as [I1 I2].
        cbn [app] in I1, I2. cbn [app]. rewrite I1, I2.
        unfold matchedHeader, blank, trim. rewrite <- app_assoc.
        rewrite (trimStart_space_app a _ (Ha eq_refl)). split; reflexivity.
      * (* the item follows a line terminator within its line *)
        destruct M as [[M Lw]|M]; [|rewrite M in Gm; cbn in Gm; congruence].
        replace (ws ++ m :: d :: B) with ((ws ++ [m; d]) ++ B)
          by (rewrite <- app_assoc; reflexivity).
        rewrite (split_app_plain (ws ++ [m; d]) B)
          by (apply Forall_app; split; assumption).
        rewrite onto_onto.
        apply (readAlike_trans _ (onto (a ++ ws ++ [m; d]) (split B')));
          [apply HB, Hfit|].
        apply readAlike_onto. intros l. rewrite <- !app_assoc.
        apply (item_rewritten a ws l m d Hw Hm Hd).
      * rewrite M in Gm. cbn in Gm. congruence.
    + (* nothing is rewritten here *)
      cbn [replaceFrom]. rewrite E. apply reads_cons. apply IH.
      * simpl in Hn. lia.
      * destruct Hg as [_ Hg]. exact Hg.
      * apply advance_terminator.
Qed.

Lemma reHeader_quiet (b : bool) (u : str) : hashQuiet u -> reHeader b u = None.
Proof.
  intros H. unfold reHeader.
  assert (A : forall v, hashQuiet v -> 1 <= run isHash v ->
                        match skipn (run isHash v) v with
                        | w :: _ => isWhiteSpace w = false
                        | [] => False
                        end).
  { clear. induction v as [|c v IH]; intros Hq Hr; [simpl in Hr; lia|].
    simpl in Hr |- *. destruct (isHash c) eqn:Hc; [|simpl in Hr; lia].
    destruct Hq as [Hd Hq]. specialize (Hd Hc). cbn [skipn].
    destruct (run isHash v) as [|r] eqn:R.
    - cbn [skipn]. exact Hd.
    - apply IH; [exact Hq | lia]. }
  destruct (run isHash u) as [|r] eqn:R.
  - cbn [skipn]. destruct u; reflexivity.
  - specialize (A u H). rewrite R in A. specialize (A ltac:(lia)).
    destruct (skipn (S r) u) as [|w t]; [reflexivity|].
    rewrite A, andb_false_r. reflexivity.
Qed.

Lemma hashQuiet_tail (c : char) (u : str) : hashQuiet (c :: u) -> hashQuiet u.
Proof. intros [_ H]. exact H. Qed.

Lemma header_quiet (s : str) : hashQuiet s -> replaceAll reHeader [] s = s.
Proof.
  apply (replaceFrom_id hashQuiet).
  - apply hashQuiet_tail.
  - intros b u. apply reHeader_quiet.
Qed.

(** On a text without asterisks whose hashes and items are harmless, the
    clean-up changes nothing of what the loop reads. *)
Lemma titles_steady (e : str) :
  steady Fresh e ->
  map title (flush (scan (split (cleanContent e))))
  = map title (flush (scan (split e))).
Proof.
  intros (Hs & Hh & Hg). apply readAlike_titles. unfold cleanContent.
  rewrite (bold_id _ Hs), (star_id _ Hs), (header_quiet _ Hh).
  apply (readAlike_trans _ (split (replaceAll reBullet [BULLET; SP] e))).
  - apply readAlike_significant. rewrite significant_trim. apply significant_breaks.
  - apply readAlike_sym.
    pose proof (bullet_reads (List.length e) e Fresh true (le_n _) Hg
                  ltac:(discriminate) [] ltac:(intros _; constructor)) as R.
    rewrite !onto_nil in R by apply split_nonempty. exact R.
Qed.

(** ** The export and its lines *)

Lemma fold_left_append (A : Type) (f : A -> str) (l : list A) (a : str) :
  fold_left (fun acc x => acc ++ f x) l a = a ++ flat_map f l.
Proof.
  revert a. induction l as [|x l IH]; intros a; simpl.
  - rewrite app_nil_r. reflexivity.
  - rewrite IH, app_assoc. reflexivity.
Qed.

Lemma export_parts (plan : GeneratedBusinessPlan) :
  formatBusinessPlanForExport plan
  = exportHeading plan ++ exportRule ++ flat_map exportSection (sections plan).
Proof.
  unfold formatBusinessPlanForExport.
  rewrite (fold_left_append _ exportSection). unfold exportHeading, exportRule.
  rewrite <- !app_assoc. reflexivity.
Qed.

Lemma exportSection_app (sec : BusinessPlanSection) (rest : str) :
  exportSection sec ++ rest
  = title sec ++ LF :: repeat_char DASH (List.length (title sec))
    ++ LF :: LF :: content sec ++ LF :: LF :: rest.
Proof. unfold exportSection, nl. rewrite <- !app_assoc. reflexivity. Qed.

Lemma exportRule_app (rest : str) :
  exportRule ++ rest = LF :: LF :: repeat_char EQUALS 50 ++ LF :: LF :: rest.
Proof. unfold exportRule, nl. rewrite <- !app_assoc. reflexivity. Qed.

Lemma Forall_forallb (f : char -> bool) (s : str) :
  forallb (fun c => negb (f c)) s = true -> Forall (fun c => f c = false) s.
Proof.
  intros H. apply Forall_forall. intros c Hc.
  apply (proj1 (forallb_forall _ _) H) in Hc. destruct (f c); [discriminate | reflexivity].
Qed.

Ltac closed_text := apply Forall_forallb; vm_compute; reflexivity.

Ltac line_title :=
  constructor; [closed_text | closed_text | closed_text | closed_text | vm_compute; lia].

(** What is used of a catalog title: it is matched to itself, the rule under
    it is no header line, and it is fit for the export. *)
Lemma catalog_titles (h : str) :
  In h sectionHeaders ->
  matchedHeader h = Some h
  /\ isHeaderLine (repeat_char DASH (List.length h)) = false
  /\ lineTitle h.
Proof.
  unfold sectionHeaders. simpl.
  intros H.
  repeat (destruct H as [<-|H];
          [split; [reflexivity | split; [vm_compute; reflexivity | line_title]] |]).
  contradiction.
Qed.

Lemma fallbackTitle_facts :
  isHeaderLine fallbackTitle = false
  /\ isHeaderLine (repeat_char DASH (List.length fallbackTitle)) = false
  /\ lineTitle fallbackTitle.
Proof. split; [reflexivity | split; [vm_compute; reflexivity | line_title]]. Qed.

Lemma dashes_facts (n : nat) :
  Forall (fun c => isStar c = false) (repeat_char DASH n)
  /\ Forall (fun c => isHash c = false) (repeat_char DASH n)
  /\ Forall (fun c => isLF c = false) (repeat_char DASH n).
Proof.
  induction n as [|n (H1 & H2 & H3)]; simpl.
  - repeat constructor.
  - repeat split; constructor; try assumption; reflexivity.
Qed.

(** A property of every unit of the export. *)
Lemma export_Forall (P : char -> Prop) (plan : GeneratedBusinessPlan) :
  P LF -> Forall P (repeat_char DASH 1) ->
  Forall P (lit "Industry: ") -> Forall P (lit "Created: ") ->
  Forall P (repeat_char EQUALS 50) ->
  Forall P (planTitle plan) -> Forall P (planIndustry plan) ->
  Forall P (toLocaleDateString (createdAt plan)) ->
  Forall (fun sec => Forall P (title sec) /\ Forall P (content sec)) (sections plan) ->
  Forall P (formatBusinessPlanForExport plan).
Proof.
  intros Hlf Hd Hi Hc He Ht Hin Hdate Hsecs.
  assert (Hnl : Forall P nl) by (repeat constructor; exact Hlf).
  rewrite export_parts. unfold exportHeading, exportRule.
  repeat (apply Forall_app; split); try assumption.
  apply Forall_flat_map. eapply Forall_impl; [|exact Hsecs].
  intros sec [H1 H2]. unfold exportSection.
  repeat (apply Forall_app; split); try assumption.
  inversion Hd as [|? ? Hd' _]; subst.
  clear - Hd'. induction (List.length (title sec)); simpl; constructor; assumption.
Qed.

Lemma calm_LF (rest : str) (ps : bool) : calm true rest -> calm ps (LF :: rest).
Proof. intros H. split; [discriminate | exact H]. Qed.

Lemma exportSections_calm (secs : list BusinessPlanSection) :
  Forall (fun sec => lineTitle (title sec) /\ mute (content sec)) secs ->
  calm true (flat_map exportSection secs).
Proof.
  intros H. induction H as [|sec secs [Ht Hc] _ IH]; simpl; [exact I|].
  destruct Ht as [_ _ Hm _ Hlen].
  rewrite exportSection_app.
  apply calm_app_mute; [apply markerFree_mute, Hm|].
  apply calm_LF, calm_dashes; [exact Hlen|].
  apply calm_LF, calm_app_mute; [exact Hc|].
  apply calm_LF, calm_LF, IH.
Qed.

Lemma export_calm (plan : GeneratedBusinessPlan) :
  mute (planTitle plan) -> mute (planIndustry plan) ->
  mute (toLocaleDateString (createdAt plan)) ->
  Forall (fun sec => lineTitle (title sec) /\ mute (content sec))
         (sections plan) ->
  calm true (formatBusinessPlanForExport plan).
Proof.
  intros Ht Hi Hd Hsecs. rewrite export_parts. unfold exportHeading.
  rewrite <- !app_assoc.
  assert (Hlit : forall s, Forall (fun c => isMarker c = false) s -> mute s)
    by apply markerFree_mute.
  apply calm_app_mute; [exact Ht|].
  apply calm_app_mute; [apply Hlit; closed_text|].
  apply calm_app_mute; [apply Hlit; closed_text|].
  apply calm_app_mute; [exact Hi|].
  apply calm_app_mute; [apply Hlit; closed_text|].
  apply calm_app_mute; [apply Hlit; closed_text|].
  apply calm_app_mute; [exact Hd|].
  apply calm_app_mute; [apply Hlit; closed_text|].
  apply exportSections_calm, Hsecs.
Qed.

(** *** The export of gentle texts is gentle *)

Lemma hashQuiet_app (a b : str) : hashQuiet a -> hashQuiet b -> hashQuiet (a ++ b).
Proof.
  intros Ha Hb. induction a as [|c a IH]; [exact Hb|].
  destruct Ha as [Hc Ha]. cbn [app hashQuiet]. split; [|apply IH, Ha].
  intros H. specialize (Hc H). destruct a; [contradiction | exact Hc].
Qed.

Lemma hashFree_quiet (s : str) : hashFree s -> hashQuiet s.
Proof.
  intros H. induction H as [|c s Hc _ IH]; [exact I|].
  split; [congruence | exact IH].
Qed.

Lemma gentle_app (a b : str) :
  forall mode,
    gentle mode a -> gentle (fold_left advance a mode) b -> gentle mode (a ++ b).
Proof.
  induction a as [|c a IH]; intros mode Ha Hb; [exact Hb|].
  destruct Ha as [Hc Ha]. cbn [app gentle]. split; [|apply IH; assumption].
  intros H. specialize (Hc H).
  destruct mode; [exact I| | |]; (destruct a; [contradiction | exact Hc]).
Qed.

Lemma gentle_plain (t : str) :
  Forall (fun c => isMarker c = false) t -> forall mode, gentle mode t.
Proof.
  intros H. induction H as [|c t Hc _ IH]; intros mode; [exact I|].
  split; [congruence | apply IH].
Qed.

Lemma gentle_LF (rest : str) (mode : Mode) : lineStart rest -> gentle mode (LF :: rest).
Proof.
  intros [Hf Hc]. split; [discriminate|]. destruct mode; assumption.
Qed.

Lemma gentle_then_LF (t rest : str) (mode : Mode) :
  gentle mode t -> lineStart rest -> gentle mode (t ++ LF :: rest).
Proof. intros Ht Hr. apply gentle_app; [exact Ht | apply gentle_LF, Hr]. Qed.

Lemma lineStart_LF (rest : str) : lineStart rest -> lineStart (LF :: rest).
Proof. intros H. split; apply gentle_LF, H. Qed.

Lemma lineStart_plain (t rest : str) :
  Forall (fun c => isMarker c = false) t -> lineStart rest ->
  lineStart (t ++ LF :: rest).
Proof. intros Ht Hr. split; (apply gentle_then_LF; [apply gentle_plain, Ht | exact Hr]). Qed.

Lemma gentle_dashes (n : nat) (rest : str) :
  gentle Fresh rest -> gentle Mid (repeat_char DASH n ++ LF :: rest).
Proof.
  intros H. induction n as [|n IH]; simpl.
  - split; [discriminate | exact H].
  - split; [intros _; exact I | exact IH].
Qed.

Lemma lineStart_dashes (n : nat) (rest : str) :
  2 <= n -> gentle Fresh rest -> lineStart (repeat_char DASH n ++ LF :: rest).
Proof.
  intros Hn H. destruct n as [|[|n]]; try lia.
  split; (split; [intros _; reflexivity | apply (gentle_dashes (S n)), H]).
Qed.

(** A text in front of which a label stands on its line. *)
Lemma lineStart_labelled (label t rest : str) :
  Forall (fun c => isMarker c = false) label ->
  (forall mode, fold_left advance label mode = Mid) ->
  gentle Mid t -> lineStart rest ->
  lineStart (label ++ t ++ LF :: rest).
Proof.
  intros Hl Hm Ht Hr.
  split; (apply gentle_app; [apply gentle_plain, Hl|]); rewrite Hm;
    apply gentle_then_LF; assumption.
Qed.

Lemma exportSections_gentle (secs : list BusinessPlanSection) :
  Forall (fun sec => lineTitle (title sec) /\ gentle Fresh (content sec)) secs ->
  lineStart (flat_map exportSection secs).
Proof.
  intros H. induction H as [|sec secs [Ht Hc] _ IH]; [split; exact I|].
  destruct Ht as [_ _ Hm _ Hlen].
  cbn [flat_map]. rewrite exportSection_app.
  apply lineStart_plain; [exact Hm|].
  apply lineStart_dashes; [exact Hlen|].
  split; [discriminate|]. change (advance Fresh LF) with Fresh.
  apply gentle_then_LF; [exact Hc|]. apply lineStart_LF, IH.
Qed.

Lemma export_gentle (plan : GeneratedBusinessPlan) :
  gentle Fresh (planTitle plan) -> gentle Mid (planIndustry plan) ->
  gentle Mid (toLocaleDateString (createdAt plan)) ->
  Forall (fun sec => lineTitle (title sec) /\ gentle Fresh (content sec))
         (sections plan) ->
  gentle Fresh (formatBusinessPlanForExport plan).
Proof.
  intros Ht Hi Hd Hsecs. rewrite export_parts. unfold exportHeading.
  rewrite <- !app_assoc.
  apply gentle_then_LF; [exact Ht|].
  apply lineStart_labelled; [closed_text | intros []; reflexivity | exact Hi|].
  assert (E : lit "Created: " ++ toLocaleDateString (createdAt plan)
              ++ exportRule ++ flat_map exportSection (sections plan)
              = lit "Created: " ++ toLocaleDateString (createdAt plan)
                ++ LF :: LF :: repeat_char EQUALS 50
                ++ LF :: LF :: flat_map exportSection (sections plan)).
  { rewrite exportRule_app. reflexivity. }
  rewrite E.
  apply lineStart_labelled; [closed_text | intros []; reflexivity | exact Hd|].
  apply lineStart_LF. apply lineStart_plain; [closed_text|].
  apply lineStart_LF. apply exportSections_gentle, Hsecs.
Qed.

Lemma exportSections_hashQuiet (secs : list BusinessPlanSection) :
  Forall (fun sec => lineTitle (title sec) /\ hashQuiet (content sec)) secs ->
  hashQuiet (flat_map exportSection secs).
Proof.
  intros H. induction H as [|sec secs [Ht Hc] _ IH]; [exact I|].
  destruct Ht as [_ Hh _ _ _].
  cbn [flat_map]. unfold exportSection. rewrite <- !app_assoc.
  assert (Hnl : hashQuiet nl) by (split; [discriminate | exact I]).
  repeat (apply hashQuiet_app; [first [ exact Hc | exact Hnl | apply hashFree_quiet, Hh
                                     | apply hashFree_quiet, dashes_facts ]|]).
  exact IH.
Qed.

Lemma export_hashQuiet (plan : GeneratedBusinessPlan) :
  hashQuiet (planTitle plan) -> hashQuiet (planIndustry plan) ->
  hashQuiet (toLocaleDateString (createdAt plan)) ->
  Forall (fun sec => lineTitle (title sec) /\ hashQuiet (content sec))
         (sections plan) ->
  hashQuiet (formatBusinessPlanForExport plan).
Proof.
  intros Ht Hi Hd Hsecs. rewrite export_parts. unfold exportHeading, exportRule.
  rewrite <- !app_assoc.
  assert (Hnl : hashQuiet nl) by (split; [discriminate | exact I]).
  repeat (apply hashQuiet_app;
          [first [ exact Ht | exact Hi | exact Hd | exact Hnl
                 | apply hashFree_quiet; closed_text ]|]).
  apply exportSections_hashQuiet, Hsecs.
Qed.

Lemma exportSections_lines (secs : list BusinessPlanSection) :
  Forall (fun sec => lineTitle (title sec)) secs ->
  split (flat_map exportSection secs) = blockLines (map blockOf secs) ++ [[]].
Proof.
  intros H. induction H as [|sec secs Ht _ IH]; [reflexivity|].
  destruct Ht as [_ _ _ Hline _].
  cbn [flat_map map]. rewrite exportSection_app.
  rewrite split_app_LF, (split_one_line _ Hline).
  rewrite split_app_LF, (split_one_line _ (proj2 (proj2 (dashes_facts _)))).
  cbn [split isLF LF N.eqb Pos.eqb]. rewrite split_app_LF.
  cbn [split isLF LF N.eqb Pos.eqb]. rewrite IH.
  unfold blockLines. cbn [flat_map blockOf headerLine body app].
  rewrite <- !app_assoc. reflexivity.
Qed.

Lemma export_lines (plan : GeneratedBusinessPlan) :
  Forall (fun sec => lineTitle (title sec)) (sections plan) ->
  split (formatBusinessPlanForExport plan)
  = (split (exportHeading plan) ++ [[]; repeat_char EQUALS 50; []])
    ++ blockLines (map blockOf (sections plan)) ++ [[]].
Proof.
  intros H. rewrite export_parts, exportRule_app, split_app_LF.
  cbn [split isLF LF N.eqb Pos.eqb]. rewrite split_app_LF.
  cbn [split isLF LF N.eqb Pos.eqb].
  rewrite (exportSections_lines _ H), <- !app_assoc.
  f_equal.
Qed.

Lemma blockOf_wellFormed (sec : BusinessPlanSection) :
  In (title sec) sectionHeaders -> plainLines (split (content sec)) ->
  wellFormed (blockOf sec) /\ blank (joinLines (body (blockOf sec))) = false.
Proof.
  intros Ht Hc. destruct (catalog_titles _ Ht) as (Hself & Hrule & [_ _ _ _ Hlen]).
  split; [split|].
  - exact Hself.
  - unfold blockOf, plainLines. simpl. constructor; [exact Hrule|].
    constructor; [reflexivity|]. apply Forall_app. split; [exact Hc|].
    repeat constructor.
  - apply inked_not_blank. unfold blockOf. simpl.
    destruct (List.length (title sec)) as [|n]; [lia|].
    apply Exists_cons_hd. reflexivity.
Qed.

Lemma significant_snoc_blank (lines : list str) :
  significant (lines ++ [[]]) = significant lines.
Proof.
  unfold significant. rewrite map_app, filter_app. simpl. apply app_nil_r.
Qed.

(** The export of plain sections under fit titles: the clean-up changes
    nothing of what the loop reads, and the lines are those of the heading,
    of the rule and of the sections. *)
Lemma export_scanned (plan : GeneratedBusinessPlan) :
  steady Fresh (planTitle plan) ->
  steady Mid (planIndustry plan) ->
  steady Mid (toLocaleDateString (createdAt plan)) ->
  Forall (fun sec => lineTitle (title sec) /\ plainSection sec) (sections plan) ->
  map title (flush (scan (split (cleanContent (formatBusinessPlanForExport plan)))))
  = map title
      (flush (scan ((split (exportHeading plan) ++ [[]; repeat_char EQUALS 50; []])
                    ++ blockLines (map blockOf (sections plan))))).
Proof.
  intros (Ts & Th & Tm) (Is & Ih & Im) (Ds & Dh & Dm) Hsecs.
  set (e := formatBusinessPlanForExport plan).
  assert (Hstar : starFree e).
  { apply export_Forall; try assumption; try closed_text; try reflexivity.
    eapply Forall_impl; [|exact Hsecs]. intros sec (Ht & (Hs & _) & _).
    split; [apply (lt_star _ Ht) | exact Hs]. }
  assert (Hhash : hashQuiet e).
  { apply export_hashQuiet; try assumption.
    eapply Forall_impl; [|exact Hsecs]. intros sec (Ht & (_ & Hs & _) & _).
    split; assumption. }
  assert (Hgentle : gentle Fresh e).
  { apply export_gentle; try assumption.
    eapply Forall_impl; [|exact Hsecs]. intros sec (Ht & (_ & _ & Hm) & _).
    split; assumption. }
  assert (Hcat : Forall (fun sec => lineTitle (title sec)) (sections plan)).
  { eapply Forall_impl; [|exact Hsecs]. intros sec [Ht _]. exact Ht. }
  rewrite (titles_steady e (conj Hstar (conj Hhash Hgentle))). unfold e.
  rewrite (export_lines plan Hcat), app_assoc.
  apply titles_significant, significant_snoc_blank.
Qed.

(** *** Texts that are steady *)

Lemma mute_gentle (s : str) : mute s -> forall mode, gentle mode s.
Proof.
  induction s as [|c s IH]; intros H mode; [exact I|].
  destruct H as [Hc H]. split; [|apply IH, H].
  intros M. specialize (Hc M). destruct s as [|d s]; [contradiction|].
  destruct mode; [exact I| | |exact Hc];
    (destruct (isLF d) eqn:L; [apply LF_space in L; congruence | reflexivity]).
Qed.

Lemma quiet_steady (s : str) (mode : Mode) : quiet s -> steady mode s.
Proof.
  intros (Hs & Hh & Hm). split; [exact Hs|].
  split; [apply hashFree_quiet, Hh | apply mute_gentle, Hm].
Qed.

Lemma tidy_gentle (t : str) :
  forall (mode : Mode) (b : bool),
    (b = true /\ (mode = Fresh \/ mode = Stale)) \/ (b = false /\ mode = Mid) ->
    tidy b t -> isMarker (last t SP) = false -> gentle mode t.
Proof.
  induction t as [|c t IH]; intros mode b Hinv Ht Hl; [exact I|].
  destruct Ht as [Hc Ht]. split.
  - intros M. destruct Hinv as [[-> Hm]|[_ ->]]; [|exact I].
    destruct (Hc eq_refl) as [_ Hs]. specialize (Hs M).
    destruct t as [|d t]; [simpl in Hl; congruence|].
    assert (L : isLF d = false).
    { destruct (isLF d) eqn:L; [|reflexivity].
      destruct (Hs (LF_space d L)) as [_ ->]. discriminate L. }
    destruct Hm as [-> | ->]; exact L.
  - apply (IH _ (isLineTerminator c)); [|exact Ht|].
    + unfold advance. destruct Hinv as [[-> Hm]|[-> ->]].
      * destruct (Hc eq_refl) as [W _].
        right. rewrite (not_space_not_terminator c W), W.
        destruct (isLF c) eqn:L; [apply LF_space in L; congruence|].
        split; reflexivity.
      * destruct (isLineTerminator c) eqn:T.
        -- left. split; [reflexivity|]. rewrite (lineTerminator_space c T).
           destruct (isLF c); [left | right]; reflexivity.
        -- right. split; [reflexivity|].
           destruct (isLF c) eqn:L; [apply LF_terminator in L; congruence|].
           destruct (isWhiteSpace c); reflexivity.
    + destruct t as [|d t]; [reflexivity | exact Hl].
Qed.

Lemma settled_steady (t : str) :
  settled t -> hashQuiet t -> isMarker (last t SP) = false -> steady Fresh t.
Proof.
  intros (Hs & Ht & _) Hh Hl. split; [exact Hs|]. split; [exact Hh|].
  apply (tidy_gentle t Fresh true); auto.
Qed.

(** ** Titles and plain prose *)

Lemma joinLines_split (b : str) : joinLines (split b) = b ++ nl.
Proof.
  induction b as [|c b IH]; [reflexivity|]. simpl.
  destruct (isLF c) eqn:L.
  - apply N.eqb_eq in L. subst c. simpl. f_equal. exact IH.
  - destruct (split b) as [|l ls]; [destruct b; discriminate IH|].
    simpl in *. f_equal. exact IH.
Qed.

Lemma plainText_lines (parts : list (str * str)) :
  Forall (fun hb => lineTitle (fst hb)) parts ->
  split (plainText parts) = blockLines (map textBlock parts) ++ [[]].
Proof.
  intros H. induction H as [|[h b] parts Ht _ IH]; [reflexivity|].
  destruct Ht as [_ _ _ Hline _]. simpl in Hline.
  unfold plainText, blockLines. cbn [flat_map map textBlock headerLine body fst snd].
  fold (plainText parts) (blockLines (map textBlock parts)).
  unfold nl. rewrite <- !app_assoc. cbn [app].
  rewrite split_app_LF, (split_one_line _ Hline), split_app_LF, IH.
  rewrite <- ?app_assoc. reflexivity.
Qed.

Lemma plainText_calm (parts : list (str * str)) :
  Forall (fun hb => lineTitle (fst hb) /\ mute (snd hb)) parts ->
  calm true (plainText parts).
Proof.
  intros H. induction H as [|[h b] parts [Ht Hb] _ IH]; [exact I|].
  destruct Ht as [_ _ Hm _ _]. simpl in Hm, Hb.
  unfold plainText. cbn [flat_map fst snd]. fold (plainText parts).
  unfold nl. rewrite <- !app_assoc. cbn [app].
  apply calm_app_mute; [apply markerFree_mute, Hm|].
  apply calm_LF, calm_app_mute; [exact Hb|]. apply calm_LF, IH.
Qed.

Lemma plainText_Forall (P : char -> Prop) (parts : list (str * str)) :
  P LF ->
  Forall (fun hb => Forall P (fst hb) /\ Forall P (snd hb)) parts ->
  Forall P (plainText parts).
Proof.
  intros Hlf H. unfold plainText. apply Forall_flat_map.
  eapply Forall_impl; [|exact H]. intros hb [H1 H2].
  repeat (apply Forall_app; split); try assumption; repeat constructor; exact Hlf.
Qed.

Lemma textBlock_wellFormed (hb : str * str) :
  In (fst hb) sectionHeaders -> prose (snd hb) ->
  wellFormed (textBlock hb) /\ blank (joinLines (body (textBlock hb))) = false.
Proof.
  intros Hin (_ & Hplain & Hink). split; [split|].
  - apply (catalog_titles _ Hin).
  - exact Hplain.
  - unfold textBlock. simpl. rewrite joinLines_split, blank_app, Hink. reflexivity.
Qed.

(** The sections the loop emits never have empty content. *)
Lemma emitted_content (s : str) :
  Forall (fun sec => content sec <> []) (flush (scan (split (cleanContent s)))).
Proof.
  destruct (lines_decompose (split (cleanContent s))) as (pre & bs & E & Hpre & Hbs).
  rewrite E, (flush_scan_blocks pre bs Hpre Hbs).
  apply (sectionsOf_content s pre bs E).
Qed.

(** Titles of the catalog, each on a line of its own and followed by plain
    prose, are read as one section each. *)
Lemma parse_plainText (parts : list (str * str)) :
  parts <> [] ->
  Forall (fun hb => In (fst hb) sectionHeaders /\ prose (snd hb)) parts ->
  map title (parseBusinessPlanSections (plainText parts)) = map fst parts
  /\ Forall (fun sec => content sec <> []) (parseBusinessPlanSections (plainText parts)).
Proof.
  intros Hne H. set (s := plainText parts).
  assert (Hfit : Forall (fun hb => lineTitle (fst hb)) parts).
  { eapply Forall_impl; [|exact H]. intros hb [Hin _]. apply (catalog_titles _ Hin). }
  assert (Hstar : starFree s).
  { apply plainText_Forall; [reflexivity|]. eapply Forall_impl; [|exact H].
    intros hb (Hin & (Hs & _) & _).
    split; [apply (lt_star _ (proj2 (proj2 (catalog_titles _ Hin)))) | exact Hs]. }
  assert (Hhash : hashFree s).
  { apply plainText_Forall; [reflexivity|]. eapply Forall_impl; [|exact H].
    intros hb (Hin & (_ & Hs & _) & _).
    split; [apply (lt_hash _ (proj2 (proj2 (catalog_titles _ Hin)))) | exact Hs]. }
  assert (Hcalm : calm true s).
  { apply plainText_calm. eapply Forall_impl; [|exact H].
    intros hb (Hin & (_ & _ & Hm) & _).
    split; [apply (catalog_titles _ Hin) | exact Hm]. }
  set (bs := map textBlock parts).
  assert (Hwf : Forall wellFormed bs
                /\ Forall (fun b => blank (joinLines (body b)) = false) bs).
  { unfold bs. split; apply Forall_map; (eapply Forall_impl; [|exact H]);
      intros hb [Hin Hp]; apply (textBlock_wellFormed hb Hin Hp). }
  destruct Hwf as [Hwf Hink].
  assert (E : map title (flush (scan (split (cleanContent s)))) = map fst parts).
  { rewrite (titles_cleaned s Hstar Hhash Hcalm). unfold s.
    rewrite (plainText_lines parts Hfit). fold bs.
    rewrite (titles_significant _ _ (significant_snoc_blank (blockLines bs))).
    pose proof (flush_scan_blocks [] bs (Forall_nil _) Hwf) as F.
    cbn [app] in F. rewrite F, (sectionsOf_all bs Hink).
    unfold bs. rewrite !map_map. reflexivity. }
  pose proof (emitted_content s) as Hc.
  unfold parseBusinessPlanSections. fold s.
  destruct (flush (scan (split (cleanContent s)))) as [|x xs].
  - destruct parts; [congruence | discriminate E].
  - split; assumption.
Qed.

(** ** The prompt builder *)

Ltac locate :=
  first [ apply includes_here2 | apply includes_here | apply includes_skip; locate ].

Tactic Notation "embedded" constr(dashed) constr(label) :=
  unfold embeds, createBusinessPlanPrompt;
  change (lit dashed) with (lit "- "%string ++ lit label);
  rewrite <- ?app_assoc; split; locate.

(** C8: whatever the profile, the prompt contains each of the eight fields
    (business name, industry, business type, location, target audience,
    unique value proposition, revenue model, goals) as its label followed by
    the literal value of the field; in particular every non-empty value is a
    substring of the prompt. *)
Theorem prompt_embeds_every_field (input : BusinessPlanInput) :
  let prompt := createBusinessPlanPrompt input in
  embeds prompt "Business Name: " (businessName input)
  /\ embeds prompt "Industry: " (industry input)
  /\ embeds prompt "Business Type: " (businessType input)
  /\ embeds prompt "Location: " (location input)
  /\ embeds prompt "Target Audience: " (targetAudience input)
  /\ embeds prompt "Unique Value Proposition: " (uniqueValue input)
  /\ embeds prompt "Revenue Model: " (revenueModel input)
  /\ embeds prompt "Goals: " (goals input).
Proof.
  intros prompt. subst prompt.
  repeat match goal with |- _ /\ _ => split end.
  - embedded "- Business Name: "%string "Business Name: "%string.
  - embedded "- Industry: "%string "Industry: "%string.
  - embedded "- Business Type: "%string "Business Type: "%string.
  - embedded "- Location: "%string "Location: "%string.
  - embedded "- Target Audience: "%string "Target Audience: "%string.
  - embedded "- Unique Value Proposition: "%string "Unique Value Proposition: "%string.
  - embedded "- Revenue Model: "%string "Revenue Model: "%string.
  - embedded "- Goals: "%string "Goals: "%string.
Qed.

(** ** Header recognition *)

(** C1: a line is taken as a section header exactly when, for one of the ten
    catalog titles, the line without the white space at its ends contains the
    title up to case and either starts with one or more digits and a period
    or is the title up to case (a unit being a letter of the title up to
    case when it is that letter, small or capital, or the Kelvin sign for a
    k, as [toLowerCase] has it).  The loop then opens a section for a header
    line and appends any other line to the open content; a line that has
    neither shape is not a header, whatever it mentions. *)
Theorem header_recognition (line : str) (st : ParseState) :
  trimmedOf line (trim line)
  /\ (isHeaderLine line = true <->
      exists header,
        In header sectionHeaders
        /\ mentions (trim line) header
        /\ (ordinalShaped (trim line) \/ upToCase (trim line) header))
  /\ (isHeaderLine line = true ->
      exists header,
        In header sectionHeaders
        /\ step st line = {| emitted := flush st; currentSection := header;
                             currentContent := [] |})
  /\ (isHeaderLine line = false ->
      step st line = {| emitted := emitted st;
                        currentSection := currentSection st;
                        currentContent := currentContent st ++ line ++ nl |})
  /\ (~ ordinalShaped (trim line) ->
      (forall header, In header sectionHeaders -> ~ upToCase (trim line) header) ->
      isHeaderLine line = false).
Proof.
  split; [apply trim_trimmedOf|].
  split; [apply isHeaderLine_spec|]. split; [|split].
  - intros H. apply isHeaderLine_true in H. destruct H as [h H]. exists h. split.
    + unfold matchedHeader in H. apply find_some in H. tauto.
    + apply step_header. exact H.
  - apply step_plain.
  - intros Hord Hne. destruct (isHeaderLine line) eqn:E; [|reflexivity].
    apply isHeaderLine_spec in E. destruct E as [h (Hin & _ & [Ho|He])].
    + contradiction.
    + elim (Hne h Hin He).
Qed.

(** A title mentioned in prose does not make a header. *)
Example prose_mention_is_no_header :
  isHeaderLine (lit "Our executive summary follows the market analysis.") = false.
Proof. vm_compute. reflexivity. Qed.

(** The Kelvin sign is a k for [toLowerCase]: a numbered title written with
    it is a header line. *)
Example kelvin_sign_in_title :
  matchedHeader (lit "1. Mar" ++ [KELVIN] ++ lit "et Analysis") = Some (lit "Market Analysis").
Proof. vm_compute. reflexivity. Qed.

(** ** The fallback section *)

Lemma plainLines_forallb (lines : list str) :
  forallb (fun l => negb (isHeaderLine l)) lines = true -> plainLines lines.
Proof.
  intros H. apply Forall_forall. intros l Hl.
  apply (proj1 (forallb_forall _ _) H) in Hl. destruct (isHeaderLine l); [discriminate|reflexivity].
Qed.

Ltac quiet_text :=
  split; [closed_text | split; [closed_text|]];
  vm_compute; repeat split; intros; first [discriminate | reflexivity | exact I].

Ltac plain_lines := apply plainLines_forallb; vm_compute; reflexivity.

(** C2: when no line of the cleaned text is a header line, the parser
    returns exactly one section, titled 'Business Plan', whose content is the
    whole normalised input.  The normalised input is in normal form (no
    asterisk, no white space at either end, no empty line, nothing left for
    the content normalisation to do) and holds the wording of the input,
    that is, all its units other than white space, asterisks, hashes, dashes
    and bullets, in their order; it is the input itself when that is in
    normal form already and has no hash.  So the text
    'Some unrelated musings with no headers at all.' is returned as it is,
    and a text with a markdown heading, emphasis, a run of line breaks, an
    indented dashed item and trailing white space is returned with all of
    them normalised. *)
Theorem no_header_gives_fallback :
  (forall s : str,
      plainLines (split (cleanContent s)) ->
      parseBusinessPlanSections s
      = [{| title := lit "Business Plan"; content := normalize s |}])
  /\ (forall s : str,
         normalForm (normalize s) /\ wording (normalize s) = wording s)
  /\ (forall s : str, settled s -> hashFree s -> normalize s = s)
  /\ parseBusinessPlanSections musings
     = [{| title := lit "Business Plan";
           content := lit "Some unrelated musings with no headers at all." |}]
  /\ parseBusinessPlanSections markedHeading
     = [{| title := lit "Business Plan";
           content := lit "Our plan" ++ nl ++ [BULLET; SP] ++ lit "first" ++ nl
                      ++ lit "second" |}].
Proof.
  split; [|split; [|split; [|split]]].
  - intros s H. unfold parseBusinessPlanSections.
    rewrite (flush_scan_plain _ H). reflexivity.
  - intros s. split.
    + apply formatSectionContent_normalForm.
    + apply normalize_wording.
  - intros s Hs Hh. unfold normalize.
    rewrite (cleanContent_fix s Hs (header_id s Hh)). apply formatSectionContent_fix, Hs.
  - vm_compute. reflexivity.
  - vm_compute. reflexivity.
Qed.

(** A title written with the Kelvin sign is a header line all the same. *)
Example kelvin_title_opens_section :
  parseBusinessPlanSections
    (lit "Ris" ++ [KELVIN] ++ lit " Analysis" ++ nl ++ lit "Fire and flood.")
  = [{| title := lit "Risk Analysis"; content := lit "Fire and flood." |}].
Proof. vm_compute. reflexivity. Qed.

Lemma no_header_gives_fallback_witness :
  plainLines (split (cleanContent musings))
  /\ parseBusinessPlanSections musings
     = [{| title := lit "Business Plan"; content := normalize musings |}].
Proof.
  assert (H : plainLines (split (cleanContent musings))).
  { apply plainLines_forallb. vm_compute. reflexivity. }
  split; [exact H | exact (proj1 no_header_gives_fallback musings H)].
Defined.

(** ** Totality *)

(** C7: on every input the parser returns at least one section: the sections
    the loop emitted when there are any, and otherwise the single fallback
    section; the latter is what the empty string gives, and what a text
    gives whose headers are followed by blank content only. *)
Theorem parser_total (s : str) :
  1 <= List.length (parseBusinessPlanSections s)
  /\ (parseBusinessPlanSections s = [fallbackSection s]
      \/ (parseBusinessPlanSections s = flush (scan (split (cleanContent s)))
          /\ flush (scan (split (cleanContent s))) <> []))
  /\ parseBusinessPlanSections [] = [{| title := lit "Business Plan"; content := [] |}]
  /\ parseBusinessPlanSections
       (lit "1. Executive Summary" ++ nl ++ nl ++ lit "2. Market Analysis" ++ nl ++ lit "   ")
     = [{| title := lit "Business Plan";
           content := lit "1. Executive Summary" ++ nl ++ lit "2. Market Analysis" |}].
Proof.
  split; [|split; [|split]].
  - destruct (parse_cases s) as [[_ ->]|[Hne ->]].
    + simpl. lia.
    + destruct (flush (scan (split (cleanContent s)))); [congruence | simpl; lia].
  - destruct (parse_cases s) as [[_ ->]|[Hne ->]]; auto.
  - vm_compute. reflexivity.
  - vm_compute. reflexivity.
Qed.

(** ** Scenarios *)

(** C9: the two-section scenario of the specification. *)
Theorem scenario_two_sections :
  parseBusinessPlanSections
    (lit "1. Executive Summary" ++ nl ++ lit "We sell widgets." ++ nl ++ nl
     ++ lit "2. Market Analysis" ++ nl ++ lit "Growing market." ++ nl)
  = [ {| title := lit "Executive Summary"; content := lit "We sell widgets." |};
      {| title := lit "Market Analysis"; content := lit "Growing market." |} ].
Proof. vm_compute. reflexivity. Qed.

(** ** Text in front of the first header *)

Lemma wellFormed_dec (b : Block) :
  match matchedHeader (headerLine b) with
  | Some h => str_eqb h (blockTitle b)
  | None => false
  end = true ->
  forallb (fun l => negb (isHeaderLine l)) (body b) = true ->
  wellFormed b.
Proof.
  intros Hh Hb. split.
  - destruct (matchedHeader (headerLine b)) as [h|]; [|discriminate].
    apply str_eqb_eq in Hh. congruence.
  - apply plainLines_forallb. exact Hb.
Qed.

Ltac block_ok := apply wellFormed_dec; vm_compute; reflexivity.

(** C10, as the claim states it, fails: with a header recognised but no
    section emitted, the fallback section holds the whole text, the line in
    front of the header included. *)
Lemma preamble_kept_by_fallback :
  split (cleanContent introThenBareHeader) = [lit "Intro"; lit "Executive Summary"]
  /\ isHeaderLine (lit "Intro") = false
  /\ isHeaderLine (lit "Executive Summary") = true
  /\ parseBusinessPlanSections introThenBareHeader
     = [{| title := lit "Business Plan";
           content := lit "Intro" ++ nl ++ lit "Executive Summary" |}]
  /\ Exists (fun sec => includes (content sec) (lit "Intro") = true)
            (parseBusinessPlanSections introThenBareHeader).
Proof.
  repeat match goal with |- _ /\ _ => split end; try (vm_compute; reflexivity).
  apply Exists_cons_hd. vm_compute. reflexivity.
Qed.

(** C10, amended: when the cleaned text is some lines without a header
    followed by blocks (a header line and the lines up to the next header
    line) of which at least one has a body that is not blank, the output is
    made of the blocks alone, one section for each block whose body is not
    blank: it is the output of the loop on the text from the first header
    line on, and the lines in front of it are in no section. *)
Theorem preamble_discarded (s : str) (pre : list str) (bs : list Block) :
  split (cleanContent s) = pre ++ blockLines bs ->
  plainLines pre ->
  Forall wellFormed bs ->
  Exists (fun b => blank (joinLines (body b)) = false) bs ->
  parseBusinessPlanSections s = sectionsOf bs
  /\ parseBusinessPlanSections s = flush (scan (blockLines bs)).
Proof.
  intros Hs Hpre Hbs Hne. apply sectionsOf_some in Hne.
  rewrite (parse_blocks s pre bs Hs Hpre Hbs Hne). split; [reflexivity|].
  symmetry. apply (flush_scan_blocks [] bs); [constructor | exact Hbs].
Qed.

Lemma preamble_discarded_witness :
  parseBusinessPlanSections introThenSection
  = [{| title := lit "Executive Summary"; content := lit "We sell widgets." |}].
Proof.
  pose (b := {| headerLine := lit "Executive Summary";
                blockTitle := lit "Executive Summary";
                body := [lit "We sell widgets."] |}).
  assert (Hs : split (cleanContent introThenSection) = [lit "Intro"] ++ blockLines [b])
    by (vm_compute; reflexivity).
  assert (Hpre : plainLines [lit "Intro"])
    by (apply plainLines_forallb; vm_compute; reflexivity).
  assert (Hb : Forall wellFormed [b]) by (repeat constructor; block_ok).
  assert (Hne : Exists (fun b => blank (joinLines (body b)) = false) [b])
    by (apply Exists_cons_hd; vm_compute; reflexivity).
  rewrite (proj1 (preamble_discarded introThenSection [lit "Intro"] [b] Hs Hpre Hb Hne)).
  vm_compute. reflexivity.
Defined.

(** ** Repeated headers *)

(** C6, as the claim states it, fails: content that is not empty but is
    blank once cleaned (asterisks only, or spaces only) does not make a
    section, so a title recognised twice can give one section. *)
Lemma repeated_header_one_section :
  map isHeaderLine (split repeatedOverStars) = [true; false; true; false]
  /\ parseBusinessPlanSections repeatedOverStars
     = [{| title := lit "Market Analysis"; content := lit "Still growing." |}]
  /\ map isHeaderLine (split repeatedOverSpaces) = [true; false; true; false]
  /\ parseBusinessPlanSections repeatedOverSpaces
     = [{| title := lit "Market Analysis"; content := lit "Still growing." |}].
Proof. repeat split; vm_compute; reflexivity. Qed.

(** C6, amended: the cleaned text being some lines without a header followed by
    blocks, each a recognised header line and the lines up to the next one,
    the parser returns one section for each block whose content is not
    blank, in the order of the header lines in the text: two blocks with the
    same title give two sections, and the order is that of the text, not of
    the catalog.  Every cleaned text is of that form; and a text made of
    catalog titles, in any order and with repetitions, each on a line of its
    own and followed by plain prose, gives one section for each of them, in
    the order of the text. *)
Theorem repeated_headers_not_merged :
  (forall (s : str) (pre : list str) (bs : list Block),
      split (cleanContent s) = pre ++ blockLines bs ->
      plainLines pre ->
      Forall wellFormed bs ->
      Exists (fun b => blank (joinLines (body b)) = false) bs ->
      parseBusinessPlanSections s
      = map sectionOf (filter (fun b => negb (blank (joinLines (body b)))) bs)
      /\ (Forall (fun b => blank (joinLines (body b)) = false) bs ->
          parseBusinessPlanSections s = map sectionOf bs
          /\ map title (parseBusinessPlanSections s) = map blockTitle bs
          /\ List.length (parseBusinessPlanSections s) = List.length bs))
  /\ (forall s : str, exists pre bs,
         split (cleanContent s) = pre ++ blockLines bs
         /\ plainLines pre /\ Forall wellFormed bs)
  /\ (forall parts : list (str * str),
         parts <> [] ->
         Forall (fun hb => In (fst hb) sectionHeaders /\ prose (snd hb)) parts ->
         map title (parseBusinessPlanSections (plainText parts)) = map fst parts).
Proof.
  split; [|split].
  - intros s pre bs Hs Hpre Hbs Hne.
    assert (E : parseBusinessPlanSections s = sectionsOf bs).
    { apply (parse_blocks s pre bs Hs Hpre Hbs), sectionsOf_some, Hne. }
    rewrite E. split; [apply sectionsOf_filter|].
    intros Hall. rewrite (sectionsOf_all bs Hall). split; [reflexivity|]. split.
    + rewrite map_map. reflexivity.
    + apply length_map.
  - intros s. apply lines_decompose.
  - intros parts Hne H. apply (parse_plainText parts Hne H).
Qed.

Lemma repeated_headers_not_merged_witness :
  map title (parseBusinessPlanSections repeatedHeading)
  = [lit "Market Analysis"; lit "Executive Summary"; lit "Market Analysis"].
Proof.
  pose (bs := [ {| headerLine := lit "Market Analysis";
                   blockTitle := lit "Market Analysis";
                   body := [lit "Growing market."] |};
                {| headerLine := lit "Executive Summary";
                   blockTitle := lit "Executive Summary";
                   body := [lit "We sell widgets."] |};
                {| headerLine := lit "Market Analysis";
                   blockTitle := lit "Market Analysis";
                   body := [lit "Still growing."] |} ]).
  assert (Hs : split (cleanContent repeatedHeading) = [] ++ blockLines bs)
    by (vm_compute; reflexivity).
  assert (Hb : Forall wellFormed bs) by (repeat constructor; block_ok).
  assert (Hall : Forall (fun b => blank (joinLines (body b)) = false) bs)
    by (repeat constructor).
  assert (Hne : Exists (fun b => blank (joinLines (body b)) = false) bs)
    by (apply Exists_cons_hd; reflexivity).
  exact (proj1 (proj2 (proj2 (proj1 repeated_headers_not_merged repeatedHeading
                                 [] bs Hs (Forall_nil _) Hb Hne) Hall))).
Defined.

(** ** The ten catalog sections *)

Lemma catalog_self : Forall (fun h => matchedHeader h = Some h) sectionHeaders.
Proof. repeat constructor. Qed.

Lemma catalogBlocks_wellFormed (bodies : list (list str)) :
  Forall plainLines bodies -> Forall wellFormed (catalogBlocks bodies).
Proof.
  unfold catalogBlocks. generalize catalog_self. generalize sectionHeaders as hs.
  intros hs Hhs Hb. revert hs Hhs.
  induction Hb as [|b bodies Hb _ IH]; intros hs Hhs.
  - destruct hs; constructor.
  - destruct Hhs as [|h hs Hh Hhs]; simpl; constructor.
    + split; assumption.
    + apply IH. exact Hhs.
Qed.

(** C3, as the claim states it, fails: the clean-up can empty the prose
    behind a title (a line of asterisks), and the section is then dropped;
    and it can take a title off its line (prose ending in a hash, whose line
    break goes with the hash).  Either way nine sections are returned. *)
Lemma ten_titles_nine_sections :
  map title (parseBusinessPlanSections (tenPlan (lit "***")))
  = tl sectionHeaders
  /\ map title (parseBusinessPlanSections (tenPlan (lit "We build in C#")))
     = hd [] sectionHeaders :: tl (tl sectionHeaders)
  /\ hd_error (parseBusinessPlanSections (tenPlan (lit "We build in C#")))
     = Some {| title := lit "Executive Summary";
               content := lit "We build in CCompany Description" ++ nl
                          ++ lit "More text." |}.
Proof. vm_compute. repeat split. Qed.

(** C3, amended: when the cleaned text consists of the ten catalog titles in
    catalog order, each on a line of its own and followed by lines that are
    not header lines and not all blank, the parser returns exactly ten
    sections, titled by the catalog in its order, each with content that is
    not empty.  So it is for every input made of the ten catalog titles in
    catalog order, each on a line of its own and followed by plain prose: a
    text that is not blank, holds no asterisk, no hash and no dash or bullet
    followed by white space or ending the text, and has no header line. *)
Theorem ten_sections_in_catalog_order :
  (forall (s : str) (bodies : list (list str)),
      List.length bodies = 10 ->
      split (cleanContent s) = blockLines (catalogBlocks bodies) ->
      Forall (fun lines => plainLines lines /\ blank (joinLines lines) = false) bodies ->
      catalogOrdered (parseBusinessPlanSections s))
  /\ (forall texts : list str,
         List.length texts = 10 ->
         Forall prose texts ->
         catalogOrdered (parseBusinessPlanSections (tenText texts))).
Proof.
  split.
  - intros s bodies Hlen Hs Hbodies.
    assert (Hplain : Forall plainLines bodies).
    { eapply Forall_impl; [|exact Hbodies]. intros b [H _]. exact H. }
    assert (Hwf := catalogBlocks_wellFormed bodies Hplain).
    assert (Hink : Forall (fun b => blank (joinLines (body b)) = false)
                          (catalogBlocks bodies)).
    { unfold catalogBlocks. apply Forall_map. apply Forall_forall.
      intros [h b] Hin. simpl. apply in_combine_r in Hin.
      rewrite Forall_forall in Hbodies. apply (Hbodies b Hin). }
    assert (Htitles : map blockTitle (catalogBlocks bodies) = sectionHeaders).
    { do 11 (destruct bodies as [|? bodies]; try discriminate Hlen). reflexivity. }
    assert (E : parseBusinessPlanSections s = map sectionOf (catalogBlocks bodies)).
    { rewrite <- (sectionsOf_all _ Hink).
      apply (parse_blocks s [] _ Hs (Forall_nil _) Hwf).
      rewrite (sectionsOf_all _ Hink).
      destruct (catalogBlocks bodies); [discriminate Htitles | discriminate]. }
    rewrite E. split; [|split].
    + rewrite length_map, <- (length_map blockTitle), Htitles. reflexivity.
    + rewrite map_map. exact Htitles.
    + rewrite <- (sectionsOf_all _ Hink). apply (sectionsOf_content s [] _ Hs).
  - intros texts Hlen Htexts. unfold tenText.
    assert (Hfst : map fst (combine sectionHeaders texts) = sectionHeaders).
    { do 11 (destruct texts as [|? texts]; try discriminate Hlen). reflexivity. }
    assert (Hparts : Forall (fun hb => In (fst hb) sectionHeaders /\ prose (snd hb))
                            (combine sectionHeaders texts)).
    { apply Forall_forall. intros [h b] Hin. simpl. split.
      - apply (in_combine_l _ _ _ _ Hin).
      - rewrite Forall_forall in Htexts. apply Htexts, (in_combine_r _ _ _ _ Hin). }
    assert (Hne : combine sectionHeaders texts <> []).
    { intros Hnil. rewrite Hnil in Hfst. discriminate Hfst. }
    destruct (parse_plainText _ Hne Hparts) as [Ht Hc]. rewrite Hfst in Ht.
    split; [|split; assumption].
    rewrite <- (length_map title), Ht. reflexivity.
Qed.

Lemma ten_sections_in_catalog_order_witness :
  map title (parseBusinessPlanSections (tenPlan (lit "We sell investor-ready widgets.")))
  = sectionHeaders.
Proof.
  assert (Hlen : List.length (lit "We sell investor-ready widgets."
                              :: List.repeat (lit "More text.") 9) = 10)
    by reflexivity.
  assert (Hp : forall b, b = lit "We sell investor-ready widgets."
                         \/ b = lit "More text." -> prose b).
  { intros b [->| ->]; (split; [quiet_text | split; [plain_lines | reflexivity]]). }
  assert (Hb : Forall prose (lit "We sell investor-ready widgets."
                             :: List.repeat (lit "More text.") 9)).
  { cbn [List.repeat]. repeat (apply Forall_cons; [apply Hp; auto|]).
    apply Forall_nil. }
  exact (proj1 (proj2 (proj2 ten_sections_in_catalog_order _ Hlen Hb))).
Defined.

(** ** Idempotence of the normalisation *)

(** C5, as the claim states it, fails: [/#{1,6}\s/] takes the last six of
    seven hashes and one space, and the hash and space that remain are a
    header marker for the next pass. *)
Lemma normalize_not_idempotent :
  normalize sevenHashes = lit "# x"
  /\ normalize (normalize sevenHashes) = lit "x"
  /\ normalize (normalize sevenHashes) <> normalize sevenHashes.
Proof.
  split; [vm_compute; reflexivity|]. split; [vm_compute; reflexivity|].
  vm_compute. discriminate.
Qed.

(** C5, amended: the normalisation of section content (strip emphasis
    markers, canonicalise bullet markers, collapse three or more line breaks
    to two, strip the leading white space of each line, trim) is idempotent
    on every string; and normalising the already-normalised input returns
    it unchanged whenever the header-marker step finds nothing to strip in
    it, in particular for every input without a hash. *)
Theorem normalization_idempotent :
  (forall s : str,
      formatSectionContent (formatSectionContent s) = formatSectionContent s)
  /\ (forall s : str,
         replaceAll reHeader [] (normalize s) = normalize s ->
         normalize (normalize s) = normalize s)
  /\ (forall s : str, hashFree s -> normalize (normalize s) = normalize s).
Proof.
  assert (A : forall s, replaceAll reHeader [] (normalize s) = normalize s ->
                        normalize (normalize s) = normalize s).
  { intros s Hh. unfold normalize at 1.
    pose proof (formatSectionContent_settled (cleanContent s)) as Hset.
    fold (normalize s) in Hset.
    rewrite (cleanContent_fix _ Hset Hh). apply formatSectionContent_fix, Hset. }
  split; [|split].
  - intros s. apply formatSectionContent_fix, formatSectionContent_settled.
  - exact A.
  - intros s Hs. apply A. apply header_id. unfold normalize.
    apply formatSectionContent_hashFree, cleanContent_hashFree, Hs.
Qed.

Lemma normalization_idempotent_witness :
  hashFree markedUp
  /\ normalize markedUp = lit "Plan" ++ nl ++ [BULLET; SP] ++ lit "first" ++ nl ++ lit "second"
  /\ normalize (normalize markedUp) = normalize markedUp.
Proof.
  assert (H : hashFree markedUp) by (vm_compute; repeat constructor).
  split; [exact H|]. split; [vm_compute; reflexivity|].
  exact (proj2 (proj2 normalization_idempotent) markedUp H).
Defined.

(** ** Export and re-parse *)

(** C4, as the claim states it, fails: a line of a section's content that
    has the shape of a header is read as a header when the export is parsed,
    and the re-parsed plan has a section more. *)
Lemma reparse_adds_section :
  map title (sections editedPlan) = [lit "Executive Summary"]
  /\ map title (parseBusinessPlanSections (formatBusinessPlanForExport editedPlan))
     = [lit "Executive Summary"; lit "Market Analysis"]
  /\ map title (parseBusinessPlanSections (formatBusinessPlanForExport editedPlan))
     <> map title (sections editedPlan).
Proof.
  split; [reflexivity|]. split; [vm_compute; reflexivity|].
  vm_compute. discriminate.
Qed.

(** Nor do the plans the generator itself makes all survive: a hash left by
    the clean-up in front of a title is stripped by the next clean-up. *)
Example reparse_of_generated_plan :
  map title (sections hashedPlan) = [lit "Business Plan"]
  /\ map title (parseBusinessPlanSections (formatBusinessPlanForExport hashedPlan))
     = [lit "Risk Analysis"].
Proof. split; vm_compute; reflexivity. Qed.

(** C4, amended: for every plan whose sections are either one or more
    sections under catalog titles or the single fallback section; whose
    title, industry, rendered date and section contents hold no asterisk, no
    hash followed by white space or ending the text, and no dash or bullet
    that only white space separates from the start of its line and that a
    line feed follows or that ends the text (nor, where that white space
    follows a CR, LS or PS in the middle of a line and holds a line feed,
    one followed by any white space); and in which no line of the heading
    and of the contents is a header line: parsing the export yields sections
    whose titles are those of the plan, in the same order.  Such are the
    texts without asterisk, hash and dash or bullet in front of white space,
    and the contents [formatSectionContent] writes, items under its bullet
    included, when their hashes are followed by units that are not white
    space and their last unit is no dash or bullet. *)
Theorem export_reparse_titles :
  (forall plan : GeneratedBusinessPlan,
      steady Fresh (planTitle plan) ->
      steady Mid (planIndustry plan) ->
      steady Mid (toLocaleDateString (createdAt plan)) ->
      plainLines (split (exportHeading plan)) ->
      catalogSections (sections plan) \/ fallbackOnly (sections plan) ->
      map title (parseBusinessPlanSections (formatBusinessPlanForExport plan))
      = map title (sections plan))
  /\ (forall (t : str) (mode : Mode), quiet t -> steady mode t)
  /\ (forall t : str,
         settled t -> hashQuiet t -> isMarker (last t SP) = false -> steady Fresh t).
Proof.
  split; [|split; [intros t mode; apply quiet_steady | apply settled_steady]].
  intros plan Ht Hi Hd Hhead Hsecs.
  set (e := formatBusinessPlanForExport plan).
  set (pre := split (exportHeading plan) ++ [[]; repeat_char EQUALS 50; []]).
  assert (Hpre : plainLines pre).
  { apply Forall_app. split; [exact Hhead|]. repeat constructor. }
  unfold parseBusinessPlanSections. fold e.
  destruct Hsecs as [[Hne Hcat]|(sec & Es & Hfb & Hplain)].
  - (* sections under catalog titles: each is read back as a block *)
    assert (Hfit : Forall (fun sec => lineTitle (title sec) /\ plainSection sec)
                          (sections plan)).
    { eapply Forall_impl; [|exact Hcat]. intros sec [Hin Hp].
      split; [apply (catalog_titles _ Hin) | exact Hp]. }
    set (bs := map blockOf (sections plan)).
    assert (Hwf : Forall wellFormed bs
                  /\ Forall (fun b => blank (joinLines (body b)) = false) bs).
    { unfold bs. split; apply Forall_map; (eapply Forall_impl; [|exact Hcat]);
        intros sec (Hin & _ & Hc); apply (blockOf_wellFormed sec Hin Hc). }
    destruct Hwf as [Hwf Hink].
    assert (E : map title (flush (scan (split (cleanContent e))))
                = map title (sections plan)).
    { unfold e. rewrite (export_scanned plan Ht Hi Hd Hfit). fold pre bs.
      rewrite (flush_scan_blocks pre bs Hpre Hwf), (sectionsOf_all bs Hink).
      unfold bs. rewrite !map_map. reflexivity. }
    destruct (flush (scan (split (cleanContent e)))) as [|x xs]; [|exact E].
    destruct (sections plan); [congruence | discriminate E].
  - (* the fallback section: no line of the export is a header line *)
    destruct fallbackTitle_facts as (Hno & Hrule & Hfit).
    assert (Hall : Forall (fun s => lineTitle (title s) /\ plainSection s)
                          (sections plan)).
    { rewrite Es. repeat constructor; try apply Hplain; rewrite Hfb; apply Hfit. }
    assert (E : map title (flush (scan (split (cleanContent e)))) = []).
    { unfold e. rewrite (export_scanned plan Ht Hi Hd Hall). fold pre.
      rewrite Es, flush_scan_plain; [reflexivity|].
      apply Forall_app. split; [exact Hpre|].
      unfold blockLines, blockOf. cbn [map flat_map headerLine body app].
      rewrite Hfb, app_nil_r. constructor; [exact Hno|].
      constructor; [exact Hrule|]. constructor; [reflexivity|].
      apply Forall_app. split; [apply Hplain | repeat constructor]. }
    destruct (flush (scan (split (cleanContent e)))); [|discriminate E].
    rewrite Es. cbn [map title]. rewrite Hfb. reflexivity.
Qed.

Ltac steady_text :=
  split; [closed_text | split];
  vm_compute; repeat split; intros; first [discriminate | reflexivity | exact I].

Lemma export_reparse_titles_witness :
  map title (parseBusinessPlanSections (formatBusinessPlanForExport bulletedPlan))
  = [lit "Executive Summary"; lit "Market Analysis"].
Proof.
  assert (Ht : steady Fresh (planTitle bulletedPlan)) by steady_text.
  assert (Hi : steady Mid (planIndustry bulletedPlan)) by steady_text.
  assert (Hd : steady Mid (toLocaleDateString (createdAt bulletedPlan))) by steady_text.
  assert (Hh : plainLines (split (exportHeading bulletedPlan))) by plain_lines.
  assert (Hs : Forall (fun sec => In (title sec) sectionHeaders /\ plainSection sec)
                      (sections bulletedPlan)).
  { assert (In3 : forall P : BusinessPlanSection -> Prop,
               P (nth 0 (sections bulletedPlan) (fallbackSection [])) ->
               P (nth 1 (sections bulletedPlan) (fallbackSection [])) ->
               Forall P (sections bulletedPlan))
      by (intros P H0 H1; repeat constructor; assumption).
    apply In3; (split; [|split; [steady_text | plain_lines]]).
    - left. reflexivity.
    - right. right. left. reflexivity. }
  assert (Hc : catalogSections (sections bulletedPlan))
    by (split; [discriminate | exact Hs]).
  exact (proj1 export_reparse_titles bulletedPlan Ht Hi Hd Hh (or_introl Hc)).
Defined.

(** * Further properties of the code *)

(** ** What the parser returns *)

Lemma sectionsOf_proper (s : str) (pre : list str) (bs : list Block) :
  split (cleanContent s) = pre ++ blockLines bs ->
  Forall wellFormed bs ->
  Forall (fun sec => properSection sec /\ normalForm (content sec)) (sectionsOf bs).
Proof.
  intros Hs Hbs. pose proof (sectionsOf_content s pre bs Hs) as Hc.
  rewrite Forall_forall in *. intros sec Hin. specialize (Hc sec Hin).
  rewrite sectionsOf_filter in Hin. apply in_map_iff in Hin.
  destruct Hin as (b & <- & Hb). apply filter_In in Hb. destruct Hb as [Hb _].
  destruct (Hbs b Hb) as [Hh _]. split; [split; [|exact Hc]|].
  - unfold matchedHeader in Hh. apply find_some in Hh. apply Hh.
  - apply formatSectionContent_normalForm.
Qed.

Lemma parse_shape (s : str) :
  (parseBusinessPlanSections s = [fallbackSection s]
   \/ Forall properSection (parseBusinessPlanSections s))
  /\ Forall (fun sec => normalForm (content sec)) (parseBusinessPlanSections s).
Proof.
  destruct (parse_cases s) as [[_ ->]|[_ ->]].
  - split; [left; reflexivity|]. repeat constructor; apply formatSectionContent_normalForm.
  - destruct (lines_decompose (split (cleanContent s))) as (pre & bs & E & Hpre & Hbs).
    rewrite E, (flush_scan_blocks pre bs Hpre Hbs).
    pose proof (sectionsOf_proper s pre bs E Hbs) as H.
    split; [right|]; (eapply Forall_impl; [|exact H]); intros sec [H1 H2]; assumption.
Qed.

(** X1: whatever the input, the parser returns either the single fallback
    section or sections that all have a catalog title and content that is
    not empty; and the content of every section it returns is in normal
    form: without asterisk, without white space at either end, without an
    empty line, and left as it is by [formatSectionContent]. *)
Theorem parser_output_shape (s : str) :
  (parseBusinessPlanSections s = [fallbackSection s]
   \/ Forall properSection (parseBusinessPlanSections s))
  /\ Forall (fun sec => normalForm (content sec)) (parseBusinessPlanSections s).
Proof. exact (parse_shape s). Qed.

Lemma trim_inked_or_nil (x : str) : trim x = [] \/ inked (trim x).
Proof.
  destruct (inked_or_allSpace (trim x)) as [H|H]; [right; exact H|].
  left. rewrite <- trim_idempotent. apply trim_allSpace, H.
Qed.

(** X2: the parser returns a section with empty content only when nothing is
    left of the input after the clean-up, and the result is then the single
    fallback section, empty. *)
Theorem empty_content_only_for_empty_input (s : str) :
  (Exists (fun sec => content sec = []) (parseBusinessPlanSections s)
   <-> cleanContent s = [])
  /\ (Exists (fun sec => content sec = []) (parseBusinessPlanSections s) ->
      parseBusinessPlanSections s = [{| title := lit "Business Plan"; content := [] |}]).
Proof.
  assert (A : Exists (fun sec => content sec = []) (parseBusinessPlanSections s) ->
              cleanContent s = []).
  { intros H. destruct (parse_cases s) as [[_ E]|[_ E]]; rewrite E in H.
    - inversion H as [? ? Hc|? ? Hn]; subst; [|inversion Hn].
      unfold fallbackSection, normalize in Hc. simpl in Hc.
      assert (Ht : trim (cleanContent s) = cleanContent s).
      { unfold cleanContent. apply trim_idempotent. }
      destruct (trim_inked_or_nil (cleanContent s)) as [Hn|Hi]; rewrite Ht in *.
      + exact Hn.
      + apply (formatSectionContent_inked _ (cleanContent_starFree s)) in Hi.
        apply inked_truthy in Hi. contradiction.
    - pose proof (emitted_content s) as Hc. rewrite Forall_forall in Hc.
      apply Exists_exists in H. destruct H as (sec & Hin & Hnil).
      elim (Hc sec Hin Hnil). }
  split; [split; [exact A|]|].
  - intros E. unfold parseBusinessPlanSections. rewrite E. apply Exists_cons_hd.
    reflexivity.
  - intros H. apply A in H. unfold parseBusinessPlanSections. rewrite H. reflexivity.
Qed.

(** X3: the titles of the result depend only on the lines of the cleaned
    text that are not blank, each taken without the white space around it:
    empty lines and indentation change no title. *)
Theorem titles_ignore_blank_lines (s s' : str) :
  significant (split (cleanContent s)) = significant (split (cleanContent s')) ->
  map title (parseBusinessPlanSections s) = map title (parseBusinessPlanSections s').
Proof.
  intros H. apply titles_significant in H. unfold parseBusinessPlanSections.
  destruct (flush (scan (split (cleanContent s)))) as [|x xs];
    destruct (flush (scan (split (cleanContent s')))) as [|y ys];
    try discriminate H; [reflexivity | exact H].
Qed.

Lemma titles_ignore_blank_lines_witness :
  map title (parseBusinessPlanSections
               (lit "Executive Summary" ++ nl ++ nl ++ lit "   We sell widgets."))
  = map title (parseBusinessPlanSections
                 (lit "Executive Summary" ++ nl ++ lit "We sell widgets." ++ nl ++ nl
                  ++ lit "   ")).
Proof. apply titles_ignore_blank_lines. vm_compute. reflexivity. Defined.

(** ** The earlier revision of the parser *)

Lemma earlier_flush (st : ParseState) :
  earlierInvariant st -> Forall rawSection (Earlier.flush st).
Proof.
  intros [He Hc]. unfold Earlier.flush.
  destruct (truthy (currentSection st)) eqn:T; [|exact He]. simpl.
  destruct (trim (currentContent st)) as [|x r] eqn:E; [exact He|]. simpl.
  apply Forall_app. split; [exact He|]. constructor; [|constructor].
  destruct Hc as [Hc|Hc]; [rewrite Hc in T; discriminate|].
  split; [exact Hc|]. simpl. split; [discriminate|].
  rewrite <- E. apply trim_idempotent.
Qed.

Lemma earlier_step (st : ParseState) (line : str) :
  earlierInvariant st -> earlierInvariant (Earlier.step st line).
Proof.
  intros H. unfold Earlier.step.
  destruct (Earlier.matchedHeader line) as [h|] eqn:M.
  - split; [apply earlier_flush, H|]. right. simpl.
    unfold Earlier.matchedHeader in M. apply find_some in M. apply M.
  - exact H.
Qed.

Lemma earlier_scan (lines : list str) (st : ParseState) :
  earlierInvariant st -> earlierInvariant (fold_left Earlier.step lines st).
Proof.
  revert st. induction lines as [|l lines IH]; intros st H; [exact H|].
  simpl. apply IH, earlier_step, H.
Qed.

(** X4: the earlier revision returns either the single fallback section,
    holding the input exactly as it was given, or sections that all have a
    catalog title and content that is not empty and has no white space at
    either end. *)
Theorem earlier_output_shape (text : str) :
  Earlier.parseBusinessPlanSections text
  = [{| title := lit "Business Plan"; content := text |}]
  \/ (Earlier.parseBusinessPlanSections text <> []
      /\ Forall rawSection (Earlier.parseBusinessPlanSections text)).
Proof.
  assert (H : Forall rawSection (Earlier.flush (Earlier.scan (split text)))).
  { apply earlier_flush, earlier_scan. split; [constructor | left; reflexivity]. }
  unfold Earlier.parseBusinessPlanSections.
  destruct (Earlier.flush (Earlier.scan (split text))) as [|x xs].
  - left. reflexivity.
  - right. split; [discriminate | exact H].
Qed.

Lemma find_all_false (A : Type) (f : A -> bool) (l : list A) :
  (forall x, In x l -> f x = false) -> find f l = None.
Proof.
  induction l as [|a l IH]; intros H; [reflexivity|]. simpl.
  rewrite (H a (or_introl eq_refl)). apply IH. intros x Hx. apply H. right. exact Hx.
Qed.

Lemma earlier_fold_unmarked (lines : list str) (st : ParseState) :
  Forall (fun l => markedLine l = false) lines ->
  emitted (fold_left Earlier.step lines st) = emitted st
  /\ currentSection (fold_left Earlier.step lines st) = currentSection st.
Proof.
  intros H. revert st. induction H as [|l lines Hl _ IH]; intros st; [split; reflexivity|].
  simpl. assert (M : Earlier.matchedHeader l = None).
  { apply find_all_false. intros h _. unfold Earlier.headerTest.
    unfold markedLine in Hl. rewrite Hl. apply andb_false_r. }
  destruct (IH (Earlier.step st l)) as [E1 E2]. rewrite E1, E2.
  unfold Earlier.step. rewrite M. split; reflexivity.
Qed.

(** X5: the earlier revision takes a line for a header only if, trimmed, it
    starts with a hash, with two asterisks, or with digits and a period: a
    text without such a line is returned whole as the single fallback
    section, titles on lines of their own included. *)
Theorem earlier_needs_marked_headers (text : str) :
  Forall (fun l => markedLine l = false) (split text) ->
  Earlier.parseBusinessPlanSections text
  = [{| title := lit "Business Plan"; content := text |}].
Proof.
  intros H. unfold Earlier.parseBusinessPlanSections, Earlier.scan, Earlier.flush.
  destruct (earlier_fold_unmarked (split text) initial H) as [E1 E2].
  rewrite E1, E2. reflexivity.
Qed.

Lemma earlier_needs_marked_headers_witness :
  Earlier.parseBusinessPlanSections bareTitles
  = [{| title := lit "Business Plan"; content := bareTitles |}]
  /\ map title (parseBusinessPlanSections bareTitles)
     = [lit "Executive Summary"; lit "Market Analysis"].
Proof.
  split; [|vm_compute; reflexivity].
  apply earlier_needs_marked_headers.
  apply Forall_forall. intros l Hl.
  assert (F : forallb (fun l => negb (markedLine l)) (split bareTitles) = true)
    by (vm_compute; reflexivity).
  apply (proj1 (forallb_forall _ _) F) in Hl. destruct (markedLine l); [discriminate|reflexivity].
Defined.

(** ** The name of the exported file *)

Lemma spaces_spaceless (s : str) (k : nat) (b : bool) :
  spaceless (replaceFrom reSpaces [UNDERSCORE] k b s).
Proof.
  revert k b. induction s as [|c s IH]; intros k b; [constructor|].
  simpl. destruct k as [|k]; [|apply IH].
  unfold reSpaces. simpl. destruct (isWhiteSpace c) eqn:W.
  - constructor; [reflexivity | apply IH].
  - constructor; [exact W | apply IH].
Qed.

Lemma spaces_length (s : str) (k : nat) (b : bool) :
  List.length (replaceFrom reSpaces [UNDERSCORE] k b s) <= List.length s.
Proof.
  revert k b. induction s as [|c s IH]; intros k b; [apply le_n|].
  simpl. destruct k as [|k].
  - destruct (reSpaces b (c :: s)); simpl; apply le_n_S, IH.
  - apply le_S, IH.
Qed.

Lemma reSpaces_spaceless (b : bool) (u : str) : spaceless u -> reSpaces b u = None.
Proof.
  intros H. unfold reSpaces. destruct H as [|c u Hc _]; [reflexivity|].
  simpl. rewrite Hc. reflexivity.
Qed.

Lemma spaces_id (s : str) (b : bool) :
  spaceless s -> replaceFrom reSpaces [UNDERSCORE] 0 b s = s.
Proof.
  apply (replaceFrom_id spaceless).
  - intros c u. apply Forall_tail.
  - intros b' u. apply reSpaces_spaceless.
Qed.

Lemma spaces_prefix (a x : str) (b : bool) :
  spaceless a ->
  exists b', replaceFrom reSpaces [UNDERSCORE] 0 b (a ++ x)
             = a ++ replaceFrom reSpaces [UNDERSCORE] 0 b' x.
Proof.
  intros H. revert b. induction H as [|c a Hc _ IH]; intros b.
  - exists b. reflexivity.
  - destruct (IH (isLineTerminator c)) as [b' E]. exists b'.
    simpl. unfold reSpaces at 1. simpl. rewrite Hc, E. reflexivity.
Qed.

Lemma replaceFrom_skip m r (s : str) :
  forall k b, exists b',
    replaceFrom m r k b s = replaceFrom m r 0 b' (skipn k s).
Proof.
  induction s as [|c s IH]; intros k b.
  - exists b. destruct k; reflexivity.
  - destruct k as [|k]; [exists b; reflexivity|].
    cbn [replaceFrom skipn]. apply IH.
Qed.

Lemma run_stops (p : char -> bool) (s : str) :
  match skipn (run p s) s with
  | c :: _ => p c = false
  | [] => True
  end.
Proof.
  induction s as [|c s IH]; simpl; [exact I|].
  destruct (p c) eqn:E; simpl; [exact IH | exact E].
Qed.

Lemma spaces_underscored (n : nat) :
  forall (s : str) (b : bool),
    List.length s <= n ->
    underscored s (replaceFrom reSpaces [UNDERSCORE] 0 b s).
Proof.
  induction n as [|n IH]; intros s b Hn.
  - destruct s; [constructor | simpl in Hn; lia].
  - destruct s as [|c s]; [constructor|].
    cbn [replaceFrom]. unfold reSpaces at 1. cbn [run].
    destruct (isWhiteSpace c) eqn:W.
    + destruct (replaceFrom_skip reSpaces [UNDERSCORE] s (run isWhiteSpace s)
                  (isLineTerminator c)) as [b' ->].
      cbn [app].
      pose proof (firstn_skipn (run isWhiteSpace s) s) as E.
      rewrite <- E at 1.
      change (c :: firstn (run isWhiteSpace s) s ++ skipn (run isWhiteSpace s) s)
        with ((c :: firstn (run isWhiteSpace s) s) ++ skipn (run isWhiteSpace s) s).
      apply underscored_run.
      * discriminate.
      * constructor; [exact W | apply run_firstn].
      * apply run_stops.
      * apply IH. rewrite length_skipn. simpl in Hn. lia.
    + apply underscored_unit; [exact W|]. apply IH. simpl in Hn. lia.
Qed.

(** X6: the name under which a plan is exported is the title with every run
    of white space, taken whole, replaced by one underscore and every other
    unit kept, followed by '.txt' for the one export and by '.doc' for the
    other; so it holds no white space, is the title itself followed by the
    extension when the title has no white space, and is never longer than
    the title and the extension.  Both exports deliver the same text, that
    of [formatBusinessPlanForExport]. *)
Theorem export_file_name (plan : GeneratedBusinessPlan) :
  (exists name,
      underscored (planTitle plan) name
      /\ download (exportToPDF plan) = name ++ lit ".txt"
      /\ download (exportToWord plan) = name ++ lit ".doc")
  /\ spaceless (download (exportToPDF plan))
  /\ spaceless (download (exportToWord plan))
  /\ List.length (download (exportToPDF plan)) <= List.length (planTitle plan) + 4
  /\ List.length (download (exportToWord plan)) <= List.length (planTitle plan) + 4
  /\ (spaceless (planTitle plan) ->
      download (exportToPDF plan) = planTitle plan ++ lit ".txt"
      /\ download (exportToWord plan) = planTitle plan ++ lit ".doc")
  /\ blobText (exportToPDF plan) = blobText (exportToWord plan).
Proof.
  unfold exportToPDF, exportToWord, replaceAll. simpl.
  split; [|split; [|split; [|split; [|split; [|split]]]]].
  - eexists. split; [|split; reflexivity].
    apply (spaces_underscored (List.length (planTitle plan))). apply le_n.
  - apply Forall_app. split; [apply spaces_spaceless | closed_text].
  - apply Forall_app. split; [apply spaces_spaceless | closed_text].
  - rewrite length_app. apply Nat.add_le_mono; [apply spaces_length | apply le_n].
  - rewrite length_app. apply Nat.add_le_mono; [apply spaces_length | apply le_n].
  - intros H. rewrite (spaces_id _ true H). split; reflexivity.
  - reflexivity.
Qed.

Example export_file_name_runs :
  download (exportToPDF (retitled plainPlan (lit "Acme  Business" ++ nl ++ lit "Plan ")))
  = lit "Acme_Business_Plan_.txt".
Proof. vm_compute. reflexivity. Qed.

(** ** The outcome of a generation *)

Lemma orElse_truthy (a : option str) (b : str) : b <> [] -> orElse a b <> [].
Proof.
  intros Hb. unfold orElse. destruct a as [[|x s]|]; simpl; try exact Hb. discriminate.
Qed.

Lemma parsed_fresh (host : Host) (text : str) (t i : str) :
  freshPlan host {| planId := decimal (now host); planTitle := t; planIndustry := i;
                    createdAt := today host;
                    sections := parseBusinessPlanSections text;
                    status := complete |}.
Proof.
  repeat split; simpl.
  - destruct (parse_cases text) as [[_ ->]|[H ->]]; [discriminate | exact H].
  - apply parse_shape.
Qed.

Lemma generate_cases (host : Host) (input : BusinessPlanInput) (fetched : Fetched) :
  (answered host fetched
   /\ exists text,
        generateBusinessPlan host input fetched
        = inr {| planId := decimal (now host);
                 planTitle := businessName input ++ lit " Business Plan";
                 planIndustry := industry input;
                 createdAt := today host;
                 sections := parseBusinessPlanSections text;
                 status := complete |})
  \/ (~ answered host fetched
      /\ exists message, generateBusinessPlan host input fetched = inl (ErrorObject message)).
Proof.
  unfold generateBusinessPlan, answered.
  destruct (keyMissing host) eqn:K.
  { right. split; [intros [H _]; discriminate H | eexists; reflexivity]. }
  destruct fetched as [t|r].
  { right. split; [intros (_ & r & c & H & _); discriminate H|].
    destruct t; eexists; reflexivity. }
  destruct (ok r) eqn:O; simpl.
  - destruct (reply r) as [t|c] eqn:R.
    + right. split.
      * intros (_ & r' & c' & H & _ & H'). injection H as <-. congruence.
      * destruct t; eexists; reflexivity.
    + left. split; [|eexists; reflexivity].
      split; [reflexivity|]. exists r, c. auto.
  - right. split; [|eexists; reflexivity].
    intros (_ & r' & c' & H & H' & _). injection H as <-. congruence.
Qed.

Lemma modify_cases (host : Host) (plan : GeneratedBusinessPlan) (request : str)
      (fetched : Fetched) :
  (answered host fetched
   /\ exists text,
        modifyBusinessPlan host plan request fetched
        = inr {| planId := decimal (now host);
                 planTitle := planTitle plan ++ lit " (Modified)";
                 planIndustry := planIndustry plan;
                 createdAt := today host;
                 sections := parseBusinessPlanSections text;
                 status := complete |})
  \/ (~ answered host fetched
      /\ exists message,
           modifyBusinessPlan host plan request fetched = inl (ErrorObject message)).
Proof.
  unfold modifyBusinessPlan, answered.
  destruct (keyMissing host) eqn:K.
  { right. split; [intros [H _]; discriminate H | eexists; reflexivity]. }
  destruct fetched as [t|r].
  { right. split; [intros (_ & r & c & H & _); discriminate H|].
    destruct t; eexists; reflexivity. }
  destruct (ok r) eqn:O; simpl.
  - destruct (reply r) as [t|c] eqn:R.
    + right. split.
      * intros (_ & r' & c' & H & _ & H'). injection H as <-. congruence.
      * destruct t; eexists; reflexivity.
    + left. split; [|eexists; reflexivity].
      split; [reflexivity|]. exists r, c. auto.
  - right. split; [|eexists; reflexivity].
    intros (_ & r' & c' & H & H' & _). injection H as <-. congruence.
Qed.

(** X7: a generation yields a plan exactly when the key is configured, the
    endpoint answers with an [ok] response and the reply can be read; the
    plan is then titled by the business name followed by ' Business Plan',
    keeps the industry of the profile, is complete and has at least one
    section, each with content in normal form.  In every other case what is
    thrown is an [Error] with a message, never another value. *)
Theorem generate_outcome (host : Host) (input : BusinessPlanInput) (fetched : Fetched) :
  ((exists plan, generateBusinessPlan host input fetched = inr plan)
   <-> answered host fetched)
  /\ (forall plan,
        generateBusinessPlan host input fetched = inr plan ->
        planTitle plan = businessName input ++ lit " Business Plan"
        /\ planIndustry plan = industry input
        /\ freshPlan host plan)
  /\ (forall thrown,
        generateBusinessPlan host input fetched = inl thrown ->
        exists message, thrown = ErrorObject message).
Proof.
  destruct (generate_cases host input fetched) as [(Ha & text & E)|(Hn & m & E)];
    rewrite E.
  - split; [split; [intros _; exact Ha | intros _; eexists; reflexivity]|].
    split; [|discriminate]. intros plan H. injection H as <-.
    split; [reflexivity|]. split; [reflexivity|]. apply parsed_fresh.
  - split; [split; [intros [p H]; discriminate H | intros Ha; elim (Hn Ha)]|].
    split; [discriminate|]. intros t H. injection H as <-. exists m. reflexivity.
Qed.

(** X8: with the key configured, a response that is not [ok] makes the
    generation and the modification fail with the same [Error], whatever the
    profile, the plan, the request and the reply.  Its message is a fixed
    text for each of the statuses 401, 402 and 429, whatever the body of the
    response, which is not looked at; for any other status it is the message
    of the body when there is one, 'API request failed with status' followed
    by the status in decimal when there is none, and that of the [TypeError]
    when the message cannot be read, as for the body [null]. *)
Theorem http_failure_message (host : Host) (input : BusinessPlanInput)
        (plan : GeneratedBusinessPlan) (request : str) (response : Response) :
  keyMissing host = false ->
  ok response = false ->
  exists message,
    generateBusinessPlan host input (Responded response) = inl (ErrorObject message)
    /\ modifyBusinessPlan host plan request (Responded response)
       = inl (ErrorObject message)
    /\ (responseStatus response = 401%N ->
        message = lit "Invalid API key. Please check your OpenRouter API key configuration.")
    /\ (responseStatus response = 402%N ->
        message = lit "Insufficient credits. Please check your OpenRouter billing.")
    /\ (responseStatus response = 429%N ->
        message = lit "Rate limit exceeded. Please wait a moment and try again.")
    /\ (~ In (responseStatus response) [401; 402; 429]%N ->
        match errorData response with
        | Message text => message = text
        | NoMessage =>
            message = lit "API request failed with status "
                      ++ decimal (responseStatus response)
        | Unreadable thrown => message = thrown
        end).
Proof.
  intros K O. exists (statusMessage response).
  unfold generateBusinessPlan, modifyBusinessPlan. rewrite K, O. cbn [negb caught].
  split; [reflexivity|]. split; [reflexivity|]. unfold statusMessage.
  split; [intros ->; reflexivity|]. split; [intros ->; reflexivity|].
  split; [intros ->; reflexivity|].
  intros H.
  destruct (N.eqb_spec (responseStatus response) 401) as [E|_];
    [elim H; rewrite E; simpl; auto|].
  destruct (N.eqb_spec (responseStatus response) 402) as [E|_];
    [elim H; rewrite E; simpl; auto|].
  destruct (N.eqb_spec (responseStatus response) 429) as [E|_];
    [elim H; rewrite E; simpl; auto|].
  destruct (errorData response); reflexivity.
Qed.

Lemma http_failure_message_witness :
  generateBusinessPlan sampleHost emptyProfile (Responded serverError)
  = inl (ErrorObject (lit "API request failed with status 503"))
  /\ modifyBusinessPlan sampleHost plainPlan [] (Responded nullBody)
     = inl (ErrorObject (lit "Cannot read properties of null (reading 'error')")).
Proof.
  assert (K : keyMissing sampleHost = false) by reflexivity.
  split.
  - destruct (http_failure_message sampleHost emptyProfile plainPlan [] serverError K eq_refl)
      as (m & -> & _ & _ & _ & _ & H).
    rewrite H; [vm_compute; reflexivity|].
    simpl. intros [E|[E|[E|[]]]]; discriminate E.
  - destruct (http_failure_message sampleHost emptyProfile plainPlan [] nullBody K eq_refl)
      as (m & _ & -> & _ & _ & _ & H).
    rewrite H; [reflexivity|].
    simpl. intros [E|[E|[E|[]]]]; discriminate E.
Defined.

(** X9: a modification yields a plan under the same conditions as a
    generation; the plan is then titled by the title of the plan it was made
    from followed by ' (Modified)', keeps its industry, is complete and has
    at least one section.  A failed modification throws the [Error] the
    generation would throw on the same outcome, except for a thrown value
    that is no [Error], which each replaces by an [Error] with its own
    text. *)
Theorem modify_outcome (host : Host) (input : BusinessPlanInput)
        (plan : GeneratedBusinessPlan) (request : str) (fetched : Fetched) :
  ((exists modified, modifyBusinessPlan host plan request fetched = inr modified)
   <-> answered host fetched)
  /\ (forall modified,
        modifyBusinessPlan host plan request fetched = inr modified ->
        planTitle modified = planTitle plan ++ lit " (Modified)"
        /\ planIndustry modified = planIndustry plan
        /\ freshPlan host modified)
  /\ (forall thrown,
        modifyBusinessPlan host plan request fetched = inl thrown ->
        (exists message, thrown = ErrorObject message)
        /\ (generateBusinessPlan host input fetched = inl thrown
            \/ (thrown = ErrorObject (lit "Failed to modify business plan. Please try again.")
                /\ generateBusinessPlan host input fetched
                   = inl (ErrorObject (lit "Failed to generate business plan. Please try again."))))).
Proof.
  split; [|split].
  - destruct (modify_cases host plan request fetched) as [(Ha & text & E)|(Hn & m & E)];
      rewrite E.
    + split; [intros _; exact Ha | intros _; eexists; reflexivity].
    + split; [intros [p H]; discriminate H | intros Ha; elim (Hn Ha)].
  - destruct (modify_cases host plan request fetched) as [(Ha & text & E)|(Hn & m & E)];
      rewrite E; [|discriminate].
    intros modified H. injection H as <-.
    split; [reflexivity|]. split; [reflexivity|]. apply parsed_fresh.
  - unfold modifyBusinessPlan, generateBusinessPlan.
    destruct (keyMissing host).
    { intros t H. injection H as <-. split; [eexists; reflexivity | left; reflexivity]. }
    destruct fetched as [[m|]|r].
    + intros t H. injection H as <-. split; [eexists; reflexivity | left; reflexivity].
    + intros t H. injection H as <-. split; [eexists; reflexivity | right; split; reflexivity].
    + destruct (ok r); simpl.
      * destruct (reply r) as [[m|]|c]; intros t H; try discriminate H;
          injection H as <-; (split; [eexists; reflexivity|]);
          [left; reflexivity | right; split; reflexivity].
      * intros t H. injection H as <-. split; [eexists; reflexivity | left; reflexivity].
Qed.

Lemma modifyChain_fields (steps : list (Host * str * Fetched)) :
  forall plan final,
    modifyChain plan steps = inr final ->
    planTitle final
    = planTitle plan ++ List.concat (List.repeat (lit " (Modified)") (List.length steps))
    /\ planIndustry final = planIndustry plan
    /\ (sections plan <> [] -> sections final <> []).
Proof.
  induction steps as [|[[host request] fetched] steps IH]; intros plan final H.
  - injection H as <-. simpl. rewrite app_nil_r. auto.
  - cbn [modifyChain] in H.
    destruct (modify_cases host plan request fetched) as [(_ & text & E)|(_ & m & E)];
      rewrite E in H; [|discriminate H].
    destruct (IH _ _ H) as (Ht & Hi & Hs). simpl in Ht, Hi, Hs.
    rewrite Ht, Hi. cbn [List.length List.repeat List.concat]. rewrite <- app_assoc.
    split; [reflexivity|]. split; [reflexivity|]. intros _. apply Hs.
    destruct (parse_cases text) as [[_ ->]|[Hne ->]]; [discriminate | exact Hne].
Qed.

(** X10: modifications accumulate in the title and nowhere else in the
    heading: after a chain of successful modifications the title is the
    original one followed by ' (Modified)' once for each of them, the
    industry is the original one, and the plan still has a section. *)
Theorem modifications_accumulate (plan final : GeneratedBusinessPlan)
        (steps : list (Host * str * Fetched)) :
  modifyChain plan steps = inr final ->
  planTitle final
  = planTitle plan ++ List.concat (List.repeat (lit " (Modified)") (List.length steps))
  /\ planIndustry final = planIndustry plan
  /\ (sections plan <> [] -> sections final <> []).
Proof. apply modifyChain_fields. Qed.

Lemma modifications_accumulate_witness :
  exists final,
    modifyChain plainPlan
      [(sampleHost, lit "Add a pricing table", Responded (okResponse (lit "Pricing.")));
       (sampleHost, lit "Shorter", Responded (okResponse (lit "1. Risk Analysis" ++ nl ++ lit "Few."))) ]
    = inr final
    /\ planTitle final = lit "Acme Business Plan (Modified) (Modified)".
Proof.
  eexists. split; [vm_compute; reflexivity|].
  match goal with
  | |- planTitle ?f = _ =>
      assert (H : modifyChain plainPlan
        [(sampleHost, lit "Add a pricing table", Responded (okResponse (lit "Pricing.")));
         (sampleHost, lit "Shorter", Responded (okResponse (lit "1. Risk Analysis" ++ nl ++ lit "Few."))) ]
        = inr f) by (vm_compute; reflexivity);
      rewrite (proj1 (modifications_accumulate _ _ _ H))
  end.
  vm_compute. reflexivity.
Defined.

(** X11: the plan generated for a business whose name has no white space is
    exported under that name followed by '_Business_Plan' and the
    extension. *)
Theorem generated_plan_file_name (host : Host) (input : BusinessPlanInput)
        (fetched : Fetched) (plan : GeneratedBusinessPlan) :
  generateBusinessPlan host input fetched = inr plan ->
  spaceless (businessName input) ->
  download (exportToPDF plan) = businessName input ++ lit "_Business_Plan.txt"
  /\ download (exportToWord plan) = businessName input ++ lit "_Business_Plan.doc".
Proof.
  intros H Hs.
  destruct (generate_cases host input fetched) as [(_ & text & E)|(_ & m & E)];
    rewrite E in H; [|discriminate H].
  injection H as <-. unfold exportToPDF, exportToWord, replaceAll. simpl.
  destruct (spaces_prefix (businessName input) (lit " Business Plan") true Hs) as [b' ->].
  assert (T : replaceFrom reSpaces [UNDERSCORE] 0 b' (lit " Business Plan")
              = lit "_Business_Plan") by (destruct b'; vm_compute; reflexivity).
  rewrite T, <- !app_assoc. split; reflexivity.
Qed.

Lemma generated_plan_file_name_witness :
  exists plan,
    generateBusinessPlan sampleHost acmeProfile (Responded (okResponse (lit "Widgets.")))
    = inr plan
    /\ download (exportToPDF plan) = lit "Acme_Business_Plan.txt".
Proof.
  eexists. split; [vm_compute; reflexivity|].
  match goal with
  | |- download (exportToPDF ?p) = _ =>
      assert (H : generateBusinessPlan sampleHost acmeProfile
                    (Responded (okResponse (lit "Widgets."))) = inr p)
        by (vm_compute; reflexivity);
      assert (S : spaceless (businessName acmeProfile)) by closed_text;
      rewrite (proj1 (generated_plan_file_name _ _ _ _ H S))
  end.
  vm_compute. reflexivity.
Defined.

(** ** The text given for a modification *)

Lemma titledParts_text (secs : list BusinessPlanSection) :
  flat_map (fun section => title section ++ nl ++ content section ++ nl ++ nl) secs
  = plainText (map titledPart secs).
Proof.
  unfold plainText. induction secs as [|sec secs IH]; [reflexivity|].
  cbn [map flat_map titledPart fst snd]. rewrite IH, <- !app_assoc. reflexivity.
Qed.

Lemma modification_parts (plan : GeneratedBusinessPlan) :
  formatBusinessPlanForModification plan
  = modificationHeading plan ++ LF :: LF :: plainText (map titledPart (sections plan)).
Proof.
  unfold formatBusinessPlanForModification.
  rewrite (fold_left_append _ (fun section =>
             title section ++ nl ++ content section ++ nl ++ nl)).
  rewrite titledParts_text. unfold modificationHeading, nl.
  rewrite <- !app_assoc. reflexivity.
Qed.

Lemma mute_app (a b : str) : mute a -> mute b -> mute (a ++ b).
Proof.
  intros Ha Hb. induction a as [|c a IH]; [exact Hb|].
  destruct Ha as [Hc Ha]. simpl. split; [|apply IH, Ha].
  intros Hm. specialize (Hc Hm). destruct a; [contradiction | exact Hc].
Qed.

Lemma prose_nl (b : str) : prose b -> prose (b ++ nl).
Proof.
  intros ((Hs & Hh & Hm) & Hp & Hb). split; [split; [|split]|split].
  - apply Forall_app. split; [exact Hs | repeat constructor].
  - apply Forall_app. split; [exact Hh | repeat constructor].
  - apply mute_app; [exact Hm|]. split; [discriminate | exact I].
  - unfold nl. rewrite split_app_LF. apply Forall_app. split; [exact Hp|].
    repeat constructor.
  - rewrite blank_app, Hb. reflexivity.
Qed.

(** X12: the text given for a modification is read back by the parser into
    the titles of the plan, in the same order, for every plan with at least
    one section whose section titles are catalog titles, whose title,
    industry and contents hold no asterisk, no hash and no dash or bullet
    followed by white space or ending the text, whose contents are not blank
    and no line of which, heading and contents, is a header line. *)
Theorem modification_text_reparse (plan : GeneratedBusinessPlan) :
  sections plan <> [] ->
  quiet (planTitle plan) ->
  quiet (planIndustry plan) ->
  plainLines (split (modificationHeading plan)) ->
  Forall (fun sec => In (title sec) sectionHeaders /\ prose (content sec))
         (sections plan) ->
  map title (parseBusinessPlanSections (formatBusinessPlanForModification plan))
  = map title (sections plan).
Proof.
  intros Hne (Ts & Th & Tm) (Is & Ih & Im) Hhead Hsecs.
  set (parts := map titledPart (sections plan)).
  set (e := formatBusinessPlanForModification plan).
  assert (Hparts : Forall (fun hb => In (fst hb) sectionHeaders /\ prose (snd hb)) parts).
  { unfold parts. apply Forall_map. eapply Forall_impl; [|exact Hsecs].
    intros sec [Hin Hp]. split; [exact Hin | apply prose_nl, Hp]. }
  assert (Hfit : Forall (fun hb => lineTitle (fst hb)) parts).
  { eapply Forall_impl; [|exact Hparts]. intros hb [Hin _]. apply (catalog_titles _ Hin). }
  assert (E : e = modificationHeading plan ++ LF :: LF :: plainText parts)
    by apply modification_parts.
  assert (Hstar : starFree e).
  { rewrite E. unfold modificationHeading.
    repeat (apply Forall_app; split); try assumption; try closed_text.
    do 2 (constructor; [reflexivity|]).
    apply plainText_Forall; [reflexivity|]. eapply Forall_impl; [|exact Hparts].
    intros hb (Hin & (Hs & _) & _).
    split; [apply (lt_star _ (proj2 (proj2 (catalog_titles _ Hin)))) | exact Hs]. }
  assert (Hhash : hashFree e).
  { rewrite E. unfold modificationHeading.
    repeat (apply Forall_app; split); try assumption; try closed_text.
    do 2 (constructor; [reflexivity|]).
    apply plainText_Forall; [reflexivity|]. eapply Forall_impl; [|exact Hparts].
    intros hb (Hin & (_ & Hs & _) & _).
    split; [apply (lt_hash _ (proj2 (proj2 (catalog_titles _ Hin)))) | exact Hs]. }
  assert (Hcalm : calm true e).
  { rewrite E. unfold modificationHeading. rewrite <- !app_assoc.
    apply calm_app_mute; [exact Tm|].
    apply calm_app_mute; [apply markerFree_mute; closed_text|].
    apply calm_app_mute; [apply markerFree_mute; closed_text|].
    apply calm_app_mute; [exact Im|].
    apply calm_LF, calm_LF, plainText_calm. eapply Forall_impl; [|exact Hparts].
    intros hb (Hin & (_ & _ & Hm) & _).
    split; [apply (catalog_titles _ Hin) | exact Hm]. }
  set (pre := split (modificationHeading plan) ++ [[]]).
  set (bs := map textBlock parts).
  assert (Hpre : plainLines pre).
  { apply Forall_app. split; [exact Hhead | repeat constructor]. }
  assert (Hwf : Forall wellFormed bs
                /\ Forall (fun b => blank (joinLines (body b)) = false) bs).
  { unfold bs. split; apply Forall_map; (eapply Forall_impl; [|exact Hparts]);
      intros hb [Hin Hp]; apply (textBlock_wellFormed hb Hin Hp). }
  destruct Hwf as [Hwf Hink].
  assert (T : map title (flush (scan (split (cleanContent e))))
              = map title (sections plan)).
  { assert (L : split e = (pre ++ blockLines bs) ++ [[]]).
    { rewrite E, split_app_LF. cbn [split isLF LF N.eqb Pos.eqb].
      rewrite (plainText_lines parts Hfit). unfold pre, bs.
      rewrite <- !app_assoc. reflexivity. }
    rewrite (titles_cleaned e Hstar Hhash Hcalm), L.
    rewrite (titles_significant _ _ (significant_snoc_blank (pre ++ blockLines bs))).
    rewrite (flush_scan_blocks pre bs Hpre Hwf), (sectionsOf_all bs Hink).
    unfold bs, parts. rewrite !map_map. reflexivity. }
  unfold parseBusinessPlanSections. fold e.
  destruct (flush (scan (split (cleanContent e)))) as [|x xs]; [|exact T].
  destruct (sections plan); [congruence | discriminate T].
Qed.

Lemma modification_text_reparse_witness :
  map title (parseBusinessPlanSections (formatBusinessPlanForModification plainPlan))
  = [lit "Executive Summary"; lit "Market Analysis"].
Proof.
  assert (Hne : sections plainPlan <> []) by discriminate.
  assert (Ht : quiet (planTitle plainPlan)) by quiet_text.
  assert (Hi : quiet (planIndustry plainPlan)) by quiet_text.
  assert (Hh : plainLines (split (modificationHeading plainPlan))) by plain_lines.
  assert (Hs : Forall (fun sec => In (title sec) sectionHeaders /\ prose (content sec))
                      (sections plainPlan)).
  { apply Forall_cons; [|apply Forall_cons; [|apply Forall_nil]];
      (split; [|split; [quiet_text | split; [plain_lines | reflexivity]]]).
    - left. reflexivity.
    - right. right. left. reflexivity. }
  exact (modification_text_reparse plainPlan Hne Ht Hi Hh Hs).
Defined.

(** A section with blank content is lost in the text given for a
    modification, and kept by the export, where the rule under its title
    stands for content. *)
Example blank_section_lost_in_modification_text :
  map title (parseBusinessPlanSections (formatBusinessPlanForModification sparsePlan))
  = [lit "Market Analysis"]
  /\ map title (parseBusinessPlanSections (formatBusinessPlanForExport sparsePlan))
     = [lit "Executive Summary"; lit "Market Analysis"].
Proof. split; vm_compute; reflexivity. Qed.

(** ** The page *)

Lemma firstBlank_none (fields : list (str * (BusinessPlanInput -> str)))
      (data : BusinessPlanInput) :
  Page.firstBlank fields data = None
  <-> Forall (fun f => blank (snd f data) = false) fields.
Proof.
  induction fields as [|[field value] fields IH]; simpl.
  - split; [constructor | reflexivity].
  - unfold blank at 1. destruct (truthy (trim (value data))) eqn:T; simpl.
    + rewrite IH. split; [intros H; constructor; [unfold blank; simpl; rewrite T|];
                          auto | intros H; inversion H; assumption].
    + split; [discriminate|]. intros H. inversion H as [|? ? Hb _]; subst.
      unfold blank in Hb. simpl in Hb. rewrite T in Hb. discriminate Hb.
Qed.

Lemma firstBlank_some (fields : list (str * (BusinessPlanInput -> str)))
      (data : BusinessPlanInput) (field : str) :
  Page.firstBlank fields data = Some field ->
  exists before value after,
    fields = before ++ (field, value) :: after
    /\ Forall (fun f => blank (snd f data) = false) before
    /\ blank (value data) = true.
Proof.
  induction fields as [|[name value] fields IH]; simpl; [discriminate|].
  destruct (truthy (trim (value data))) eqn:T.
  - intros H. destruct (IH H) as (before & v & after & -> & Hb & Hv).
    exists ((name, value) :: before), v, after. split; [reflexivity|].
    split; [|exact Hv]. constructor; [|exact Hb]. unfold blank. simpl. rewrite T.
    reflexivity.
  - intros H. injection H as <-. exists [], value, fields.
    split; [reflexivity|]. split; [constructor|]. unfold blank. rewrite T. reflexivity.
Qed.

(** X13: the form is accepted exactly when its six required fields (business
    name, industry, business type, location, target audience, unique value)
    are not blank, the revenue model and the goals being free; an accepted
    form leaves the state as it is, and a rejected one sets the error to
    'Please fill in the ... field', naming in words the first required field
    that is blank, and changes nothing else. *)
Theorem required_fields_validated (st : Page.PageState) :
  (fst (Page.validateForm st) = true <-> filledIn (Page.formData st))
  /\ (fst (Page.validateForm st) = true -> snd (Page.validateForm st) = st)
  /\ (fst (Page.validateForm st) = false ->
      exists before field value after,
        Page.requiredFields = before ++ (field, value) :: after
        /\ Forall (fun f => blank (snd f (Page.formData st)) = false) before
        /\ blank (value (Page.formData st)) = true
        /\ snd (Page.validateForm st)
           = Page.setError
               (Some (lit "Please fill in the " ++ Page.fieldLabel field ++ lit " field")) st)
  /\ map (fun f => Page.fieldLabel (fst f)) Page.requiredFields
     = [lit "business name"; lit "industry"; lit "business type"; lit "location";
        lit "target audience"; lit "unique value"].
Proof.
  unfold Page.validateForm.
  destruct (Page.firstBlank Page.requiredFields (Page.formData st)) as [field|] eqn:E;
    simpl.
  - split; [split; [discriminate|]|split; [discriminate|split; [|reflexivity]]].
    + intros (H1 & H2 & H3 & H4 & H5 & H6).
      assert (N : Page.firstBlank Page.requiredFields (Page.formData st) = None).
      { apply firstBlank_none. unfold Page.requiredFields.
        repeat constructor; assumption. }
      congruence.
    + intros _. destruct (firstBlank_some _ _ _ E) as (before & value & after & H1 & H2 & H3).
      exists before, field, value, after. auto.
  - split; [split; [intros _|reflexivity]|split; [reflexivity|split; [discriminate|reflexivity]]].
    apply firstBlank_none in E. unfold Page.requiredFields in E.
    repeat match goal with
           | H : Forall _ (_ :: _) |- _ => inversion H; clear H; subst
           end.
    repeat split; assumption.
Qed.

Lemma required_fields_rejected_example :
  Page.error (snd (Page.validateForm (Page.setFormData noLocation firstPage)))
  = Some (lit "Please fill in the location field").
Proof. vm_compute. reflexivity. Qed.

Lemma filledIn_valid (st : Page.PageState) :
  (filledIn (Page.formData st) /\ Page.validateForm st = (true, st))
  \/ (~ filledIn (Page.formData st)
      /\ exists before field value after,
           Page.requiredFields = before ++ (field, value) :: after
           /\ Forall (fun f => blank (snd f (Page.formData st)) = false) before
           /\ blank (value (Page.formData st)) = true
           /\ Page.validateForm st
              = (false,
                 Page.setError
                   (Some (lit "Please fill in the " ++ Page.fieldLabel field ++ lit " field"))
                   st)).
Proof.
  unfold Page.validateForm.
  destruct (Page.firstBlank Page.requiredFields (Page.formData st)) as [field|] eqn:E.
  - right. split.
    + intros (H1 & H2 & H3 & H4 & H5 & H6).
      assert (N : Page.firstBlank Page.requiredFields (Page.formData st) = None).
      { apply firstBlank_none. unfold Page.requiredFields. repeat constructor; assumption. }
      congruence.
    + destruct (firstBlank_some _ _ _ E) as (before & value & after & H1 & H2 & H3).
      exists before, field, value, after. auto.
  - left. split; [|reflexivity].
    apply firstBlank_none in E. unfold Page.requiredFields in E.
    repeat match goal with
           | H : Forall _ (_ :: _) |- _ => inversion H; clear H; subst
           end.
    repeat split; assumption.
Qed.

(** X14: a run of the generate handler ends in one of two ways.  Either the
    form was filled in and the request was answered: then one plan, made at
    this time, with at least one section and titled by the business name
    followed by ' Business Plan', is put in front of the stored plans, the
    error is cleared, the form is emptied and the generator is closed.  Or
    the stored plans, the form and the generator are as they were and an error
    is set and nothing else changes but the flag of the generation under
    way: with a form not filled in, 'Please fill in the ... field', naming
    the first required field that is blank; otherwise exactly the message
    of the [Error] the service threw, the page's own 'Failed to generate
    business plan' being out of reach. *)
Theorem generate_adds_or_reports (host : Host) (fetched : Fetched) (st : Page.PageState) :
  let st' := Page.handleGeneratePlan host fetched st in
  (filledIn (Page.formData st) /\ answered host fetched
   /\ exists plan,
        Page.plans st' = plan :: Page.plans st
        /\ freshPlan host plan
        /\ planTitle plan = businessName (Page.formData st) ++ lit " Business Plan"
        /\ Page.error st' = None
        /\ Page.formData st' = Page.emptyForm
        /\ Page.showGenerator st' = false
        /\ Page.isGenerating st' = false)
  \/ (~ (filledIn (Page.formData st) /\ answered host fetched)
      /\ Page.plans st' = Page.plans st
      /\ Page.formData st' = Page.formData st
      /\ Page.showGenerator st' = Page.showGenerator st
      /\ exists message,
           Page.error st' = Some message
           /\ (filledIn (Page.formData st) ->
               generateBusinessPlan host (Page.formData st) fetched
               = inl (ErrorObject message))
           /\ (~ filledIn (Page.formData st) ->
               st' = Page.setError (Some message) st
               /\ exists before field value after,
                    Page.requiredFields = before ++ (field, value) :: after
                    /\ Forall (fun f => blank (snd f (Page.formData st)) = false) before
                    /\ blank (value (Page.formData st)) = true
                    /\ message = lit "Please fill in the " ++ Page.fieldLabel field
                                 ++ lit " field")).
Proof.
  unfold Page.handleGeneratePlan.
  destruct (filledIn_valid st) as [[F ->]|[F (before & field & value & after & H1 & H2 & H3 & ->)]];
    cbn zeta; cbn [negb].
  - destruct (generate_cases host (Page.formData st) fetched) as [[A [text ->]]|[A [m ->]]].
    + left. split; [exact F|]. split; [exact A|]. eexists. split; [reflexivity|].
      split; [apply parsed_fresh|]. repeat split.
    + right. split; [tauto|]. do 3 (split; [reflexivity|]).
      exists m. split; [reflexivity|]. split; [reflexivity|]. intros H. contradiction.
  - right. split; [tauto|]. do 3 (split; [reflexivity|]).
    eexists. split; [reflexivity|]. split; [intros H; contradiction|].
    intros _. split; [reflexivity|]. exists before, field, value, after. auto.
Qed.

(** X15: with a plan shown and a request that is not blank, a run of the
    modify handler ends in one of two ways.  Either the request was answered:
    then one plan, made at this time, with at least one section and titled by
    the shown plan's title followed by ' (Modified)', is put in front of the
    stored plans, which still hold the plan it was made from, and is the plan
    now shown; the request is emptied and the error cleared.  Or the stored
    plans, the shown plan and the request are as they were and the error is
    exactly the message of the [Error] the service threw.  With no plan shown
    or a blank request the handler changes nothing. *)
Theorem modify_adds_or_reports (host : Host) (fetched : Fetched) (st : Page.PageState)
        (shown : GeneratedBusinessPlan) :
  let st' := Page.handleModifyRequest host fetched st in
  (Page.showPlanView st = Some shown ->
   blank (Page.modificationRequest st) = false ->
   (answered host fetched
    /\ exists plan,
         Page.plans st' = plan :: Page.plans st
         /\ Page.showPlanView st' = Some plan
         /\ freshPlan host plan
         /\ planTitle plan = planTitle shown ++ lit " (Modified)"
         /\ planIndustry plan = planIndustry shown
         /\ Page.error st' = None
         /\ Page.modificationRequest st' = []
         /\ Page.showModifyMode st' = false
         /\ Page.isModifying st' = false)
   \/ (~ answered host fetched
       /\ Page.plans st' = Page.plans st
       /\ Page.showPlanView st' = Some shown
       /\ Page.modificationRequest st' = Page.modificationRequest st
       /\ exists message,
            Page.error st' = Some message
            /\ modifyBusinessPlan host shown (Page.modificationRequest st) fetched
               = inl (ErrorObject message)))
  /\ (Page.showPlanView st = None \/ blank (Page.modificationRequest st) = true ->
      st' = st).
Proof.
  unfold Page.handleModifyRequest, blank. split.
  - intros S B. rewrite S, B.
    destruct (modify_cases host shown (Page.modificationRequest st) fetched)
      as [[A [text E]]|[A [m E]]]; rewrite E; cbn zeta.
    + left. split; [exact A|]. eexists. split; [reflexivity|]. split; [reflexivity|].
      split; [apply parsed_fresh|]. repeat split.
    + right. split; [exact A|]. split; [reflexivity|]. split; [exact S|].
      split; [reflexivity|]. exists m. split; reflexivity.
  - intros [->| ->]; [reflexivity|]. destruct (Page.showPlanView st); reflexivity.
Qed.

Lemma modify_adds_or_reports_witness :
  exists plan,
    Page.plans (Page.handleModifyRequest sampleHost
                  (Responded (okResponse (lit "Pricing."))) showingPlan)
    = [plan; plainPlan]
    /\ planTitle plan = lit "Acme Business Plan (Modified)".
Proof.
  assert (S : Page.showPlanView showingPlan = Some plainPlan) by reflexivity.
  assert (B : blank (Page.modificationRequest showingPlan) = false)
    by (vm_compute; reflexivity).
  destruct (proj1 (modify_adds_or_reports sampleHost
                     (Responded (okResponse (lit "Pricing."))) showingPlan plainPlan) S B)
    as [(_ & plan & P & _ & _ & T & _)|(A & _)].
  - exists plan. split; [exact P | exact T].
  - exfalso. apply A. split; [reflexivity|]. eexists. eexists.
    split; [reflexivity|]. split; reflexivity.
Defined.

Lemma str_eqb_refl (a : str) : str_eqb a a = true.
Proof. apply str_eqb_eq. reflexivity. Qed.

Lemma str_eqb_neq (a b : str) : str_eqb a b = false <-> a <> b.
Proof.
  split.
  - intros H E. apply str_eqb_eq in E. congruence.
  - intros H. destruct (str_eqb a b) eqn:E; [|reflexivity].
    apply str_eqb_eq in E. contradiction.
Qed.

Lemma setPlans_same (st : Page.PageState) : Page.setPlans (Page.plans st) st = st.
Proof. destruct st. reflexivity. Qed.

Lemma filter_other_ids (id : str) (ps : list GeneratedBusinessPlan) :
  ~ In id (map planId ps) ->
  filter (fun plan => negb (str_eqb (planId plan) id)) ps = ps.
Proof.
  induction ps as [|p ps IH]; simpl; [reflexivity|]. intros H.
  assert (N : str_eqb (planId p) id = false) by (apply str_eqb_neq; tauto).
  rewrite N. simpl. f_equal. apply IH. tauto.
Qed.

(** X16: deleting by id removes every stored plan with that id and keeps the
    others, in their order; it changes nothing else on the page (putting the
    stored plans back gives the state before the deletion), so deleting an
    id no stored plan has leaves the state as it is, and deleting a plan just
    added under an id no stored plan had gives back the state before the
    addition. *)
Theorem delete_by_id (id : str) (st : Page.PageState) :
  (forall plan,
      In plan (Page.plans (Page.deletePlan id st))
      <-> In plan (Page.plans st) /\ planId plan <> id)
  /\ map planId (Page.plans (Page.deletePlan id st))
     = filter (fun i => negb (str_eqb i id)) (map planId (Page.plans st))
  /\ Page.setPlans (Page.plans st) (Page.deletePlan id st) = st
  /\ (~ In id (map planId (Page.plans st)) -> Page.deletePlan id st = st)
  /\ (forall plan,
         ~ In (planId plan) (map planId (Page.plans st)) ->
         Page.deletePlan (planId plan) (Page.setPlans (plan :: Page.plans st) st) = st).
Proof.
  unfold Page.deletePlan. repeat match goal with |- _ /\ _ => split end.
  - intros plan. simpl. rewrite filter_In.
    destruct (str_eqb (planId plan) id) eqn:E; simpl.
    + apply str_eqb_eq in E. split; [intros [_ H]; discriminate H | tauto].
    + apply str_eqb_neq in E. tauto.
  - simpl. induction (Page.plans st) as [|p ps IH]; simpl; [reflexivity|].
    destruct (str_eqb (planId p) id); simpl; rewrite IH; reflexivity.
  - destruct st. reflexivity.
  - intros H. rewrite (filter_other_ids id _ H). apply setPlans_same.
  - intros plan H. simpl. rewrite str_eqb_refl. simpl.
    rewrite (filter_other_ids _ _ H). destruct st. reflexivity.
Qed.

Lemma replace_ids (edited : GeneratedBusinessPlan) (ps : list GeneratedBusinessPlan) :
  map planId
      (map (fun plan => if str_eqb (planId plan) (planId edited) then edited else plan) ps)
  = map planId ps.
Proof.
  induction ps as [|p ps IH]; simpl; [reflexivity|]. rewrite IH. f_equal.
  destruct (str_eqb (planId p) (planId edited)) eqn:E; [|reflexivity].
  apply str_eqb_eq in E. congruence.
Qed.

Lemma replace_unedited (plan : GeneratedBusinessPlan) (ps : list GeneratedBusinessPlan) :
  (forall p, In p ps -> planId p = planId plan -> p = plan) ->
  map (fun p => if str_eqb (planId p) (planId plan) then plan else p) ps = ps.
Proof.
  induction ps as [|p ps IH]; simpl; [reflexivity|]. intros H.
  rewrite IH by (intros q Hq; apply H; right; exact Hq). f_equal.
  destruct (str_eqb (planId p) (planId plan)) eqn:E; [|reflexivity].
  apply str_eqb_eq in E. symmetry. apply H; [left; reflexivity | exact E].
Qed.

Lemma unique_ids (plan : GeneratedBusinessPlan) (ps : list GeneratedBusinessPlan) :
  NoDup (map planId ps) -> In plan ps ->
  forall p, In p ps -> planId p = planId plan -> p = plan.
Proof.
  induction ps as [|q ps IH]; simpl; [contradiction|].
  intros N Hplan p Hp E. inversion N as [|? ? Hq N']; subst.
  destruct Hplan as [->|Hplan], Hp as [->|Hp]; [reflexivity| | |apply IH; assumption].
  - exfalso. apply Hq. rewrite <- E. apply in_map. exact Hp.
  - exfalso. apply Hq. rewrite E. apply in_map. exact Hplan.
Qed.

(** X17: saving an edit puts the edited plan in the place of every stored
    plan with its id and keeps the others, so the ids of the stored plans,
    their number and their order do not change; the edited plan becomes the
    plan shown and the edit is closed.  When the stored ids are distinct,
    opening a stored plan for editing and saving it unedited leaves the
    stored plans as they were. *)
Theorem save_replaces_by_id (st : Page.PageState) (edited : GeneratedBusinessPlan) :
  Page.editedPlan st = Some edited ->
  let st' := Page.handleSaveEdit st in
  map planId (Page.plans st') = map planId (Page.plans st)
  /\ (forall plan,
         In plan (Page.plans st')
         <-> (In plan (Page.plans st) /\ planId plan <> planId edited)
             \/ (plan = edited /\ In (planId edited) (map planId (Page.plans st))))
  /\ Page.showPlanView st' = Some edited
  /\ Page.editedPlan st' = None
  /\ Page.showEditMode st' = false
  /\ (forall plan before,
         In plan (Page.plans before) -> NoDup (map planId (Page.plans before)) ->
         Page.plans (Page.handleSaveEdit (Page.handleEditPlan plan before))
         = Page.plans before).
Proof.
  intros E. unfold Page.handleSaveEdit. rewrite E. cbn zeta.
  split; [apply replace_ids|]. split; [|split; [reflexivity|split; [reflexivity|split;
    [reflexivity|]]]].
  - intros plan. simpl. rewrite in_map_iff. split.
    + intros (p & Hp & Hin).
      destruct (str_eqb (planId p) (planId edited)) eqn:Q.
      * right. apply str_eqb_eq in Q. split; [congruence|]. rewrite <- Q.
        apply in_map. exact Hin.
      * left. subst p. apply str_eqb_neq in Q. tauto.
    + intros [[Hin Hne]|[-> Hin]].
      * exists plan. apply str_eqb_neq in Hne. rewrite Hne. tauto.
      * apply in_map_iff in Hin. destruct Hin as (p & Hp & Hin). exists p.
        rewrite Hp, str_eqb_refl. tauto.
  - intros plan before Hin N. simpl.
    apply replace_unedited. apply unique_ids; assumption.
Qed.

Lemma save_replaces_by_id_witness :
  map planTitle (Page.plans (Page.handleSaveEdit editingSecond))
  = [lit "Acme Business Plan"; lit "Acme, revised"]
  /\ map planId (Page.plans (Page.handleSaveEdit editingSecond))
     = map planId (Page.plans editingSecond).
Proof.
  split; [vm_compute; reflexivity|].
  exact (proj1 (save_replaces_by_id editingSecond (retitled sparsePlan (lit "Acme, revised"))
                  eq_refl)).
Defined.

Lemma whenShown_in (st : Page.PageState) (plan : GeneratedBusinessPlan) :
  pageInvariant st ->
  In plan (Page.plans st) \/ Page.showPlanView st = Some plan \/ Page.editedPlan st = Some plan ->
  hasSections plan.
Proof.
  intros (Hp & Hs & He) [H|[H|H]].
  - exact (proj1 (Forall_forall _ _) Hp plan H).
  - rewrite H in Hs. exact Hs.
  - rewrite H in He. exact He.
Qed.

(** X18: every plan the page holds (stored, shown or being edited) has at
    least one section, and the handlers keep it so: generating, modifying,
    deleting, opening a stored or shown plan for editing, saving and
    cancelling an edit. *)
Theorem plans_keep_sections (st : Page.PageState) :
  pageInvariant st ->
  (forall host fetched, pageInvariant (Page.handleGeneratePlan host fetched st))
  /\ (forall host fetched, pageInvariant (Page.handleModifyRequest host fetched st))
  /\ (forall id, pageInvariant (Page.deletePlan id st))
  /\ (forall plan,
         In plan (Page.plans st) \/ Page.showPlanView st = Some plan ->
         pageInvariant (Page.handleEditPlan plan st))
  /\ pageInvariant (Page.handleSaveEdit st)
  /\ pageInvariant (Page.handleCancelEdit st).
Proof.
  intros I. pose proof I as (Hp & Hs & He).
  repeat match goal with |- _ /\ _ => split end.
  - intros host fetched. unfold Page.handleGeneratePlan.
    destruct (filledIn_valid st) as [[F ->]|[F (? & ? & ? & ? & _ & _ & _ & ->)]];
      cbn zeta; cbn [negb].
    + destruct (generate_cases host (Page.formData st) fetched)
        as [[A [text ->]]|[A [m ->]]]; (split; [|split]); simpl; try assumption.
      constructor; [|exact Hp]. unfold hasSections. simpl.
      destruct (parse_cases text) as [[_ ->]|[H ->]]; [discriminate | exact H].
    + split; [|split]; assumption.
  - intros host fetched. unfold Page.handleModifyRequest.
    destruct (Page.showPlanView st) as [shown|] eqn:S; [|exact I].
    destruct (negb (truthy (trim (Page.modificationRequest st)))); [exact I|].
    assert (P : forall text, parseBusinessPlanSections text <> []).
    { intros text. destruct (parse_cases text) as [[_ ->]|[H ->]]; [discriminate | exact H]. }
    destruct (modify_cases host shown (Page.modificationRequest st) fetched)
      as [[A [text ->]]|[A [m ->]]]; (split; [|split]); simpl; try assumption.
    + constructor; [apply P | exact Hp].
    + apply P.
    + rewrite S. exact Hs.
  - intros id. split; [|split]; simpl; try assumption.
    apply Forall_forall. intros p Hin. apply filter_In in Hin.
    exact (proj1 (Forall_forall _ _) Hp p (proj1 Hin)).
  - intros plan Hin. split; [|split]; simpl; try assumption; [exact Logic.I|].
    apply (whenShown_in st plan I). tauto.
  - unfold Page.handleSaveEdit. destruct (Page.editedPlan st) as [edited|] eqn:E; [|exact I].
    split; [|split]; simpl; try assumption; [|exact Logic.I].
    apply Forall_forall. intros p Hin. apply in_map_iff in Hin.
    destruct Hin as (q & <- & Hq).
    destruct (str_eqb (planId q) (planId edited)); [exact He|].
    exact (proj1 (Forall_forall _ _) Hp q Hq).
  - split; [|split]; simpl; try assumption. exact Logic.I.
Qed.

Lemma plans_keep_sections_witness :
  pageInvariant showingPlan
  /\ pageInvariant (Page.handleModifyRequest sampleHost
                      (Responded (okResponse (lit "Pricing."))) showingPlan).
Proof.
  assert (I : pageInvariant showingPlan).
  { split; [|split].
    - apply Forall_cons; [discriminate | apply Forall_nil].
    - simpl. discriminate.
    - exact Logic.I. }
  split; [exact I|].
  exact (proj1 (proj2 (plans_keep_sections showingPlan I)) sampleHost
           (Responded (okResponse (lit "Pricing.")))).
Defined.

(** ** The prompt of a modification *)

Lemma includes_part (f : BusinessPlanSection -> str) (secs : list BusinessPlanSection)
      (section : BusinessPlanSection) (rest : str) :
  In section secs -> includes (flat_map f secs ++ rest) (f section) = true.
Proof.
  induction secs as [|sec secs IH]; simpl; [contradiction|].
  intros [->|H]; rewrite <- app_assoc.
  - apply includes_here.
  - apply includes_skip, IH, H.
Qed.

Lemma includes_here3 (a b c r : str) :
  includes (a ++ b ++ c ++ r) (a ++ b ++ c) = true.
Proof.
  replace (a ++ b ++ c ++ r) with ((a ++ b ++ c) ++ r)
    by (rewrite <- !app_assoc; reflexivity).
  apply includes_here.
Qed.

Lemma includes_here5 (a b c d e r : str) :
  includes (a ++ b ++ c ++ d ++ e ++ r) (a ++ b ++ c ++ d ++ e) = true.
Proof.
  replace (a ++ b ++ c ++ d ++ e ++ r) with ((a ++ b ++ c ++ d ++ e) ++ r)
    by (rewrite <- !app_assoc; reflexivity).
  apply includes_here.
Qed.

(** X19: the prompt of a modification holds the request between double
    quotes, and the plan as it stands: its title, on the next line its
    industry after 'Industry: ', and every section of the plan as its title,
    a line break and its content, whatever they are. *)
Theorem modification_prompt_embeds (plan : GeneratedBusinessPlan) (request : str) :
  let prompt := modificationPrompt plan request in
  includes prompt ([QUOTE] ++ request ++ [QUOTE]) = true
  /\ includes prompt (planTitle plan ++ nl ++ lit "Industry: " ++ planIndustry plan ++ nl) = true
  /\ forall section,
       In section (sections plan) ->
       includes prompt (title section ++ nl ++ content section ++ nl ++ nl) = true.
Proof.
  cbn zeta. unfold modificationPrompt, formatBusinessPlanForModification.
  rewrite (fold_left_append _ (fun section =>
             title section ++ nl ++ content section ++ nl ++ nl)).
  rewrite <- !app_assoc.
  repeat match goal with |- _ /\ _ => split end.
  - apply includes_skip, includes_here3.
  - repeat first [apply includes_here5 | apply includes_skip].
  - intros section H.
    repeat first [ apply (includes_part (fun section =>
                            title section ++ nl ++ content section ++ nl ++ nl));
                   exact H
                 | apply includes_skip ].
Qed.

(** ** Leaving an edit *)

(** X20: from a page that is not editing, opening a plan for editing,
    changing the edited copy in any way and cancelling leaves the stored
    plans and everything else as they were, except that no plan is shown any
    more, also when the edit was opened from the view of that plan. *)
Theorem cancel_discards_edit (st : Page.PageState) (plan changed : GeneratedBusinessPlan) :
  Page.editedPlan st = None ->
  Page.showEditMode st = false ->
  Page.handleCancelEdit (Page.setEditedPlan (Some changed) (Page.handleEditPlan plan st))
  = Page.setShowPlanView None st
  /\ Page.handleCancelEdit (Page.handleEditPlan plan st) = Page.setShowPlanView None st.
Proof.
  intros E M. destruct st. simpl in E, M. subst.
  split; reflexivity.
Qed.

Lemma cancel_discards_edit_witness :
  Page.showPlanView
    (Page.handleCancelEdit
       (Page.setEditedPlan (Some (retitled plainPlan (lit "Acme, revised")))
          (Page.handleEditPlan plainPlan showingPlan)))
  = None
  /\ Page.plans
       (Page.handleCancelEdit
          (Page.setEditedPlan (Some (retitled plainPlan (lit "Acme, revised")))
             (Page.handleEditPlan plainPlan showingPlan)))
     = [plainPlan].
Proof.
  rewrite (proj1 (cancel_discards_edit showingPlan plainPlan
                    (retitled plainPlan (lit "Acme, revised")) eq_refl eq_refl)).
  split; reflexivity.
Defined.
(** ** Scenarios *)

Example scenario_bold_header :
  parseBusinessPlanSections
    (lit "**Executive Summary**" ++ nl ++ lit "We sell widgets.")
  = [{| title := lit "Executive Summary"; content := lit "We sell widgets." |}].
Proof. vm_compute. reflexivity. Qed.

